(** * Pattern extraction and aggregation engine of the paywall generator

    A shallow embedding of the pattern engine of [src/backend/server.js]:
    [extractPaywallPatterns], [extractPatternsFromCSS],
    [extractComponentStyles], [extractSelectorStyles] and
    [mergePaywallPatterns] with its local helper [mergeArray], together
    with the properties of the specification that concern them.  The
    upload handlers and the helpers that read a Figma file
    ([extractFigmaFileKey], [extractNodeDimensions], [findNodeById],
    [findTopLevelNode], [identifySections], [extractDesignTokens],
    [findImageNodes] and the dimensions of the paywall) are embedded
    too, with properties of their own.

    Conventions of the embedding.
    - A JavaScript string is a [string] of 8-bit characters (the Latin-1
      range of UTF-16 code units); all regular expressions of the source
      only name ASCII characters.
    - A JavaScript number is an exact rational [Q]; NaN is [None] where a
      conversion can produce it.  On integers below 2^53 this agrees with
      IEEE doubles.
    - The document is the tree that [cheerio.load] returns; cheerio is an
      external dependency, so its parser is not part of the model, only
      the selector queries the source performs on the tree.
    - Plain objects used as dictionaries are [gmap]s; a [Set] is a list
      without duplicates in insertion order. *)

From Stdlib Require Import QArith Qabs Qround.
From stdpp Require Import base list strings gmap sorting pretty.
From Stdlib Require Import Ascii String.

Local Open Scope string_scope.
Local Open Scope list_scope.

(** ** Characters and strings *)

Module Js.

Definition code (c : ascii) : nat := nat_of_ascii c.

Definition dquote : ascii := Eval cbv in ascii_of_nat 34.

(** White space of [\s] and of [String.prototype.trim], within Latin-1. *)
Definition is_space (c : ascii) : bool :=
  let n := code c in
  (Nat.leb 9 n && Nat.leb n 13) || Nat.eqb n 32 || Nat.eqb n 160.

Definition is_digit (c : ascii) : bool :=
  let n := code c in Nat.leb 48 n && Nat.leb n 57.

Definition is_upper (c : ascii) : bool :=
  let n := code c in Nat.leb 65 n && Nat.leb n 90.

Definition is_lower (c : ascii) : bool :=
  let n := code c in Nat.leb 97 n && Nat.leb n 122.

(** [\w] is [[A-Za-z0-9_]]. *)
Definition is_word (c : ascii) : bool :=
  is_upper c || is_lower c || is_digit c || Nat.eqb (code c) 95.

(** Line terminators, which [.] refuses. *)
Definition is_line_terminator (c : ascii) : bool :=
  Nat.eqb (code c) 10 || Nat.eqb (code c) 13.

Definition to_upper (c : ascii) : ascii :=
  if is_lower c then ascii_of_nat (code c - 32) else c.

Definition to_lower (c : ascii) : ascii :=
  if is_upper c then ascii_of_nat (code c + 32) else c.

Definition chars (s : string) : list ascii := list_ascii_of_string s.
Definition str (l : list ascii) : string := string_of_list_ascii l.

Fixpoint drop_while {A} (p : A -> bool) (l : list A) : list A :=
  match l with
  | x :: l' => if p x then drop_while p l' else l
  | [] => []
  end.

(** [s.trim()] *)
Definition trim (s : string) : string :=
  str (rev (drop_while is_space (rev (drop_while is_space (chars s))))).

(** [s.split(sep)] for a one-character separator. *)
Fixpoint split_chars (sep : ascii) (cur : list ascii) (l : list ascii)
  : list string :=
  match l with
  | [] => [str (rev cur)]
  | x :: l' =>
      if Ascii.eqb x sep then str (rev cur) :: split_chars sep [] l'
      else split_chars sep (x :: cur) l'
  end.

Definition split (sep : ascii) (s : string) : list string :=
  split_chars sep [] (chars s).

(** [s.replace(/[...]/g, empty)] for a class given as a predicate. *)
Definition remove_chars (p : ascii -> bool) (s : string) : string :=
  str (filter (fun c => Is_true (negb (p c))) (chars s)).

(** [s.includes(t)] *)
Fixpoint prefix_chars (p l : list ascii) : bool :=
  match p, l with
  | [], _ => true
  | a :: p', b :: l' => Ascii.eqb a b && prefix_chars p' l'
  | _ :: _, [] => false
  end.

Fixpoint includes_chars (p l : list ascii) : bool :=
  prefix_chars p l ||
  match l with
  | [] => false
  | _ :: l' => includes_chars p l'
  end.

Definition includes (s t : string) : bool := includes_chars (chars t) (chars s).

(** A [Set] of strings: [add] keeps the first insertion. *)
Definition set_add (v : string) (s : list string) : list string :=
  if existsb (String.eqb v) s then s else s ++ [v].

End Js.

(** ** Regular expressions

    The fragment of ECMAScript regular expressions that the source
    uses, with the backtracking semantics of the language: ordered
    alternation, greedy and lazy repetition, numbered capture groups.
    The source has no anchors, look-around or back-references. *)

Module Regex.

Inductive citem : Type :=
| CChar (c : ascii)
| CRange (lo hi : ascii)
| CDigit
| CWord
| CSpace.

Inductive regex : Type :=
| Eps
| Lit (c : ascii)
| Cls (neg : bool) (items : list citem)
| Dot
| Seq (r1 r2 : regex)
| Alt (r1 r2 : regex)
| Star (lazy : bool) (r : regex)
| Grp (i : nat) (r : regex).

Definition in_item (x : ascii) (it : citem) : bool :=
  match it with
  | CChar c => Ascii.eqb c x
  | CRange lo hi => Nat.leb (Js.code lo) (Js.code x) && Nat.leb (Js.code x) (Js.code hi)
  | CDigit => Js.is_digit x
  | CWord => Js.is_word x
  | CSpace => Js.is_space x
  end.

(** With the [i] flag a character is compared after canonicalisation. *)
Definition char_eq (ci : bool) (a x : ascii) : bool :=
  if ci then Ascii.eqb (Js.to_upper a) (Js.to_upper x) else Ascii.eqb a x.

Definition in_class (ci : bool) (items : list citem) (x : ascii) : bool :=
  existsb (in_item x) items ||
  (ci && (existsb (in_item (Js.to_upper x)) items
          || existsb (in_item (Js.to_lower x)) items)).

Definition caps : Type := list (nat * list ascii).

Definition setcap (i : nat) (v : list ascii) (c : caps) : caps :=
  (i, v) :: filter (fun p => Is_true (negb (Nat.eqb (fst p) i))) c.

Fixpoint getcap (i : nat) (c : caps) : option (list ascii) :=
  match c with
  | [] => None
  | (j, v) :: c' => if Nat.eqb i j then Some v else getcap i c'
  end.

Definition cont : Type := list ascii -> caps -> option (list ascii * caps).

(** [rmatch ci r k s c] matches [r] at the head of [s] and passes the
    rest of the input to the continuation [k]; a [None] from the
    continuation makes the matcher try its next choice. *)
Fixpoint rmatch (ci : bool) (r : regex) (k : cont) (s : list ascii) (c : caps)
  : option (list ascii * caps) :=
  match r with
  | Eps => k s c
  | Lit a =>
      match s with
      | x :: s' => if char_eq ci a x then k s' c else None
      | [] => None
      end
  | Cls neg items =>
      match s with
      | x :: s' => if xorb neg (in_class ci items x) then k s' c else None
      | [] => None
      end
  | Dot =>
      match s with
      | x :: s' => if Js.is_line_terminator x then None else k s' c
      | [] => None
      end
  | Seq r1 r2 => rmatch ci r1 (rmatch ci r2 k) s c
  | Alt r1 r2 =>
      match rmatch ci r1 k s c with
      | Some res => Some res
      | None => rmatch ci r2 k s c
      end
  | Star lazy r1 =>
      (fix loop (fuel : nat) (s : list ascii) (c : caps) {struct fuel}
         : option (list ascii * caps) :=
         let again (_ : unit) :=
           match fuel with
           | O => None
           | S fuel' =>
               rmatch ci r1
                 (fun s' c' =>
                    if Nat.ltb (List.length s') (List.length s) then loop fuel' s' c'
                    else None) s c
           end in
         if lazy then
           match k s c with
           | Some res => Some res
           | None => again tt
           end
         else
           match again tt with
           | Some res => Some res
           | None => k s c
           end) (List.length s) s c
  | Grp i r1 =>
      rmatch ci r1
        (fun s' c' => k s' (setcap i (take (List.length s - List.length s') s) c')) s c
  end.

(** Derived forms. *)
Definition Plus (r : regex) : regex := Seq r (Star false r).
Definition Opt (r : regex) : regex := Alt r Eps.

Fixpoint lit_chars (l : list ascii) : regex :=
  match l with
  | [] => Eps
  | [c] => Lit c
  | c :: l' => Seq (Lit c) (lit_chars l')
  end.

(** The literal text [s]. *)
Definition lit (s : string) : regex := lit_chars (Js.chars s).

Fixpoint seqs (rs : list regex) : regex :=
  match rs with
  | [] => Eps
  | [r] => r
  | r :: rs' => Seq r (seqs rs')
  end.

Fixpoint alts (rs : list regex) : regex :=
  match rs with
  | [] => Eps
  | [r] => r
  | r :: rs' => Alt r (alts rs')
  end.

(** [r{lo,hi}], greedy, for [lo <= hi]. *)
Fixpoint upto (n : nat) (r : regex) : regex :=
  match n with
  | O => Eps
  | S n' => Opt (Seq r (upto n' r))
  end.

Fixpoint times (n : nat) (r : regex) : regex :=
  match n with
  | O => Eps
  | S n' => Seq r (times n' r)
  end.

Definition Rep (lo hi : nat) (r : regex) : regex :=
  Seq (times lo r) (upto (hi - lo) r).

(** One match: the matched text (group 0) and the groups. *)
Record rmatch_result : Type := MatchResult {
  whole : string;
  groups : caps
}.

(** [m[i]] for a group that took part in the match, else the empty
    string (the source only reads groups that always take part). *)
Definition group (i : nat) (m : rmatch_result) : string :=
  match getcap i (groups m) with
  | Some v => Js.str v
  | None => EmptyString
  end.

(** The first match at or after the head of [s], with the input
    that follows the match. *)
Fixpoint search (ci : bool) (r : regex) (s : list ascii)
  : option (rmatch_result * list ascii) :=
  match rmatch ci r (fun s' c' => Some (s', c')) s [] with
  | Some (rest, c) =>
      Some (MatchResult (Js.str (take (List.length s - List.length rest) s)) c, rest)
  | None =>
      match s with
      | [] => None
      | _ :: s' => search ci r s'
      end
  end.

(** [re.exec(s)] on a fresh regular expression. *)
Definition exec (ci : bool) (r : regex) (s : string) : option rmatch_result :=
  fst <$> search ci r (Js.chars s).

Fixpoint matchAll_from (fuel : nat) (ci : bool) (r : regex) (s : list ascii)
  : list rmatch_result :=
  match fuel with
  | O => []
  | S fuel' =>
      match search ci r s with
      | None => []
      | Some (m, rest) =>
          m :: (if String.eqb (whole m) EmptyString then
                  match rest with
                  | [] => []
                  | _ :: rest' => matchAll_from fuel' ci r rest'
                  end
                else matchAll_from fuel' ci r rest)
      end
  end.

(** [s.matchAll(re)] for a regular expression with the [g] flag. *)
Definition matchAll (ci : bool) (r : regex) (s : string) : list rmatch_result :=
  matchAll_from (S (String.length s)) ci r (Js.chars s).

(** Frequent pieces of the source's expressions. *)
Definition ws : regex := Star false (Cls false [CSpace]).      (* \s* *)
Definition digits : regex := Plus (Cls false [CDigit]).        (* \d+ *)
Definition number : regex :=                                   (* \d+(?:\.\d+)? *)
  Seq digits (Opt (Seq (Lit ".") digits)).
Definition not_char (c : ascii) : regex := Cls true [CChar c]. (* [^c] *)
Definition word : regex := Plus (Cls false [CWord]).           (* \w+ *)

End Regex.

Import Regex.

(** ** Numbers *)

Module Num.

Definition digit_val (c : ascii) : Z := Z.of_nat (Js.code c - 48).

Fixpoint digits_val (acc : Z) (l : list ascii) : Z :=
  match l with
  | [] => acc
  | c :: l' => digits_val (10 * acc + digit_val c) l'
  end.

Fixpoint all_digits (l : list ascii) : bool :=
  match l with
  | [] => true
  | c :: l' => Js.is_digit c && all_digits l'
  end.

Fixpoint split_dot (cur : list ascii) (l : list ascii)
  : list ascii * option (list ascii) :=
  match l with
  | [] => (rev cur, None)
  | c :: l' =>
      if Ascii.eqb c "." then (rev cur, Some l') else split_dot (c :: cur) l'
  end.

Definition unsigned_decimal (l : list ascii) : option Q :=
  match split_dot [] l with
  | (ip, None) =>
      if all_digits ip && negb (Nat.eqb (List.length ip) 0)
      then Some (inject_Z (digits_val 0 ip)) else None
  | (ip, Some fp) =>
      if all_digits ip && all_digits fp
         && negb (Nat.eqb (List.length ip + List.length fp) 0)
      then Some (Qred (Qmake (digits_val 0 (ip ++ fp))
                             (Z.to_pos (10 ^ Z.of_nat (List.length fp)))))
      else None
  end.

(** [Number(s)] for the decimal literals without exponent, which are
    the only numeric strings the capture groups of the extractor
    produce; [None] is NaN.  The empty string converts to 0 and white
    space around the literal is ignored, as in the language. *)
Definition Number (s : string) : option Q :=
  match Js.chars (Js.trim s) with
  | [] => Some 0%Q
  | c :: l =>
      if Ascii.eqb c "-" then Qopp <$> unsigned_decimal l
      else if Ascii.eqb c "+" then unsigned_decimal l
      else unsigned_decimal (c :: l)
  end.

(** [isNaN(s)] on a string. *)
Definition isNaN (s : string) : bool :=
  match Number s with Some _ => false | None => true end.

(** Stable insertion sort, the model of [Array.prototype.sort] with a
    comparator; [le a b] says that the comparator does not put [b]
    before [a]. *)
Fixpoint insert_sorted {A} (le : A -> A -> bool) (x : A) (l : list A) : list A :=
  match l with
  | [] => [x]
  | y :: l' => if le y x then y :: insert_sorted le x l' else x :: l
  end.

Definition sort_by {A} (le : A -> A -> bool) (l : list A) : list A :=
  foldl (fun acc x => insert_sorted le x acc) [] l.

(** [l.sort((a, b) => a - b)] on numbers. *)
Definition sort_numbers (l : list Q) : list Q := sort_by Qle_bool l.

Definition Qlt_bool (a b : Q) : bool := negb (Qle_bool b a).

End Num.

(** ** The parsed document and the selector queries on it *)

Module Dom.

#[local] Unset Elimination Schemes.
Inductive node : Type :=
| Element (tag : string) (attrs : list (string * string)) (children : list node)
| Text (data : string).
#[local] Set Elimination Schemes.

Definition document : Type := list node.

(** The elements of a subtree, in document order. *)
Fixpoint elements (n : node) : list node :=
  match n with
  | Element _ _ children => n :: flat_map elements children
  | Text _ => []
  end.

Definition all_elements (d : document) : list node := flat_map elements d.

Definition tag_of (n : node) : string :=
  match n with Element t _ _ => t | Text _ => EmptyString end.

Fixpoint assoc (k : string) (l : list (string * string)) : option string :=
  match l with
  | [] => None
  | (k', v) :: l' => if String.eqb k k' then Some v else assoc k l'
  end.

(** [$(elem).attr(name)] *)
Definition attr (name : string) (n : node) : option string :=
  match n with Element _ a _ => assoc name a | Text _ => None end.

(** The white-space separated tokens of a [class] attribute. *)
Fixpoint tokens (cur : list ascii) (l : list ascii) : list string :=
  match l with
  | [] => match cur with [] => [] | _ => [Js.str (rev cur)] end
  | c :: l' =>
      if Js.is_space c then
        match cur with
        | [] => tokens [] l'
        | _ => Js.str (rev cur) :: tokens [] l'
        end
      else tokens (c :: cur) l'
  end.

(** The simple selectors of the source and comma-separated groups. *)
Inductive simple : Type :=
| STag (t : string)                 (* t *)
| SClass (c : string)               (* .c *)
| SAttrContains (a v : string)      (* [a*='v'] *)
| SHasAttr (a : string).            (* [a] *)

Definition selector : Type := list simple.

Definition matches_simple (n : node) (s : simple) : bool :=
  match s with
  | STag t => String.eqb (tag_of n) t
  | SClass c =>
      match attr "class" n with
      | Some v => existsb (String.eqb c) (tokens [] (Js.chars v))
      | None => false
      end
  | SAttrContains a v =>
      match attr a n with
      | Some w => Js.includes w v
      | None => false
      end
  | SHasAttr a =>
      match attr a n with Some _ => true | None => false end
  end.

Definition matches (sel : selector) (n : node) : bool :=
  existsb (matches_simple n) sel.

(** [$(sel)]: the matching elements in document order. *)
Definition select (d : document) (sel : selector) : list node :=
  List.filter (matches sel) (all_elements d).

Definition text_data (n : node) : string :=
  match n with Text s => s | Element _ _ _ => EmptyString end.

(** [$(elem).html()] of one element.  The queries of the source only
    read [style] elements, whose content the parser keeps as raw text
    and the serialiser emits unescaped. *)
Definition inner_html (n : node) : string :=
  match n with
  | Element _ _ children =>
      String.concat EmptyString (map text_data children)
  | Text _ => EmptyString
  end.

(** [$(sel).html()] reads the first element of the selection and is
    [null] on an empty selection. *)
Definition html (sel : list node) : option string :=
  match sel with
  | [] => None
  | n :: _ => Some (inner_html n)
  end.

End Dom.

(** ** Attribute categories *)

Inductive numeric_category : Type :=
| fontSizes | fontWeights | lineHeights | letterSpacing | spacing
| borderRadius | opacities | zIndex | gaps | widths | heights | breakpoints.

Inductive string_category : Type :=
| colors | fonts | shadows | borders | transitions | transforms | gradients
| displayTypes | flexProperties | gridProperties | positions | textTransforms
| textDecorations | animations.

#[global] Instance numeric_category_eq_dec : EqDecision numeric_category.
Proof. solve_decision. Defined.

#[global] Instance string_category_eq_dec : EqDecision string_category.
Proof. solve_decision. Defined.

Definition all_numeric : list numeric_category :=
  [fontSizes; fontWeights; lineHeights; letterSpacing; spacing; borderRadius;
   opacities; zIndex; gaps; widths; heights; breakpoints].

Definition all_string : list string_category :=
  [colors; fonts; shadows; borders; transitions; transforms; gradients;
   displayTypes; flexProperties; gridProperties; positions; textTransforms;
   textDecorations; animations].

(** The counts of [patterns.layouts]. *)
Record Layouts : Type := {
  buttons : nat;
  cards : nat;
  containers : nat;
  inputs : nat;
  modals : nat
}.

(** The working object [patterns] of [extractPaywallPatterns]: one
    [Set] of strings per category and the two dictionaries. *)
Record Patterns : Type := {
  num_set : numeric_category -> list string;
  str_set : string_category -> list string;
  w_commonStyles : gmap string (gmap string string);
  w_componentStyles : gmap string (gmap string (list string))
}.

Definition empty_patterns : Patterns :=
  {| num_set := fun _ => [];
     str_set := fun _ => [];
     w_commonStyles := ∅;
     w_componentStyles := ∅ |}.

(** [patterns.c.add(v)] *)
Definition add_num (c : numeric_category) (v : string) (p : Patterns) : Patterns :=
  {| num_set := fun c' => if decide (c' = c) then Js.set_add v (num_set p c)
                          else num_set p c';
     str_set := str_set p;
     w_commonStyles := w_commonStyles p;
     w_componentStyles := w_componentStyles p |}.

Definition add_str (c : string_category) (v : string) (p : Patterns) : Patterns :=
  {| num_set := num_set p;
     str_set := fun c' => if decide (c' = c) then Js.set_add v (str_set p c)
                          else str_set p c';
     w_commonStyles := w_commonStyles p;
     w_componentStyles := w_componentStyles p |}.

(** [patterns.commonStyles.cssVariables[name] = value], creating
    [cssVariables] when it is missing. *)
Definition set_css_variable (name value : string) (p : Patterns) : Patterns :=
  {| num_set := num_set p;
     str_set := str_set p;
     w_commonStyles :=
       <["cssVariables" :=
           <[name := value]> (default ∅ (w_commonStyles p !! "cssVariables"))]>
         (w_commonStyles p);
     w_componentStyles := w_componentStyles p |}.

Definition set_component (name : string) (styles : gmap string (list string))
  (p : Patterns) : Patterns :=
  {| num_set := num_set p;
     str_set := str_set p;
     w_commonStyles := w_commonStyles p;
     w_componentStyles := <[name := styles]> (w_componentStyles p) |}.

(** ** The pattern rules of [extractPatternsFromCSS]

    One regular expression per rule, in the order of the source.  All
    carry the flags [gi] except [colorRegex], which is case sensitive. *)

Module Rules.

Definition unit_of (us : list string) : regex := Opt (alts (map lit us)).
Definition until_semicolon : regex := Plus (not_char ";").      (* [^;]+ *)
Definition hex : regex :=
  Cls false [CRange "0" "9"; CRange "a" "f"; CRange "A" "F"].
Definition side : regex :=                   (* (?:-top|-right|-bottom|-left)? *)
  Opt (alts [lit "-top"; lit "-right"; lit "-bottom"; lit "-left"]).
Definition call (name : string) : regex :=                     (* name\([^)]+\) *)
  seqs [lit name; Lit "("; Plus (not_char ")"); Lit ")"].

(* /(#[0-9a-fA-F]{3,8}|rgb\([^)]+\)|rgba\([^)]+\)|hsl\([^)]+\)|hsla\([^)]+\)|transparent|currentColor)/g *)
Definition colorRegex : regex :=
  Grp 1 (alts [Seq (Lit "#") (Rep 3 8 hex); call "rgb"; call "rgba";
               call "hsl"; call "hsla"; lit "transparent"; lit "currentColor"]).

(* /font-family:\s*([^;]+)/gi *)
Definition fontRegex : regex :=
  seqs [lit "font-family:"; ws; Grp 1 until_semicolon].

(* /font-size:\s*(\d+(?:\.\d+)?)(?:px|rem|em)?/gi *)
Definition fontSizeRegex : regex :=
  seqs [lit "font-size:"; ws; Grp 1 number; unit_of ["px"; "rem"; "em"]].

(* /font-weight:\s*(\d+|normal|bold|bolder|lighter)/gi *)
Definition fontWeightRegex : regex :=
  seqs [lit "font-weight:"; ws;
        Grp 1 (alts [digits; lit "normal"; lit "bold"; lit "bolder";
                     lit "lighter"])].

(* /line-height:\s*(\d+(?:\.\d+)?)(?:px|rem|em|%)?/gi *)
Definition lineHeightRegex : regex :=
  seqs [lit "line-height:"; ws; Grp 1 number; unit_of ["px"; "rem"; "em"; "%"]].

(* /letter-spacing:\s*(-?\d+(?:\.\d+)?)(?:px|em)?/gi *)
Definition letterSpacingRegex : regex :=
  seqs [lit "letter-spacing:"; ws; Grp 1 (Seq (Opt (Lit "-")) number);
        unit_of ["px"; "em"]].

(* /(?:padding|margin)(?:-top|-right|-bottom|-left)?:\s*(\d+(?:\.\d+)?)(?:px|rem|em|%)?/gi *)
Definition spacingRegex : regex :=
  seqs [alts [lit "padding"; lit "margin"]; side; Lit ":"; ws; Grp 1 number;
        unit_of ["px"; "rem"; "em"; "%"]].

(* /border-radius:\s*(\d+(?:\.\d+)?)(?:px|rem|em|%)?/gi *)
Definition borderRadiusRegex : regex :=
  seqs [lit "border-radius:"; ws; Grp 1 number;
        unit_of ["px"; "rem"; "em"; "%"]].

(* /box-shadow:\s*([^;]+)/gi *)
Definition shadowRegex : regex :=
  seqs [lit "box-shadow:"; ws; Grp 1 until_semicolon].

(* /border(?:-top|-right|-bottom|-left)?(?:-width)?:\s*(\d+(?:\.\d+)?(?:px|rem|em)?)\s+(\w+)\s+([^;]+)/gi *)
Definition borderRegex : regex :=
  seqs [lit "border"; side; Opt (lit "-width"); Lit ":"; ws;
        Grp 1 (Seq number (unit_of ["px"; "rem"; "em"]));
        Plus (Cls false [CSpace]); Grp 2 word;
        Plus (Cls false [CSpace]); Grp 3 until_semicolon].

(* /transition:\s*([^;]+)/gi *)
Definition transitionRegex : regex :=
  seqs [lit "transition:"; ws; Grp 1 until_semicolon].

(* /transform:\s*([^;]+)/gi *)
Definition transformRegex : regex :=
  seqs [lit "transform:"; ws; Grp 1 until_semicolon].

(* /opacity:\s*(\d+(?:\.\d+)?)/gi *)
Definition opacityRegex : regex :=
  seqs [lit "opacity:"; ws; Grp 1 number].

(* /(?:background|background-image):\s*(linear-gradient|radial-gradient|conic-gradient)\([^)]+\)/gi *)
Definition gradientRegex : regex :=
  seqs [alts [lit "background"; lit "background-image"]; Lit ":"; ws;
        Grp 1 (alts [lit "linear-gradient"; lit "radial-gradient";
                     lit "conic-gradient"]);
        Lit "("; Plus (not_char ")"); Lit ")"].

(* /z-index:\s*(-?\d+)/gi *)
Definition zIndexRegex : regex :=
  seqs [lit "z-index:"; ws; Grp 1 (Seq (Opt (Lit "-")) digits)].

(* /gap:\s*(\d+(?:\.\d+)?)(?:px|rem|em)?/gi *)
Definition gapRegex : regex :=
  seqs [lit "gap:"; ws; Grp 1 number; unit_of ["px"; "rem"; "em"]].

(* /width:\s*(\d+(?:\.\d+)?)(?:px|rem|em|%)?/gi *)
Definition widthRegex : regex :=
  seqs [lit "width:"; ws; Grp 1 number; unit_of ["px"; "rem"; "em"; "%"]].

(* /height:\s*(\d+(?:\.\d+)?)(?:px|rem|em|%)?/gi *)
Definition heightRegex : regex :=
  seqs [lit "height:"; ws; Grp 1 number; unit_of ["px"; "rem"; "em"; "%"]].

(* /display:\s*(\w+)/gi *)
Definition displayRegex : regex := seqs [lit "display:"; ws; Grp 1 word].

(* /(?:flex-direction|justify-content|align-items|align-self|flex-wrap|flex-grow|flex-shrink):\s*([^;]+)/gi *)
Definition flexRegex : regex :=
  seqs [alts [lit "flex-direction"; lit "justify-content"; lit "align-items";
              lit "align-self"; lit "flex-wrap"; lit "flex-grow";
              lit "flex-shrink"];
        Lit ":"; ws; Grp 1 until_semicolon].

(* /(?:grid-template-columns|grid-template-rows|grid-column|grid-row|grid-area):\s*([^;]+)/gi *)
Definition gridRegex : regex :=
  seqs [alts [lit "grid-template-columns"; lit "grid-template-rows";
              lit "grid-column"; lit "grid-row"; lit "grid-area"];
        Lit ":"; ws; Grp 1 until_semicolon].

(* /position:\s*(\w+)/gi *)
Definition positionRegex : regex := seqs [lit "position:"; ws; Grp 1 word].

(* /text-transform:\s*(\w+)/gi *)
Definition textTransformRegex : regex :=
  seqs [lit "text-transform:"; ws; Grp 1 word].

(* /text-decoration:\s*([^;]+)/gi *)
Definition textDecorationRegex : regex :=
  seqs [lit "text-decoration:"; ws; Grp 1 until_semicolon].

(* /@media\s+(?:\([^)]+\)|screen|print).*?(?:min-width|max-width):\s*(\d+)(?:px|em|rem)/gi *)
Definition mediaQueryRegex : regex :=
  seqs [lit "@media"; Plus (Cls false [CSpace]);
        alts [seqs [Lit "("; Plus (not_char ")"); Lit ")"]; lit "screen";
              lit "print"];
        Star true Dot;
        alts [lit "min-width"; lit "max-width"]; Lit ":"; ws; Grp 1 digits;
        alts [lit "px"; lit "em"; lit "rem"]].

(* /(?:animation|@keyframes)\s+(\w+)/gi *)
Definition animationRegex : regex :=
  seqs [alts [lit "animation"; lit "@keyframes"]; Plus (Cls false [CSpace]);
        Grp 1 word].

(* /--[\w-]+:\s*([^;]+)/gi *)
Definition cssVarRegex : regex :=
  seqs [lit "--"; Plus (Cls false [CWord; CChar "-"]); Lit ":"; ws;
        Grp 1 until_semicolon].

End Rules.

(** [for (const match of cssText.matchAll(re)) body(match)] *)
Definition for_matches (ci : bool) (re : regex) (cssText : string)
  (body : rmatch_result -> Patterns -> Patterns) (p : Patterns) : Patterns :=
  foldl (fun acc m => body m acc) p (matchAll ci re cssText).

Definition is_quote (c : ascii) : bool :=
  Ascii.eqb c "'" || Ascii.eqb c Js.dquote.

Definition extractPatternsFromCSS (cssText : string) (patterns : Patterns)
  : Patterns :=
  (* colors: cssText.match(colorRegex), each match trimmed *)
  let patterns := for_matches false Rules.colorRegex cssText
    (fun m => add_str colors (Js.trim (whole m))) patterns in
  (* font families: the comma separated names, trimmed, quotes removed *)
  let patterns := for_matches true Rules.fontRegex cssText
    (fun m p =>
       foldl (fun acc font => add_str fonts font acc) p
         (map (fun f => Js.remove_chars is_quote (Js.trim f))
              (Js.split "," (group 1 m)))) patterns in
  let patterns := for_matches true Rules.fontSizeRegex cssText
    (fun m => add_num fontSizes (group 1 m)) patterns in
  let patterns := for_matches true Rules.fontWeightRegex cssText
    (fun m p =>
       let weight := group 1 m in
       if String.eqb weight "normal" then add_num fontWeights "400" p
       else if String.eqb weight "bold" then add_num fontWeights "700" p
       else if negb (Num.isNaN weight) then add_num fontWeights weight p
       else p) patterns in
  let patterns := for_matches true Rules.lineHeightRegex cssText
    (fun m => add_num lineHeights (group 1 m)) patterns in
  let patterns := for_matches true Rules.letterSpacingRegex cssText
    (fun m => add_num letterSpacing (group 1 m)) patterns in
  let patterns := for_matches true Rules.spacingRegex cssText
    (fun m => add_num spacing (group 1 m)) patterns in
  let patterns := for_matches true Rules.borderRadiusRegex cssText
    (fun m => add_num borderRadius (group 1 m)) patterns in
  let patterns := for_matches true Rules.shadowRegex cssText
    (fun m => add_str shadows (Js.trim (group 1 m))) patterns in
  let patterns := for_matches true Rules.borderRegex cssText
    (fun m => add_str borders
       (group 1 m ++ "px " ++ group 2 m ++ " " ++ Js.trim (group 3 m)))
    patterns in
  let patterns := for_matches true Rules.transitionRegex cssText
    (fun m => add_str transitions (Js.trim (group 1 m))) patterns in
  let patterns := for_matches true Rules.transformRegex cssText
    (fun m => add_str transforms (Js.trim (group 1 m))) patterns in
  let patterns := for_matches true Rules.opacityRegex cssText
    (fun m => add_num opacities (group 1 m)) patterns in
  let patterns := for_matches true Rules.gradientRegex cssText
    (fun m => add_str gradients (Js.trim (whole m))) patterns in
  let patterns := for_matches true Rules.zIndexRegex cssText
    (fun m => add_num zIndex (group 1 m)) patterns in
  let patterns := for_matches true Rules.gapRegex cssText
    (fun m => add_num gaps (group 1 m)) patterns in
  let patterns := for_matches true Rules.widthRegex cssText
    (fun m p =>
       if negb (Js.includes (group 1 m) "%") && negb (Js.includes (group 1 m) "vw")
       then add_num widths (group 1 m) p else p) patterns in
  let patterns := for_matches true Rules.heightRegex cssText
    (fun m p =>
       if negb (Js.includes (group 1 m) "%") && negb (Js.includes (group 1 m) "vh")
       then add_num heights (group 1 m) p else p) patterns in
  let patterns := for_matches true Rules.displayRegex cssText
    (fun m => add_str displayTypes (group 1 m)) patterns in
  let patterns := for_matches true Rules.flexRegex cssText
    (fun m => add_str flexProperties (Js.trim (whole m))) patterns in
  let patterns := for_matches true Rules.gridRegex cssText
    (fun m => add_str gridProperties (Js.trim (whole m))) patterns in
  let patterns := for_matches true Rules.positionRegex cssText
    (fun m => add_str positions (group 1 m)) patterns in
  let patterns := for_matches true Rules.textTransformRegex cssText
    (fun m => add_str textTransforms (group 1 m)) patterns in
  let patterns := for_matches true Rules.textDecorationRegex cssText
    (fun m => add_str textDecorations (Js.trim (group 1 m))) patterns in
  let patterns := for_matches true Rules.mediaQueryRegex cssText
    (fun m => add_num breakpoints (group 1 m)) patterns in
  let patterns := for_matches true Rules.animationRegex cssText
    (fun m => add_str animations (group 1 m)) patterns in
  (* custom properties: name is the text of the match before its first colon *)
  for_matches true Rules.cssVarRegex cssText
    (fun m =>
       set_css_variable (Js.trim (hd EmptyString (Js.split ":" (whole m))))
                        (Js.trim (group 1 m))) patterns.

(** ** Component styles *)

(** [new RegExp(`(${escaped selector})[^{]*\\{([^}]+)\\}`, "gi")]: the
    selector text is escaped, so it is matched literally. *)
Definition selectorRegex (selector : string) : regex :=
  seqs [Grp 1 (lit selector); Star false (not_char "{"); Lit "{";
        Grp 2 (Plus (not_char "}")); Lit "}"].

(** [new RegExp(`${prop}:\\s*([^;]+)`, "gi")] *)
Definition propRegex (prop : string) : regex :=
  seqs [lit prop; Lit ":"; ws; Grp 1 (Plus (not_char ";"))].

(** [styles[prop].add(v)], creating the [Set] when it is missing. *)
Definition styles_add (prop v : string) (styles : gmap string (list string))
  : gmap string (list string) :=
  <[prop := Js.set_add v (default [] (styles !! prop))]> styles.

Definition extractSelectorStyles (d : Dom.document) (selector : string)
  (properties : list string) : gmap string (list string) :=
  let cssText :=
    default EmptyString (Dom.html (Dom.select d [Dom.STag "style"])) in
  let styles :=
    foldl (fun styles m =>
             let styleBlock := group 2 m in
             foldl (fun styles prop =>
                      match exec true (propRegex prop) styleBlock with
                      | Some propMatch =>
                          styles_add prop (Js.trim (group 1 propMatch)) styles
                      | None => styles
                      end) styles properties)
          ∅ (matchAll true (selectorRegex selector) cssText) in
  take 5 <$> styles.

Definition button_properties : list string :=
  ["background"; "color"; "padding"; "border-radius"; "font-weight";
   "font-size"; "border"; "box-shadow"; "transition"].
Definition card_properties : list string :=
  ["background"; "border-radius"; "box-shadow"; "padding"; "border"].
Definition input_properties : list string :=
  ["border"; "border-radius"; "padding"; "font-size"; "background"].

Definition button_selector : string := "button, .button, [class*='btn']".
Definition card_selector : string := ".card, [class*='card']".
Definition input_selector : string := "input, .input, [class*='input']".

(** [if (Object.keys(styles).length > 0) patterns.componentStyles[name] = styles] *)
Definition set_component_if_any (name : string)
  (styles : gmap string (list string)) (p : Patterns) : Patterns :=
  if Nat.ltb 0 (size styles) then set_component name styles p else p.

Definition extractComponentStyles (d : Dom.document) (patterns : Patterns)
  : Patterns :=
  let patterns := set_component_if_any "buttons"
    (extractSelectorStyles d button_selector button_properties) patterns in
  let patterns := set_component_if_any "cards"
    (extractSelectorStyles d card_selector card_properties) patterns in
  set_component_if_any "inputs"
    (extractSelectorStyles d input_selector input_properties) patterns.

(** ** The per-document snapshot *)

Record Snapshot : Type := {
  s_num : numeric_category -> list Q;
  s_str : string_category -> list string;
  s_layouts : Layouts;
  s_commonStyles : gmap string (gmap string string);
  s_componentStyles : gmap string (gmap string (list string))
}.

(** The [.slice(0, n)] bounds of the object that
    [extractPaywallPatterns] returns. *)
Definition snapshot_cap_str (c : string_category) : nat :=
  match c with
  | colors => 30 | fonts => 15 | shadows => 15 | borders => 15
  | transitions => 15 | transforms => 10 | gradients => 10
  | displayTypes => 10 | flexProperties => 15 | gridProperties => 10
  | positions => 5 | textTransforms => 5 | textDecorations => 5
  | animations => 10
  end.

Definition snapshot_cap_num (c : numeric_category) : nat :=
  match c with
  | fontSizes => 20 | fontWeights => 10 | lineHeights => 15
  | letterSpacing => 10 | spacing => 25 | borderRadius => 15
  | opacities => 10 | zIndex => 10 | gaps => 15 | widths => 15
  | heights => 15 | breakpoints => 10
  end.

(** The [.filter] of each numeric category, NaN being gone already. *)
Definition snapshot_keep (c : numeric_category) (n : Q) : bool :=
  match c with
  | fontSizes | lineHeights => Num.Qlt_bool 0 n
  | opacities => Qle_bool 0 n && Qle_bool n 1
  | _ => true
  end.

(** [Array.from(set).map(Number).filter(...).sort((a, b) => a - b).slice(0, cap)] *)
Definition numeric_output (c : numeric_category) (set : list string) : list Q :=
  take (snapshot_cap_num c)
    (Num.sort_numbers
       (List.filter (snapshot_keep c) (omap Num.Number set))).

(** [Array.from(set).slice(0, cap)] *)
Definition string_output (c : string_category) (set : list string) : list string :=
  take (snapshot_cap_str c) set.

Definition button_group : Dom.selector :=
  [Dom.STag "button"; Dom.SClass "button"; Dom.SAttrContains "class" "btn"].
Definition card_group : Dom.selector :=
  [Dom.SClass "card"; Dom.SAttrContains "class" "card"].
Definition container_group : Dom.selector :=
  [Dom.SClass "container"; Dom.SAttrContains "class" "container"].
Definition input_group : Dom.selector :=
  [Dom.STag "input"; Dom.SClass "input"; Dom.SAttrContains "class" "input"].
Definition modal_group : Dom.selector :=
  [Dom.SClass "modal"; Dom.SAttrContains "class" "modal";
   Dom.SAttrContains "class" "dialog"].

(** The working sets after the two scans and the component pass. *)
Definition collectPatterns (d : Dom.document) : Patterns :=
  let patterns := empty_patterns in
  (* $("style").each(...) *)
  let patterns :=
    foldl (fun acc elem => extractPatternsFromCSS (Dom.inner_html elem) acc)
          patterns (Dom.select d [Dom.STag "style"]) in
  (* $("[style]").each(...) *)
  let patterns :=
    foldl (fun acc elem =>
             extractPatternsFromCSS
               (default EmptyString (Dom.attr "style" elem)) acc)
          patterns (Dom.select d [Dom.SHasAttr "style"]) in
  extractComponentStyles d patterns.

Definition extractPaywallPatterns (d : Dom.document) : Snapshot :=
  let patterns := collectPatterns d in
  {| s_num := fun c => numeric_output c (num_set patterns c);
     s_str := fun c => string_output c (str_set patterns c);
     s_layouts :=
       {| buttons := List.length (Dom.select d button_group);
          cards := List.length (Dom.select d card_group);
          containers := List.length (Dom.select d container_group);
          inputs := List.length (Dom.select d input_group);
          modals := List.length (Dom.select d modal_group) |};
     s_commonStyles := w_commonStyles patterns;
     s_componentStyles := w_componentStyles patterns |}.

(** A document with one [style] element of the given text. *)
Definition style_doc (css : string) : Dom.document :=
  [Dom.Element "html" []
     [Dom.Element "head" [] [Dom.Element "style" [] [Dom.Text css]];
      Dom.Element "body" [] []]].

(** ** The aggregate profile and [mergePaywallPatterns] *)

(** What [mergeArray] asks of the items of an array: whether
    [typeof item === "number"] (and then which number), the equality of
    [Array.prototype.includes], and truthiness.  The arrays of the
    profile are number arrays or string arrays. *)
Class JsItem (A : Type) : Type := {
  as_number : A -> option Q;
  same_value : A -> A -> bool;
  truthy : A -> bool
}.

#[global] Instance number_item : JsItem Q := {
  as_number := Some;
  same_value := Qeq_bool;
  truthy := fun n => negb (Qeq_bool n 0)
}.

#[global] Instance string_item : JsItem string := {
  as_number := fun _ => None;
  same_value := String.eqb;
  truthy := fun s => negb (String.eqb s EmptyString)
}.

Section MergeArray.
Context {A : Type} `{JsItem A}.

(** A tolerance is used when it is truthy: present and not zero. *)
Definition truthy_tolerance (tolerance : option Q) : option Q :=
  match tolerance with
  | Some t => if Qeq_bool t 0 then None else Some t
  | None => None
  end.

(** [(t) => Math.abs(t - item) < tolerance] *)
Definition within (tolerance item : Q) (t : A) : bool :=
  match as_number t with
  | Some n => Num.Qlt_bool (Qabs (n - item)) tolerance
  | None => false
  end.

(** [!existing] for the result of [target.find(...)], which is the
    element found or [undefined]. *)
Definition not_existing (existing : option A) : bool :=
  match existing with
  | Some e => negb (truthy e)
  | None => true
  end.

(** The body of [source.forEach]. *)
Definition push_item (tolerance : option Q) (target : list A) (item : A)
  : list A :=
  match truthy_tolerance tolerance, as_number item with
  | Some tol, Some n =>
      let existing := List.find (within tol n) target in
      if not_existing existing then target ++ [item] else target
  | _, _ =>
      if negb (existsb (same_value item) target) then target ++ [item]
      else target
  end.

Definition push_all (tolerance : option Q) (target source : list A) : list A :=
  foldl (push_item tolerance) target source.

(** The comparator [(a, b) => a - b]; a NaN difference counts as 0. *)
Definition by_difference (a b : A) : bool :=
  match as_number a, as_number b with
  | Some x, Some y => Qle_bool x y
  | _, _ => true
  end.

(** [mergeArray(target, source, limit, tolerance)].  Both arguments
    are arrays here, so the two [Array.isArray] guards of the source do
    not fire; [typeof target[0] === "number"] is read after the pushes
    and is false on an empty array. *)
Definition mergeArray (target source : list A) (limit : nat)
  (tolerance : option Q) : list A :=
  let target := push_all tolerance target source in
  match target with
  | t0 :: _ =>
      match as_number t0 with
      | Some _ => take limit (Num.sort_by by_difference target)
      | None => take limit target
      end
  | [] => take limit target
  end.
End MergeArray.

Record Profile : Type := {
  p_num : numeric_category -> list Q;
  p_str : string_category -> list string;
  layouts : list Layouts;
  commonStyles : gmap string (gmap string string);
  componentStyles : gmap string (gmap string (list string));
  count : nat
}.

(** The object [paywallPatterns] at process start. *)
Definition initial_profile : Profile :=
  {| p_num := fun _ => [];
     p_str := fun _ => [];
     layouts := [];
     commonStyles := ∅;
     componentStyles := ∅;
     count := 0 |}.

(** The handler of [DELETE /api/paywall-patterns] replaces the profile
    by a fresh object. *)
Definition reset (_ : Profile) : Profile :=
  {| p_num := fun _ => [];
     p_str := fun _ => [];
     layouts := [];
     commonStyles := ∅;
     componentStyles := ∅;
     count := 0 |}.

(** The [limit] and [tolerance] arguments of the calls of [mergeArray]
    in [mergePaywallPatterns]. *)
Definition capacity_str (c : string_category) : nat :=
  match c with
  | colors => 40 | fonts => 20 | shadows => 20 | borders => 20
  | transitions => 20 | transforms => 15 | gradients => 15
  | displayTypes => 12 | flexProperties => 20 | gridProperties => 15
  | positions => 8 | textTransforms => 6 | textDecorations => 8
  | animations => 15
  end.

Definition capacity_num (c : numeric_category) : nat :=
  match c with
  | fontSizes => 25 | fontWeights => 12 | lineHeights => 20
  | letterSpacing => 12 | spacing => 30 | borderRadius => 20
  | opacities => 12 | zIndex => 15 | gaps => 20 | widths => 20
  | heights => 20 | breakpoints => 15
  end.

Definition tolerance_of (c : numeric_category) : Q :=
  match c with
  | fontSizes => 1 | fontWeights => 50 | lineHeights => 5 # 10
  | letterSpacing => 1 # 10 | spacing => 2 | borderRadius => 2
  | opacities => 5 # 100 | zIndex => 10 | gaps => 2 | widths => 10
  | heights => 10 | breakpoints => 20
  end.

(** [Object.assign(target, source)]: the keys of [source] win. *)
Definition object_assign {V} (target source : gmap string V) : gmap string V :=
  source ∪ target.

(** [Object.keys(o)] *)
Definition object_keys {V} (o : gmap string V) : list string :=
  (map_to_list o).*1.

(** The body of [Object.keys(newPatterns.componentStyles).forEach]. *)
Definition merge_component (new : gmap string (gmap string (list string)))
  (acc : gmap string (gmap string (list string))) (component : string)
  : gmap string (gmap string (list string)) :=
  <[component := object_assign (default ∅ (acc !! component))
                               (default ∅ (new !! component))]> acc.

Definition push_layouts (history : list Layouts) (l : Layouts) : list Layouts :=
  let history := history ++ [l] in
  if Nat.ltb 50 (List.length history)
  then drop (List.length history - 50) history
  else history.

Definition mergePaywallPatterns (p : Profile) (newPatterns : Snapshot)
  : Profile :=
  {| count := count p + 1;
     p_num := fun c =>
       mergeArray (p_num p c) (s_num newPatterns c) (capacity_num c)
                  (Some (tolerance_of c));
     p_str := fun c =>
       mergeArray (p_str p c) (s_str newPatterns c) (capacity_str c) None;
     layouts := push_layouts (layouts p) (s_layouts newPatterns);
     commonStyles :=
       object_assign (commonStyles p) (s_commonStyles newPatterns);
     componentStyles :=
       foldl (merge_component (s_componentStyles newPatterns))
             (componentStyles p)
             (object_keys (s_componentStyles newPatterns)) |}.

(** The profile after a sequence of uploads. *)
Definition merge_all (p : Profile) (snapshots : list Snapshot) : Profile :=
  foldl mergePaywallPatterns p snapshots.

(** ** Predicates of the properties and sample documents *)

Definition within_capacity (p : Profile) : Prop :=
  (forall c, List.length (p_num p c) <= capacity_num c)
  /\ (forall c, List.length (p_str p c) <= capacity_str c).

Definition apart (tolerance x y : Q) : Prop :=
  ~ (Qabs (x - y) < tolerance)%Q.

Definition separated (tolerance : Q) (l : list Q) : Prop :=
  StronglySorted (apart tolerance) l.

Definition nonzero (l : list Q) : Prop := Forall (fun x => ~ (x == 0)%Q) l.

(** Sixty documents, each with one colour of its own. *)
Definition nth_color (n : nat) : string :=
  String "#" (String "1" (String (ascii_of_nat (48 + n / 10))
                            (String (ascii_of_nat (48 + n mod 10)) EmptyString))).

Definition sixty_colors : list string := map nth_color (seq 0 60).

Definition sixty_snapshots : list Snapshot :=
  map (fun c => extractPaywallPatterns (style_doc ("p{color:" ++ c ++ "}")))
      sixty_colors.

(** Two [style] elements: a body rule, then the rule of the button
    archetype (or the other way round). *)
Definition two_styles (first second : string) : Dom.document :=
  [Dom.Element "html" []
     [Dom.Element "head" []
        [Dom.Element "style" [] [Dom.Text first];
         Dom.Element "style" [] [Dom.Text second]];
      Dom.Element "body" [] [Dom.Element "button" [] [Dom.Text "Buy"]]]].

Definition body_rule : string := "body{margin:0}".
Definition button_rule : string :=
  "button, .button, [class*='btn'] { background: #00f; padding: 8px }".

(** A style text with [n] different colours. *)
Definition colors_text (n : nat) : string :=
  String.concat " " (map nth_color (seq 0 n)).

(** A page with a button and a card, and no style text at all. *)
Definition unstyled_page : Dom.document :=
  [Dom.Element "html" []
     [Dom.Element "head" [] [Dom.Element "title" [] [Dom.Text "Offer"]];
      Dom.Element "body" []
        [Dom.Element "div" [("class", "card")]
           [Dom.Element "button" [("class", "btn primary")]
              [Dom.Text "Subscribe"]]]]].

(** The values stored for an archetype and a property. *)
Definition stored_styles (cs : gmap string (gmap string (list string)))
  (archetype prop : string) : option (list string) :=
  cs !! archetype ≫= (.!! prop).

(** The union the specification describes: the values of the snapshot
    that are not stored yet are added, and the list is cut to 5. *)
Definition union_capped (stored new : list string) : list string :=
  take 5 (foldl (fun acc v => Js.set_add v acc) stored new).

Definition values_capped (cs : gmap string (gmap string (list string))) : Prop :=
  forall a m prop l,
    cs !! a = Some m -> m !! prop = Some l -> List.length l <= 5.

(** Two uploads whose button rule sets a different colour. *)
Definition red_button : Snapshot :=
  extractPaywallPatterns
    (style_doc "button, .button, [class*='btn'] { color: red; padding: 4px }").
Definition blue_button : Snapshot :=
  extractPaywallPatterns
    (style_doc "button, .button, [class*='btn'] { color: blue }").

(** ** Predicates of the further properties *)

Definition sets_without_duplicates (p : Patterns) : Prop :=
  (forall c, NoDup (num_set p c)) /\ (forall c, NoDup (str_set p c)).

Definition only_css_variables (p : Patterns) : Prop :=
  forall k : string, k <> "cssVariables" -> w_commonStyles p !! k = None.

Definition well_formed_styles (properties : list string)
  (styles : gmap string (list string)) : Prop :=
  forall prop l,
    styles !! prop = Some l -> prop ∈ properties /\ l <> [] /\ NoDup l.

(** The archetypes of a snapshot and the property lists they go with. *)
Definition archetypes : list (string * string * list string) :=
  [("buttons", button_selector, button_properties);
   ("cards", card_selector, card_properties);
   ("inputs", input_selector, input_properties)].

(** ** The upload handlers

    [POST /api/upload-paywall] and [POST /api/upload-paywalls].  A file
    is given by its name and the document its content parses to; the
    handlers are functions from the profile before the request to the
    profile after it and the response.  Neither [extractPaywallPatterns]
    nor [mergePaywallPatterns] can raise in the model, so the [catch]
    branches have no counterpart. *)

(** The [summary] object of the upload responses. *)
Record Summary : Type := {
  sum_colors : nat;
  sum_fonts : nat;
  sum_fontSizes : nat;
  sum_fontWeights : nat;
  sum_spacing : nat;
  sum_borderRadius : nat;
  sum_shadows : nat;
  sum_borders : nat;
  sum_transitions : nat;
  sum_gaps : nat;
  sum_breakpoints : nat
}.

Definition summary_of (p : Profile) : Summary :=
  {| sum_colors := List.length (p_str p colors);
     sum_fonts := List.length (p_str p fonts);
     sum_fontSizes := List.length (p_num p fontSizes);
     sum_fontWeights := List.length (p_num p fontWeights);
     sum_spacing := List.length (p_num p spacing);
     sum_borderRadius := List.length (p_num p borderRadius);
     sum_shadows := List.length (p_str p shadows);
     sum_borders := List.length (p_str p borders);
     sum_transitions := List.length (p_str p transitions);
     sum_gaps := List.length (p_num p gaps);
     sum_breakpoints := List.length (p_num p breakpoints) |}.

Inductive UploadResponse : Type :=
| UploadError (status : nat) (error : string)
| UploadSuccess (message : string) (extractedPatterns : Snapshot)
    (totalPaywallsAnalyzed : nat) (summary : Summary).

Definition upload_paywall (file : option (string * Dom.document)) (p : Profile)
  : Profile * UploadResponse :=
  match file with
  | None => (p, UploadError 400 "No file uploaded")
  | Some (_, d) =>
      let patterns := extractPaywallPatterns d in
      let p := mergePaywallPatterns p patterns in
      (p, UploadSuccess "Paywall analyzed and patterns extracted" patterns
            (count p) (summary_of p))
  end.

(** An entry of [results] in the batch response. *)
Record FileResult : Type := {
  filename : string;
  success : bool;
  patterns : Snapshot
}.

Inductive BatchResponse : Type :=
| BatchError (status : nat) (error : string)
| BatchSuccess (message : string) (results : list FileResult)
    (totalPaywallsAnalyzed : nat) (summary : Summary).

(** The body of [for (const file of req.files)]. *)
Definition upload_one (state : Profile * list FileResult)
  (file : string * Dom.document) : Profile * list FileResult :=
  let patterns := extractPaywallPatterns (snd file) in
  (mergePaywallPatterns (fst state) patterns,
   snd state ++ [{| filename := fst file; success := true;
                    patterns := patterns |}]).

Definition upload_paywalls (files : list (string * Dom.document)) (p : Profile)
  : Profile * BatchResponse :=
  match files with
  | [] => (p, BatchError 400 "No files uploaded")
  | _ :: _ =>
      let state := foldl upload_one (p, []) files in
      let results := snd state in
      (fst state,
       BatchSuccess
         ("Analyzed " ++ pretty (List.length (List.filter success results))
          ++ " of " ++ pretty (List.length results) ++ " paywalls")
         results (count (fst state)) (summary_of (fst state)))
  end.

(** The style texts a document is scanned for: the content of the
    [style] elements, then the [style] attributes. *)
Definition css_texts (d : Dom.document) : list string :=
  map Dom.inner_html (Dom.select d [Dom.STag "style"])
  ++ map (fun elem => default EmptyString (Dom.attr "style" elem))
         (Dom.select d [Dom.SHasAttr "style"]).

(** A document whose only style text is an inline style. *)
Definition inline_doc (css : string) : Dom.document :=
  [Dom.Element "html" []
     [Dom.Element "head" [] [];
      Dom.Element "body" [] [Dom.Element "div" [("style", css)] []]]].

(** Three uploads with paddings of 10, 11 and 20 pixels. *)
Definition padding_snapshots : list Snapshot :=
  map (fun css => extractPaywallPatterns (style_doc css))
      ["p{padding:10px}"; "p{padding:11px}"; "p{padding:20px}"].

(** The working sets after the scan of a sequence of style texts. *)
Definition scan_texts (texts : list string) : Patterns :=
  foldl (fun acc css => extractPatternsFromCSS css acc) empty_patterns texts.

(** ** Figma nodes

    The helpers of [server.js] that walk the node tree of a Figma file:
    [extractNodeDimensions], [findNodeById], [findTopLevelNode],
    [identifySections] and [findImageNodes].  A node is the JSON object
    of the Figma API; a field that an object may lack is an [option]. *)

Module Figma.

Record BoundingBox : Type := {
  bb_x : option Q;
  bb_y : option Q;
  bb_width : option Q;
  bb_height : option Q
}.

Record Color : Type := {
  col_r : option Q;
  col_g : option Q;
  col_b : option Q;
  col_a : option Q
}.

(** A paint of [fills] or [strokes]. *)
Record Fill : Type := {
  fill_type : string;
  fill_color : option Color;
  fill_imageRef : option string
}.

(** The [style] of a text node. *)
Record TypeStyle : Type := {
  ts_fontFamily : option string;
  ts_fontSize : option Q;
  ts_fontWeight : option Q;
  ts_lineHeightPx : option Q
}.

Record Effect : Type := {
  eff_type : string;
  eff_radius : option Q
}.

#[local] Unset Elimination Schemes.
Inductive Node : Type :=
| MkNode (id name type : option string)
    (absoluteBoundingBox : option BoundingBox)
    (x y width height : option Q)
    (fills : option (list Fill))
    (style : option TypeStyle)
    (characters : option string)
    (cornerRadius : option Q)
    (strokes : option (list Fill))
    (strokeWeight : option Q)
    (effects : option (list Effect))
    (children : option (list Node)).
#[local] Set Elimination Schemes.

Definition id (n : Node) : option string :=
  match n with MkNode i _ _ _ _ _ _ _ _ _ _ _ _ _ _ _ => i end.
Definition name (n : Node) : option string :=
  match n with MkNode _ a _ _ _ _ _ _ _ _ _ _ _ _ _ _ => a end.
Definition type (n : Node) : option string :=
  match n with MkNode _ _ t _ _ _ _ _ _ _ _ _ _ _ _ _ => t end.
Definition absoluteBoundingBox (n : Node) : option BoundingBox :=
  match n with MkNode _ _ _ b _ _ _ _ _ _ _ _ _ _ _ _ => b end.
Definition x (n : Node) : option Q :=
  match n with MkNode _ _ _ _ v _ _ _ _ _ _ _ _ _ _ _ => v end.
Definition y (n : Node) : option Q :=
  match n with MkNode _ _ _ _ _ v _ _ _ _ _ _ _ _ _ _ => v end.
Definition width (n : Node) : option Q :=
  match n with MkNode _ _ _ _ _ _ v _ _ _ _ _ _ _ _ _ => v end.
Definition height (n : Node) : option Q :=
  match n with MkNode _ _ _ _ _ _ _ v _ _ _ _ _ _ _ _ => v end.
Definition fills (n : Node) : option (list Fill) :=
  match n with MkNode _ _ _ _ _ _ _ _ f _ _ _ _ _ _ _ => f end.
Definition style (n : Node) : option TypeStyle :=
  match n with MkNode _ _ _ _ _ _ _ _ _ v _ _ _ _ _ _ => v end.
Definition characters (n : Node) : option string :=
  match n with MkNode _ _ _ _ _ _ _ _ _ _ v _ _ _ _ _ => v end.
Definition cornerRadius (n : Node) : option Q :=
  match n with MkNode _ _ _ _ _ _ _ _ _ _ _ v _ _ _ _ => v end.
Definition strokes (n : Node) : option (list Fill) :=
  match n with MkNode _ _ _ _ _ _ _ _ _ _ _ _ v _ _ _ => v end.
Definition strokeWeight (n : Node) : option Q :=
  match n with MkNode _ _ _ _ _ _ _ _ _ _ _ _ _ v _ _ => v end.
Definition effects (n : Node) : option (list Effect) :=
  match n with MkNode _ _ _ _ _ _ _ _ _ _ _ _ _ _ v _ => v end.
Definition children (n : Node) : option (list Node) :=
  match n with MkNode _ _ _ _ _ _ _ _ _ _ _ _ _ _ _ c => c end.

(** [v || d] for an optional number: 0 and a missing field are falsy. *)
Definition number_or (v : option Q) (d : Q) : Q :=
  match v with
  | Some q => if Qeq_bool q 0 then d else q
  | None => d
  end.

Definition truthy_number (v : option Q) : bool :=
  match v with
  | Some q => negb (Qeq_bool q 0)
  | None => false
  end.

(** [s || d] for an optional string: the empty string is falsy. *)
Definition string_or (v : option string) (d : string) : string :=
  match v with
  | Some s => if String.eqb s EmptyString then d else s
  | None => d
  end.

Definition truthy_string (v : option string) : bool :=
  match v with
  | Some s => negb (String.eqb s EmptyString)
  | None => false
  end.

(** [node.type === t] *)
Definition type_is (n : Node) (t : string) : bool :=
  match type n with
  | Some s => String.eqb s t
  | None => false
  end.

(** [Math.round]: the nearest integer, halves upwards. *)
Definition round (q : Q) : Z := Qfloor (q + (1 # 2)).

(** [s.toLowerCase()] on Latin-1. *)
Definition lower_char (c : ascii) : ascii :=
  let n := Js.code c in
  if (Nat.leb 65 n && Nat.leb n 90)
     || (Nat.leb 192 n && Nat.leb n 222 && negb (Nat.eqb n 215))
  then ascii_of_nat (n + 32) else c.

Definition toLowerCase (s : string) : string :=
  Js.str (map lower_char (Js.chars s)).

Record Dimensions : Type := { dim_width : Z; dim_height : Z }.

Definition extractNodeDimensions (node : Node) : Dimensions :=
  let width0 :=
    match absoluteBoundingBox node with
    | Some box => round (number_or (bb_width box) 0)
    | None => 0%Z
    end in
  let height0 :=
    match absoluteBoundingBox node with
    | Some box => round (number_or (bb_height box) 0)
    | None => 0%Z
    end in
  let width1 :=
    if Z.eqb width0 0 && truthy_number (width node)
    then round (default 0%Q (width node)) else width0 in
  let height1 :=
    if Z.eqb height0 0 && truthy_number (height node)
    then round (default 0%Q (height node)) else height0 in
  {| dim_width := width1; dim_height := height1 |}.

(** [node.id === targetId] *)
Definition has_id (targetId : string) (n : Node) : bool :=
  match id n with
  | Some i => String.eqb i targetId
  | None => false
  end.

(** [findNodeById(node, targetId)] on a node that is not [null]; the
    block on path-like identifiers in the source has no effect. *)
Fixpoint findNodeById (node : Node) (targetId : string) : option Node :=
  if has_id targetId node then Some node
  else
    match node with
    | MkNode _ _ _ _ _ _ _ _ _ _ _ _ _ _ _ (Some cs) =>
        (fix search_children (l : list Node) : option Node :=
           match l with
           | [] => None
           | child :: l' =>
               match findNodeById child targetId with
               | Some found => Some found
               | None => search_children l'
               end
           end) cs
    | MkNode _ _ _ _ _ _ _ _ _ _ _ _ _ _ _ None => None
    end.

(** [findTopLevelNode(figmaData)], given [figmaData.document]. *)
Definition findTopLevelNode (document : Node) : option Node :=
  match children document with
  | Some (firstPage :: _) =>
      match children firstPage with
      | Some (first :: rest) =>
          match List.find
                  (fun child => type_is child "FRAME"
                                || type_is child "COMPONENT")
                  (first :: rest) with
          | Some frame => Some frame
          | None => Some first
          end
      | _ => None
      end
  | _ => None
  end.

(** [child.type === "FRAME" || child.type === "COMPONENT"] *)
Definition frame_like (n : Node) : bool :=
  type_is n "FRAME" || type_is n "COMPONENT".

(** An entry of the list [identifySections] fills. *)
Record Section : Type := {
  sec_name : string;
  sec_id : option string;
  sec_type : option string;
  sec_x : Q;
  sec_y : Q;
  sec_width : Q;
  sec_height : Q;
  sec_depth : nat
}.

Definition section_words : list string :=
  ["header"; "hero"; "pricing"; "plan"; "card"; "button"; "footer";
   "feature"; "cta"].

Definition isSection (n : Node) : bool :=
  type_is n "FRAME" || type_is n "COMPONENT" || type_is n "GROUP".

Definition isMajorSection (n : Node) : bool :=
  let nodeName := toLowerCase (string_or (name n) EmptyString) in
  existsb (Js.includes nodeName) section_words
  || match children n with
     | Some cs => Nat.ltb 3 (List.length cs)
     | None => false
     end.

Definition section_of (n : Node) (depth : nat) (sections : list Section)
  : Section :=
  {| sec_name := string_or (name n) ("section-" ++ pretty (List.length sections));
     sec_id := id n;
     sec_type := type n;
     sec_x := number_or (x n) 0;
     sec_y := number_or (y n) 0;
     sec_width := number_or (width n) 0;
     sec_height := number_or (height n) 0;
     sec_depth := depth |}.

(** The push of [identifySections] for the node itself. *)
Definition push_section (n : Node) (depth : nat) (sections : list Section)
  : list Section :=
  if isSection n && Nat.leb 1 depth && isMajorSection n
  then sections ++ [section_of n depth sections]
  else sections.

(** [identifySections(node, depth, sections)]: the array [sections] is
    shared by all calls, so it is threaded through them. *)
Fixpoint identifySections (node : Node) (depth : nat) (sections : list Section)
  : list Section :=
  if Nat.ltb 6 depth then sections
  else
    let sections := push_section node depth sections in
    match node with
    | MkNode _ _ _ _ _ _ _ _ _ _ _ _ _ _ _ (Some cs) =>
        if Nat.ltb depth 5 then
          (fix visit (l : list Node) (sections : list Section) : list Section :=
             match l with
             | [] => sections
             | child :: l' =>
                 visit l' (identifySections child (depth + 1) sections)
             end) cs sections
        else sections
    | MkNode _ _ _ _ _ _ _ _ _ _ _ _ _ _ _ None => sections
    end.

Definition status_bar_words : list string :=
  ["status"; "statusbar"; "status-bar"; "time"; "clock"; "wifi"; "signal";
   "battery"; "carrier"; "notch"; "safe area"; "safearea"; "home indicator";
   "homeindicator"; "home bar"; "homebar"; "home button"; "homebutton";
   "gesture bar"; "gesturebar"].

Definition isStatusBarElement (n : Node) : bool :=
  let nodeName := toLowerCase (string_or (name n) EmptyString) in
  existsb (Js.includes nodeName) status_bar_words
  || (Js.includes nodeName "indicator"
      && (Js.includes nodeName "home" || Js.includes nodeName "bottom")).

Definition image_types : list string :=
  ["VECTOR"; "COMPONENT"; "INSTANCE"; "ELLIPSE"; "RECTANGLE"].

Definition image_words : list string :=
  ["icon"; "image"; "logo"; "avatar"; "illustration"; "graphic"].

Definition isImageNode (n : Node) : bool :=
  let nodeName := toLowerCase (string_or (name n) EmptyString) in
  existsb (type_is n) image_types
  || match fills n with
     | Some fs => existsb (fun fill => String.eqb (fill_type fill) "IMAGE") fs
     | None => false
     end
  || existsb (Js.includes nodeName) image_words.

(** An entry of the result of [findImageNodes]. *)
Record ImageNode : Type := {
  img_id : option string;
  img_name : string;
  img_type : option string;
  img_width : Z;
  img_height : Z;
  img_x : Q;
  img_y : Q
}.

Definition image_of (n : Node) : ImageNode :=
  let dims := extractNodeDimensions n in
  {| img_id := id n;
     img_name := string_or (name n) "Unknown";
     img_type := type n;
     img_width := dim_width dims;
     img_height := dim_height dims;
     img_x := number_or (absoluteBoundingBox n ≫= bb_x) (number_or (x n) 0);
     img_y := number_or (absoluteBoundingBox n ≫= bb_y) (number_or (y n) 0) |}.

(** [findImageNodes(figmaNode, maxNodes, depth)] *)
Fixpoint findImageNodes (figmaNode : Node) (maxNodes : Z) (depth : nat)
  : list ImageNode :=
  if Nat.ltb 8 depth then []
  else if isStatusBarElement figmaNode then []
  else
    let imageNodes :=
      if isImageNode figmaNode && truthy_string (id figmaNode)
      then [image_of figmaNode] else [] in
    match figmaNode with
    | MkNode _ _ _ _ _ _ _ _ _ _ _ _ _ _ _ (Some cs) =>
        if Z.ltb (Z.of_nat (List.length imageNodes)) maxNodes && Nat.ltb depth 8
        then
          (fix visit (l : list Node) (imageNodes : list ImageNode)
             : list ImageNode :=
             match l with
             | [] => imageNodes
             | child :: l' =>
                 let imageNodes :=
                   imageNodes
                   ++ findImageNodes child
                        (maxNodes - Z.of_nat (List.length imageNodes))
                        (depth + 1) in
                 if Z.leb maxNodes (Z.of_nat (List.length imageNodes))
                 then imageNodes else visit l' imageNodes
             end) cs imageNodes
        else imageNodes
    | MkNode _ _ _ _ _ _ _ _ _ _ _ _ _ _ _ None => imageNodes
    end.

(** The nodes of a tree, parents before children. *)
Fixpoint preorder (n : Node) : list Node :=
  n :: match n with
       | MkNode _ _ _ _ _ _ _ _ _ _ _ _ _ _ _ (Some cs) => flat_map preorder cs
       | MkNode _ _ _ _ _ _ _ _ _ _ _ _ _ _ _ None => []
       end.

(** The nodes that are neither status-bar elements nor inside one. *)
Fixpoint visible (n : Node) : list Node :=
  if isStatusBarElement n then []
  else n :: match n with
            | MkNode _ _ _ _ _ _ _ _ _ _ _ _ _ _ _ (Some cs) => flat_map visible cs
            | MkNode _ _ _ _ _ _ _ _ _ _ _ _ _ _ _ None => []
            end.

(** What every section that [identifySections] adds satisfies, for
    bounds [lo] and [hi] on its depth. *)
Definition section_within (lo hi : nat) (s : Section) : Prop :=
  sec_type s ∈ [Some "FRAME"; Some "COMPONENT"; Some "GROUP"]
  /\ lo <= sec_depth s <= hi
  /\ sec_name s <> EmptyString.

(** What every entry of [findImageNodes] is: the record of an image
    node with an identifier, taken from the visible part of the tree. *)
Definition image_from (root : Node) (e : ImageNode) : Prop :=
  exists n, n ∈ visible root /\ e = image_of n /\ isImageNode n = true
            /\ truthy_string (id n) = true.

(** ** Dimensions of the paywall

    The block of [POST /api/generate-paywall] that fills
    [paywallDimensions] from the target node and the document, and the
    [containerWidth] computed from it. *)

Record PaywallDimensions : Type := {
  pd_width : Z;
  pd_height : Z;
  pd_isMobile : bool
}.

(** One round of the loops that look for the largest node: the pair is
    [largestChild] (or [largestFrame]) and [largestArea]. *)
Definition larger (best : option Node * Z) (child : Node) : option Node * Z :=
  let dims := extractNodeDimensions child in
  let area := (dim_width dims * dim_height dims)%Z in
  if Z.ltb (snd best) area && Z.ltb 0 (dim_width dims)
     && Z.ltb 0 (dim_height dims)
  then (Some child, area) else best.

Definition largestChild (l : list Node) : option Node :=
  fst (foldl larger (None, 0%Z) l).

Definition frame_types : list string := ["FRAME"; "COMPONENT"; "INSTANCE"].

Definition larger_frame (best : option Node * Z) (frame : Node)
  : option Node * Z :=
  if existsb (type_is frame) frame_types then larger best frame else best.

Definition largestFrame (l : list Node) : option Node :=
  fst (foldl larger_frame (None, 0%Z) l).

(** [width === 0 || height === 0] *)
Definition incomplete (wh : Z * Z) : bool :=
  Z.eqb (fst wh) 0 || Z.eqb (snd wh) 0.

(** The two assignments that take from [n] what is still missing. *)
Definition complete (wh : Z * Z) (n : Node) : Z * Z :=
  let dims := extractNodeDimensions n in
  (if Z.eqb (fst wh) 0 && Z.ltb 0 (dim_width dims)
   then dim_width dims else fst wh,
   if Z.eqb (snd wh) 0 && Z.ltb 0 (dim_height dims)
   then dim_height dims else snd wh).

(** Strategy 1: the target node itself. *)
Definition strategy1 (targetNode : option Node) : Z * Z :=
  match targetNode with
  | Some t =>
      let dims := extractNodeDimensions t in
      if Z.ltb 0 (dim_width dims) && Z.ltb 0 (dim_height dims)
      then (dim_width dims, dim_height dims) else (0%Z, 0%Z)
  | None => (0%Z, 0%Z)
  end.

(** Strategy 2: the largest child of the target node. *)
Definition strategy2 (targetNode : option Node) (wh : Z * Z) : Z * Z :=
  if incomplete wh then
    match targetNode ≫= children with
    | Some (c :: cs) =>
        match largestChild (c :: cs) with
        | Some n => complete wh n
        | None => wh
        end
    | _ => wh
    end
  else wh.

(** Strategy 3: the largest frame of the first page. *)
Definition strategy3 (document : option Node) (wh : Z * Z) : Z * Z :=
  if incomplete wh then
    match document ≫= children with
    | Some (firstPage :: _) =>
        match children firstPage with
        | Some (c :: cs) =>
            match largestFrame (c :: cs) with
            | Some n => complete wh n
            | None => wh
            end
        | _ => wh
        end
    | _ => wh
    end
  else wh.

Definition paywallDimensions (targetNode document : option Node)
  : PaywallDimensions :=
  let wh := strategy3 document (strategy2 targetNode (strategy1 targetNode)) in
  {| pd_width := fst wh;
     pd_height := snd wh;
     pd_isMobile :=
       if Z.ltb 0 (fst wh) then
         let isPortrait := Z.ltb (fst wh) (snd wh) in
         Z.ltb (fst wh) 600 || (isPortrait && Z.ltb (fst wh) 800)
       else false |}.

Definition containerWidth (pd : PaywallDimensions) : Z :=
  if Z.ltb 0 (pd_width pd) then pd_width pd
  else if pd_isMobile pd then 375%Z else 1200%Z.

(** The nodes whose dimensions the three strategies may take. *)
Definition candidate (targetNode document : option Node) (n : Node) : Prop :=
  targetNode = Some n
  \/ (exists t cs, targetNode = Some t /\ children t = Some cs /\ n ∈ cs)
  \/ (exists d page pages kids,
         document = Some d /\ children d = Some (page :: pages)
         /\ children page = Some kids /\ n ∈ kids
         /\ existsb (type_is n) frame_types = true).

(** [n] has a usable width and height. *)
Definition measurable (n : Node) : Prop :=
  (0 < dim_width (extractNodeDimensions n))%Z
  /\ (0 < dim_height (extractNodeDimensions n))%Z.

Definition area (n : Node) : Z :=
  (dim_width (extractNodeDimensions n)
   * dim_height (extractNodeDimensions n))%Z.

(** ** Design tokens of a Figma node

    [extractDesignTokens(node)]: the closure [traverse] fills [tokens]
    and counts the recorded nodes in [nodeCount]; both are threaded
    through the calls.  Its parameter [parentInfo] is never read. *)

Record FontInfo : Type := {
  font_f : option string;
  font_s : Z;
  font_w : Q;
  font_lh : option Z
}.

(** The entry of [tokens.nodes] for a node; [img] is set or absent. *)
Record NodeInfo : Type := {
  ni_n : option string;
  ni_t : option string;
  ni_x : Z;
  ni_y : Z;
  ni_w : Z;
  ni_h : Z;
  ni_bg : option string;
  ni_img : bool;
  ni_font : option FontInfo;
  ni_txt : option string;
  ni_br : option Z;
  ni_border : option string;
  ni_shadow : option Q
}.

Record Tokens : Type := {
  tok_colors : list string;
  tok_fonts : list FontInfo;
  tok_spacing : list Q;
  tok_borderRadius : list Z;
  tok_nodes : list NodeInfo
}.

Definition empty_tokens : Tokens :=
  {| tok_colors := []; tok_fonts := []; tok_spacing := [];
     tok_borderRadius := []; tok_nodes := [] |}.

Definition MAX_NODES : nat := 30.

(** [nodeInfo.bg = color] and the other assignments to [nodeInfo]. *)
Definition set_bg (color : string) (i : NodeInfo) : NodeInfo :=
  {| ni_n := ni_n i; ni_t := ni_t i; ni_x := ni_x i; ni_y := ni_y i;
     ni_w := ni_w i; ni_h := ni_h i; ni_bg := Some color; ni_img := ni_img i;
     ni_font := ni_font i; ni_txt := ni_txt i; ni_br := ni_br i;
     ni_border := ni_border i; ni_shadow := ni_shadow i |}.

Definition set_img (i : NodeInfo) : NodeInfo :=
  {| ni_n := ni_n i; ni_t := ni_t i; ni_x := ni_x i; ni_y := ni_y i;
     ni_w := ni_w i; ni_h := ni_h i; ni_bg := ni_bg i; ni_img := true;
     ni_font := ni_font i; ni_txt := ni_txt i; ni_br := ni_br i;
     ni_border := ni_border i; ni_shadow := ni_shadow i |}.

Definition set_font (fontInfo : FontInfo) (i : NodeInfo) : NodeInfo :=
  {| ni_n := ni_n i; ni_t := ni_t i; ni_x := ni_x i; ni_y := ni_y i;
     ni_w := ni_w i; ni_h := ni_h i; ni_bg := ni_bg i; ni_img := ni_img i;
     ni_font := Some fontInfo; ni_txt := ni_txt i; ni_br := ni_br i;
     ni_border := ni_border i; ni_shadow := ni_shadow i |}.

Definition set_txt (txt : string) (i : NodeInfo) : NodeInfo :=
  {| ni_n := ni_n i; ni_t := ni_t i; ni_x := ni_x i; ni_y := ni_y i;
     ni_w := ni_w i; ni_h := ni_h i; ni_bg := ni_bg i; ni_img := ni_img i;
     ni_font := ni_font i; ni_txt := Some txt; ni_br := ni_br i;
     ni_border := ni_border i; ni_shadow := ni_shadow i |}.

Definition set_br (br : Z) (i : NodeInfo) : NodeInfo :=
  {| ni_n := ni_n i; ni_t := ni_t i; ni_x := ni_x i; ni_y := ni_y i;
     ni_w := ni_w i; ni_h := ni_h i; ni_bg := ni_bg i; ni_img := ni_img i;
     ni_font := ni_font i; ni_txt := ni_txt i; ni_br := Some br;
     ni_border := ni_border i; ni_shadow := ni_shadow i |}.

Definition set_border (border : string) (i : NodeInfo) : NodeInfo :=
  {| ni_n := ni_n i; ni_t := ni_t i; ni_x := ni_x i; ni_y := ni_y i;
     ni_w := ni_w i; ni_h := ni_h i; ni_bg := ni_bg i; ni_img := ni_img i;
     ni_font := ni_font i; ni_txt := ni_txt i; ni_br := ni_br i;
     ni_border := Some border; ni_shadow := ni_shadow i |}.

Definition set_shadow (radius : Q) (i : NodeInfo) : NodeInfo :=
  {| ni_n := ni_n i; ni_t := ni_t i; ni_x := ni_x i; ni_y := ni_y i;
     ni_w := ni_w i; ni_h := ni_h i; ni_bg := ni_bg i; ni_img := ni_img i;
     ni_font := ni_font i; ni_txt := ni_txt i; ni_br := ni_br i;
     ni_border := ni_border i; ni_shadow := Some radius |}.

(** [if (!tokens.colors.includes(color)) tokens.colors.push(color)] *)
Definition add_color (color : string) (t : Tokens) : Tokens :=
  {| tok_colors := if existsb (String.eqb color) (tok_colors t)
                   then tok_colors t else tok_colors t ++ [color];
     tok_fonts := tok_fonts t; tok_spacing := tok_spacing t;
     tok_borderRadius := tok_borderRadius t; tok_nodes := tok_nodes t |}.

(** [f.f === fontInfo.f && f.s === fontInfo.s && f.w === fontInfo.w] *)
Definition same_font (fontInfo f : FontInfo) : bool :=
  bool_decide (font_f f = font_f fontInfo)
  && Z.eqb (font_s f) (font_s fontInfo)
  && Qeq_bool (font_w f) (font_w fontInfo).

Definition add_font (fontInfo : FontInfo) (t : Tokens) : Tokens :=
  {| tok_colors := tok_colors t;
     tok_fonts := if existsb (same_font fontInfo) (tok_fonts t)
                  then tok_fonts t else tok_fonts t ++ [fontInfo];
     tok_spacing := tok_spacing t;
     tok_borderRadius := tok_borderRadius t; tok_nodes := tok_nodes t |}.

Definition add_radius (br : Z) (t : Tokens) : Tokens :=
  {| tok_colors := tok_colors t; tok_fonts := tok_fonts t;
     tok_spacing := tok_spacing t;
     tok_borderRadius := if existsb (Z.eqb br) (tok_borderRadius t)
                         then tok_borderRadius t
                         else tok_borderRadius t ++ [br];
     tok_nodes := tok_nodes t |}.

Definition push_node (nodeInfo : NodeInfo) (t : Tokens) : Tokens :=
  {| tok_colors := tok_colors t; tok_fonts := tok_fonts t;
     tok_spacing := tok_spacing t; tok_borderRadius := tok_borderRadius t;
     tok_nodes := tok_nodes t ++ [nodeInfo] |}.

(** [paint.type === "SOLID" && paint.color] *)
Definition solid_color (paint : Fill) : option Color :=
  if String.eqb (fill_type paint) "SOLID" then fill_color paint else None.

Definition fontInfo_of (st : TypeStyle) : FontInfo :=
  {| font_f := ts_fontFamily st;
     font_s := round (number_or (ts_fontSize st) 16);
     font_w := number_or (ts_fontWeight st) 400;
     font_lh :=
       if truthy_number (ts_lineHeightPx st)
       then round <$> ts_lineHeightPx st
       else (fun q => round (q * (12 # 10))) <$> ts_fontSize st |}.

(** [e.type === "DROP_SHADOW" || e.type === "INNER_SHADOW"] *)
Definition is_shadow (e : Effect) : bool :=
  String.eqb (eff_type e) "DROP_SHADOW"
  || String.eqb (eff_type e) "INNER_SHADOW".

Definition important_types : list string := ["VECTOR"; "COMPONENT"; "INSTANCE"].

Definition important_words : list string := ["icon"; "image"; "button"].

Definition isImportant (n : Node) (nodeInfo : NodeInfo) (depth : nat) : bool :=
  existsb (type_is n) important_types
  || ni_img nodeInfo
  || match name n with
     | Some s => existsb (Js.includes (toLowerCase s)) important_words
     | None => false
     end
  || type_is n "TEXT"
  || (type_is n "FRAME" && Nat.ltb depth 3).

Section DesignTokens.

(** [String(v)] for a number that is not NaN: how JavaScript prints a
    number is left open. *)
Variable toString : Q -> string.

(** [Math.round(v * 255)] of a channel, printed; a missing channel
    gives NaN. *)
Definition channel (v : option Q) : string :=
  match v with
  | Some q => toString (inject_Z (round (q * 255)))
  | None => "NaN"
  end.

(** The text [rgba(r,g,b,a)] of a colour; [a] defaults to 1. *)
Definition rgba (c : Color) : string :=
  "rgba(" ++ channel (col_r c) ++ "," ++ channel (col_g c) ++ ","
  ++ channel (col_b c) ++ "," ++ toString (default 1%Q (col_a c)) ++ ")".

(** One round of [n.fills.forEach]. *)
Definition visit_fill (acc : Tokens * NodeInfo) (fill : Fill)
  : Tokens * NodeInfo :=
  match solid_color fill with
  | Some c =>
      let color := rgba c in
      (add_color color (fst acc), set_bg color (snd acc))
  | None =>
      if String.eqb (fill_type fill) "IMAGE"
         && truthy_string (fill_imageRef fill)
      then (fst acc, set_img (snd acc)) else acc
  end.

Definition visit_fills (n : Node) (acc : Tokens * NodeInfo)
  : Tokens * NodeInfo :=
  match fills n with
  | Some fs => foldl visit_fill acc fs
  | None => acc
  end.

Definition visit_text (n : Node) (acc : Tokens * NodeInfo)
  : Tokens * NodeInfo :=
  match style n with
  | Some st =>
      if type_is n "TEXT" then
        let fontInfo := fontInfo_of st in
        let nodeInfo := set_font fontInfo (snd acc) in
        (add_font fontInfo (fst acc),
         if truthy_string (characters n)
         then set_txt (String.substring 0 100
                         (default EmptyString (characters n))) nodeInfo
         else nodeInfo)
      else acc
  | None => acc
  end.

Definition visit_radius (n : Node) (acc : Tokens * NodeInfo)
  : Tokens * NodeInfo :=
  match cornerRadius n with
  | Some q =>
      if Num.Qlt_bool 0 q then
        let br := round q in
        (add_radius br (fst acc), set_br br (snd acc))
      else acc
  | None => acc
  end.

Definition visit_strokes (n : Node) (nodeInfo : NodeInfo) : NodeInfo :=
  match strokes n with
  | Some (stroke :: _) =>
      if truthy_number (strokeWeight n) then
        match solid_color stroke with
        | Some c =>
            set_border
              (toString (inject_Z (round (default 0%Q (strokeWeight n))))
               ++ "px " ++ rgba c) nodeInfo
        | None => nodeInfo
        end
      else nodeInfo
  | _ => nodeInfo
  end.

Definition visit_effects (n : Node) (nodeInfo : NodeInfo) : NodeInfo :=
  match effects n with
  | Some es =>
      match List.filter is_shadow es with
      | e :: _ => set_shadow (number_or (eff_radius e) 0) nodeInfo
      | [] => nodeInfo
      end
  | None => nodeInfo
  end.

(** The part of [traverse] that reads the node itself: the tokens it
    adds and the [nodeInfo] it builds. *)
Definition describe (n : Node) (tokens : Tokens) : Tokens * NodeInfo :=
  let nodeInfo :=
    {| ni_n := name n; ni_t := type n;
       ni_x := round (number_or (x n) 0);
       ni_y := round (number_or (y n) 0);
       ni_w := round (number_or (width n) 0);
       ni_h := round (number_or (height n) 0);
       ni_bg := None; ni_img := false; ni_font := None; ni_txt := None;
       ni_br := None; ni_border := None; ni_shadow := None |} in
  let acc := visit_fills n (tokens, nodeInfo) in
  let acc := visit_text n acc in
  let acc := visit_radius n acc in
  (fst acc, visit_effects n (visit_strokes n (snd acc))).

(** The state of [traverse] is [tokens] and [nodeCount].  This is what
    it does for the node itself: a status-bar element leaves its tokens
    but no entry in [tokens.nodes]. *)
Definition record_node (n : Node) (depth : nat) (st : Tokens * nat)
  : Tokens * nat :=
  let acc := describe n (fst st) in
  if isStatusBarElement n then (fst acc, snd st)
  else if isImportant n (snd acc) depth && Nat.ltb (snd st) MAX_NODES
  then (push_node (snd acc) (fst acc), S (snd st))
  else (fst acc, snd st).

(** Both branches of the test on status-bar elements end with the same
    walk over the children. *)
Fixpoint traverse (n : Node) (depth : nat) (st : Tokens * nat)
  : Tokens * nat :=
  if Nat.ltb 10 depth then st
  else if Nat.leb MAX_NODES (snd st) then st
  else
    let st := record_node n depth st in
    match n with
    | MkNode _ _ _ _ _ _ _ _ _ _ _ _ _ _ _ (Some cs) =>
        if Nat.ltb depth 8 then
          (fix visit (l : list Node) (st : Tokens * nat) : Tokens * nat :=
             match l with
             | [] => st
             | child :: l' => visit l' (traverse child (depth + 1) st)
             end) cs st
        else st
    | MkNode _ _ _ _ _ _ _ _ _ _ _ _ _ _ _ None => st
    end.

Definition extractDesignTokens (node : Node) : Tokens :=
  fst (traverse node 0 (empty_tokens, 0)).

(** The [nodeInfo] of a node. *)
Definition nodeInfo_of (n : Node) : NodeInfo := snd (describe n empty_tokens).

(** The colours of the solid paints of a node. *)
Definition solid_colors (n : Node) : list string :=
  map rgba (omap solid_color (default [] (fills n))).

End DesignTokens.

(** The nodes at most [k] levels below [n], parents before children. *)
Fixpoint reach (n : Node) (k : nat) : list Node :=
  n :: match k, n with
       | S k', MkNode _ _ _ _ _ _ _ _ _ _ _ _ _ _ _ (Some cs) =>
           flat_map (fun c => reach c k') cs
       | _, _ => []
       end.

(** No two entries of [tokens.fonts] are the same font for the test of
    [traverse]. *)
Definition fonts_differ (l : list FontInfo) : Prop :=
  forall (i j : nat) (f g : FontInfo),
    i <> j -> l !! i = Some f -> l !! j = Some g -> same_font f g = false.

(** What holds of the token lists at every point of the walk. *)
Definition tidy (t : Tokens) : Prop :=
  NoDup (tok_colors t) /\ NoDup (tok_borderRadius t)
  /\ fonts_differ (tok_fonts t)
  /\ Forall (fun br => (0 <= br)%Z) (tok_borderRadius t)
  /\ tok_spacing t = [].

(** The token lists of [t'] extend those of [t]. *)
Definition extends (t t' : Tokens) : Prop :=
  tok_colors t `prefix_of` tok_colors t'
  /\ tok_fonts t `prefix_of` tok_fonts t'
  /\ tok_borderRadius t `prefix_of` tok_borderRadius t'
  /\ (tidy t -> tidy t').

(** A later state of the walk. *)
Definition later (st st' : Tokens * nat) : Prop :=
  extends (fst st) (fst st')
  /\ snd st <= snd st'
  /\ (snd st <= MAX_NODES -> snd st' <= MAX_NODES)
  /\ (snd st = List.length (tok_nodes (fst st)) ->
      snd st' = List.length (tok_nodes (fst st'))).

(** A node that may have an entry in [tokens.nodes]: no status-bar
    element, and of a kind that is important at the top of the tree. *)
Definition recorded (info : Node -> NodeInfo) (m : Node) : Prop :=
  isStatusBarElement m = false /\ isImportant m (info m) 0 = true.

(** A printer for the examples: the integer part in decimal. *)
Definition print_floor (q : Q) : string := pretty (Qfloor q).

(** A screen with a red status bar and a title. *)
Definition red_status_bar : Node :=
  MkNode (Some "1:2") (Some "Status Bar") (Some "RECTANGLE")
    None None None None None
    (Some [{| fill_type := "SOLID";
              fill_color := Some {| col_r := Some 1%Q; col_g := Some 0%Q;
                                    col_b := Some 0%Q; col_a := None |};
              fill_imageRef := None |}])
    None None None None None None None.

Definition screen_with_status_bar : Node :=
  MkNode (Some "1:1") (Some "Screen") (Some "FRAME")
    None None None None None None None None None None None None
    (Some [red_status_bar;
           MkNode (Some "1:3") (Some "Title") (Some "TEXT")
             None None None None None None
             (Some {| ts_fontFamily := Some "Inter";
                      ts_fontSize := Some 24%Q;
                      ts_fontWeight := Some 700%Q;
                      ts_lineHeightPx := None |})
             (Some "Go premium") None None None None None]).

(** A node with the fields the examples need. *)
Definition node (i t a : string) (cs : list Node) : Node :=
  MkNode (Some i) (Some a) (Some t) None None None None None None
    None None None None None None (Some cs).

(** A small file: one page with a status bar, a hero frame holding a
    logo and a button, and a footer group. *)
Definition sample_document : Node :=
  node "0:0" "DOCUMENT" "Document"
    [node "0:1" "CANVAS" "Page 1"
       [node "1:1" "FRAME" "Paywall"
          [node "1:2" "FRAME" "Status Bar"
             [node "1:3" "VECTOR" "Wifi" []];
           node "1:4" "FRAME" "Hero"
             [node "1:5" "VECTOR" "Logo" [];
              node "1:6" "INSTANCE" "Buy button" []];
           node "1:7" "GROUP" "Footer" []]]].

End Figma.

(** ** The language of a regular expression

    [lang ci r s s'] says that [r] matches a prefix of [s] and leaves
    [s'].  The matcher is sound for it: whatever it matches is in the
    language (lemma [rmatch_sound] below). *)

Inductive lang (ci : bool) : regex -> list ascii -> list ascii -> Prop :=
| lang_eps s : lang ci Eps s s
| lang_lit a x s : char_eq ci a x = true -> lang ci (Lit a) (x :: s) s
| lang_cls neg items x s :
    xorb neg (in_class ci items x) = true ->
    lang ci (Cls neg items) (x :: s) s
| lang_dot x s : Js.is_line_terminator x = false -> lang ci Dot (x :: s) s
| lang_seq r1 r2 s s1 s2 :
    lang ci r1 s s1 -> lang ci r2 s1 s2 -> lang ci (Seq r1 r2) s s2
| lang_alt_l r1 r2 s s' : lang ci r1 s s' -> lang ci (Alt r1 r2) s s'
| lang_alt_r r1 r2 s s' : lang ci r2 s s' -> lang ci (Alt r1 r2) s s'
| lang_star_nil lz r s : lang ci (Star lz r) s s
| lang_star_cons lz r s s1 s2 :
    lang ci r s s1 -> lang ci (Star lz r) s1 s2 -> lang ci (Star lz r) s s2
| lang_grp i r s s' : lang ci r s s' -> lang ci (Grp i r) s s'.

(** ** What a capture group can hold *)

(** The bodies of the groups numbered [i] in [r]. *)
Fixpoint group_bodies (i : nat) (r : regex) : list regex :=
  match r with
  | Seq r1 r2 | Alt r1 r2 => group_bodies i r1 ++ group_bodies i r2
  | Star _ r1 => group_bodies i r1
  | Grp j r1 => (if Nat.eqb j i then [r1] else []) ++ group_bodies i r1
  | _ => []
  end.

Definition all_ascii : list ascii := map ascii_of_nat (seq 0 256).

(** A sufficient test that every match of [r] is non-empty and starts
    with a character that satisfies [F]. *)
Fixpoint starts (ci : bool) (F : ascii -> bool) (r : regex) : bool :=
  match r with
  | Lit a => forallb (fun x => implb (char_eq ci a x) (F x)) all_ascii
  | Cls neg items =>
      forallb (fun x => implb (xorb neg (in_class ci items x)) (F x)) all_ascii
  | Dot =>
      forallb (fun x => implb (negb (Js.is_line_terminator x)) (F x)) all_ascii
  | Seq r1 _ => starts ci F r1
  | Alt r1 r2 => starts ci F r1 && starts ci F r2
  | Grp _ r1 => starts ci F r1
  | Eps | Star _ _ => false
  end.

(** Neither white space nor a minus sign. *)
Definition plain (x : ascii) : bool :=
  negb (Js.is_space x || Ascii.eqb x "-").

(** A text that is empty or starts with a [plain] character: [Number]
    cannot turn it into a negative number. *)
Definition unsigned_start (w : list ascii) : Prop :=
  match w with
  | [] => True
  | x :: _ => plain x = true
  end.

(** The categories whose rule has no sign in its capture group. *)
Definition unsigned_category (c : numeric_category) : bool :=
  match c with
  | letterSpacing | zIndex => false
  | _ => true
  end.

(** The working sets of the unsigned categories hold no text that
    [Number] turns into a negative number. *)
Definition unsigned_sets (p : Patterns) : Prop :=
  forall (c : numeric_category) (v : string) (q : Q),
    unsigned_category c = true -> v ∈ num_set p c ->
    Num.Number v = Some q -> (0 <= q)%Q.

(** A sufficient test that [r] only consumes characters that satisfy
    [F]. *)
Fixpoint chars_in (ci : bool) (F : ascii -> bool) (r : regex) : bool :=
  match r with
  | Eps => true
  | Lit a => forallb (fun x => implb (char_eq ci a x) (F x)) all_ascii
  | Cls neg items =>
      forallb (fun x => implb (xorb neg (in_class ci items x)) (F x)) all_ascii
  | Dot =>
      forallb (fun x => implb (negb (Js.is_line_terminator x)) (F x)) all_ascii
  | Seq r1 r2 | Alt r1 r2 => chars_in ci F r1 && chars_in ci F r2
  | Star _ r1 | Grp _ r1 => chars_in ci F r1
  end.

Definition is_alphanumeric (x : ascii) : bool :=
  Js.is_digit x || Js.is_upper x || Js.is_lower x.

(** The categories whose capture group is [\d+], or [\d+] and keywords. *)
Definition whole_category (c : numeric_category) : bool :=
  match c with
  | fontWeights | breakpoints => true
  | _ => false
  end.

(** The working sets of these categories hold letters and digits only. *)
Definition whole_sets (p : Patterns) : Prop :=
  forall (c : numeric_category) (v : string),
    whole_category c = true -> v ∈ num_set p c ->
    Forall (fun x => is_alphanumeric x = true) (Js.chars v).

(** The categories whose value is the capture group [(\w+)]. *)
Definition word_category (c : string_category) : bool :=
  match c with
  | displayTypes | positions | textTransforms | animations => true
  | _ => false
  end.

Definition word_sets (p : Patterns) : Prop :=
  forall (c : string_category) (v : string),
    word_category c = true -> v ∈ str_set p c ->
    Forall (fun x => Js.is_word x = true) (Js.chars v).

(** [v] is a contiguous piece of [t]. *)
Definition piece_of (v t : list ascii) : Prop :=
  exists pre post, t = pre ++ v ++ post.

(** The categories whose value is a match or a capture group as it
    stands, at most trimmed: all but the font names, which are split
    and unquoted, and the borders, which are put together from three
    groups. *)
Definition verbatim_category (c : string_category) : bool :=
  match c with
  | fonts | borders => false
  | _ => true
  end.

Definition verbatim_sets (texts : list string) (p : Patterns) : Prop :=
  forall (c : string_category) (v : string),
    verbatim_category c = true -> v ∈ str_set p c ->
    exists t, t ∈ texts /\ piece_of (Js.chars v) (Js.chars t).

(** The working sets of numbers hold pieces of the style texts, but
    for the font weights, where [normal] and [bold] are translated. *)
Definition copied_sets (texts : list string) (p : Patterns) : Prop :=
  forall (c : numeric_category) (v : string),
    c <> fontWeights -> v ∈ num_set p c ->
    exists t, t ∈ texts /\ piece_of (Js.chars v) (Js.chars t).

(** Neither a quote nor a comma. *)
Definition bare (x : ascii) : bool := negb (is_quote x || Ascii.eqb x ",").

Definition bare_fonts (p : Patterns) : Prop :=
  forall v : string,
    v ∈ str_set p fonts -> Forall (fun x => bare x = true) (Js.chars v).

(** ** Figma links *)

Definition alphanumeric : list citem :=
  [CRange "a" "z"; CRange "A" "Z"; CRange "0" "9"].

(* /figma\.com\/(?:file|design)\/([a-zA-Z0-9]+)/ *)
Definition figmaFileKeyRegex : regex :=
  seqs [lit "figma.com/"; alts [lit "file"; lit "design"]; Lit "/";
        Grp 1 (Plus (Cls false alphanumeric))].

(** [extractFigmaFileKey(url)]: [match[1]] of the first match, else
    [null]. *)
Definition extractFigmaFileKey (url : string) : option string :=
  group 1 <$> exec false figmaFileKeyRegex url.

(** * Properties *)

(** ** The model on sample inputs *)

Example Number_examples :
  Num.Number "12.5" = Some (25 # 2) /\ Num.Number "-3" = Some (-3 # 1)
  /\ Num.Number "bold" = None /\ Num.Number "0" = Some (0 # 1)
  /\ Num.Number "5." = Some (5 # 1) /\ Num.Number "." = None
  /\ Num.Number ".5" = Some (1 # 2).
Proof. vm_compute. repeat split; reflexivity. Qed.

Example sort_numbers_example :
  Num.sort_numbers [3 # 1; 1 # 2; 10 # 1; 1 # 1] = [1 # 2; 1 # 1; 3 # 1; 10 # 1].
Proof. reflexivity. Qed.

Example extractPatternsFromCSS_scenario_A :
  let p := extractPatternsFromCSS "body{color:#FF0000;padding:10px;border-radius:8px;}"
             empty_patterns in
  str_set p colors = ["#FF0000"] /\ num_set p spacing = ["10"]
  /\ num_set p borderRadius = ["8"] /\ num_set p widths = [].
Proof. vm_compute. repeat split; reflexivity. Qed.

Example extract_scenario_A :
  let s := extractPaywallPatterns
             (style_doc "body{color:#FF0000;padding:10px;border-radius:8px;}") in
  s_str s colors = ["#FF0000"] /\ s_num s spacing = [10 # 1]
  /\ s_num s borderRadius = [8 # 1].
Proof. vm_compute. repeat split; reflexivity. Qed.

Example extract_button_rule :
  let s := extractPaywallPatterns
             (style_doc "button, .button, [class*='btn'] { color: blue; border: 1px solid #ccc }") in
  (s_componentStyles s !! "buttons" ≫= (.!! "color")) = Some ["blue"]
  /\ (s_componentStyles s !! "buttons" ≫= (.!! "border")) = Some ["1px solid #ccc"]
  /\ s_str s borders = ["1pxpx solid #ccc }"].
Proof. vm_compute. repeat split; reflexivity. Qed.

Example merge_scenario_B :
  let s v := extractPaywallPatterns (style_doc v) in
  p_num (merge_all initial_profile [s "p{padding:10px}"; s "p{padding:11px}"])
        spacing = [10 # 1].
Proof. vm_compute. reflexivity. Qed.

Example merge_scenario_C :
  p_num (merge_all initial_profile
           [extractPaywallPatterns (style_doc "p{font-weight: bold}")])
        fontWeights = [700 # 1].
Proof. vm_compute. reflexivity. Qed.

(** ** Sorting *)

Section Sorting.

Lemma Qle_bool_total (a b : Q) : Qle_bool a b = false -> (b <= a)%Q.
Proof.
  intros Hf. destruct (Qlt_le_dec a b) as [Hlt | Hle]; [| exact Hle].
  apply Qlt_le_weak, Qle_bool_iff in Hlt. congruence.
Qed.

Lemma insert_sorted_perm {A} (le : A -> A -> bool) (x : A) (l : list A) :
  Num.insert_sorted le x l ≡ₚ x :: l.
Proof.
  induction l as [| y l IH]; simpl; [reflexivity |].
  destruct (le y x); [| reflexivity].
  rewrite IH. apply Permutation_swap.
Qed.

Lemma sort_by_perm_acc {A} (le : A -> A -> bool) (l acc : list A) :
  foldl (fun acc x => Num.insert_sorted le x acc) acc l ≡ₚ acc ++ l.
Proof.
  revert acc. induction l as [| x l IH]; intros acc; simpl.
  - by rewrite app_nil_r.
  - rewrite IH, insert_sorted_perm.
    by rewrite (Permutation_middle acc l x).
Qed.

Lemma sort_by_perm {A} (le : A -> A -> bool) (l : list A) :
  Num.sort_by le l ≡ₚ l.
Proof. unfold Num.sort_by. by rewrite sort_by_perm_acc. Qed.

Lemma insert_sorted_strongly (x : Q) (l : list Q) :
  StronglySorted Qle l -> StronglySorted Qle (Num.insert_sorted Qle_bool x l).
Proof.
  induction 1 as [| y l Hl IH Hy]; simpl.
  - repeat constructor.
  - destruct (Qle_bool y x) eqn:Hyx.
    + constructor; [exact IH |].
      apply Forall_forall. intros z Hz.
      rewrite (insert_sorted_perm Qle_bool x l) in Hz.
      apply elem_of_cons in Hz. destruct Hz as [-> | Hz].
      * by apply Qle_bool_iff.
      * rewrite Forall_forall in Hy. by apply Hy.
    + apply Qle_bool_total in Hyx.
      constructor; [by constructor |].
      constructor; [exact Hyx |].
      eapply Forall_impl; [exact Hy |].
      intros z Hz. simpl in Hz. eapply Qle_trans; eassumption.
Qed.

Lemma sort_numbers_strongly (l : list Q) :
  StronglySorted Qle (Num.sort_numbers l).
Proof.
  unfold Num.sort_numbers, Num.sort_by.
  assert (Hacc : StronglySorted Qle []) by constructor.
  revert Hacc. generalize (@nil Q) as acc.
  induction l as [| x l IH]; intros acc Hacc; simpl; [exact Hacc |].
  apply IH. by apply insert_sorted_strongly.
Qed.

Lemma StronglySorted_take {A} (R : relation A) (n : nat) (l : list A) :
  StronglySorted R l -> StronglySorted R (take n l).
Proof.
  intros Hl. rewrite <- (take_drop n l) in Hl.
  by apply StronglySorted_app_1_l in Hl.
Qed.

Lemma StronglySorted_take_drop {A} (R : relation A) (n : nat) (l : list A)
  (x y : A) :
  StronglySorted R l -> x ∈ take n l -> y ∈ drop n l -> R x y.
Proof.
  intros Hl Hx Hy. rewrite <- (take_drop n l) in Hl.
  eapply StronglySorted_app_1_elem_of; eassumption.
Qed.

End Sorting.

(** ** Shape of [mergeArray] on the two kinds of array *)

Lemma mergeArray_numbers (target source : list Q) (limit : nat)
  (tolerance : option Q) :
  mergeArray target source limit tolerance
  = take limit (Num.sort_numbers (push_all tolerance target source)).
Proof.
  unfold mergeArray.
  destruct (push_all tolerance target source) as [| t0 l]; reflexivity.
Qed.

Lemma mergeArray_strings (target source : list string) (limit : nat)
  (tolerance : option Q) :
  mergeArray target source limit tolerance
  = take limit (push_all tolerance target source).
Proof.
  unfold mergeArray.
  by destruct (push_all tolerance target source) as [| t0 l].
Qed.

Lemma mergeArray_length {A} `{JsItem A} (target source : list A) (limit : nat)
  (tolerance : option Q) :
  List.length (mergeArray target source limit tolerance) <= limit.
Proof.
  unfold mergeArray.
  destruct (push_all tolerance target source) as [| t0 l];
    [| destruct (as_number t0)]; rewrite length_take; lia.
Qed.

(** ** The profile along a sequence of merges *)

Lemma merge_all_cons (p : Profile) (s : Snapshot) (l : list Snapshot) :
  merge_all p (s :: l) = merge_all (mergePaywallPatterns p s) l.
Proof. reflexivity. Qed.

Lemma merge_all_count (p : Profile) (l : list Snapshot) :
  count (merge_all p l) = count p + List.length l.
Proof.
  revert p. induction l as [| s l IH]; intros p.
  - simpl. lia.
  - rewrite merge_all_cons, IH. simpl. lia.
Qed.

Lemma merge_within_capacity (p : Profile) (s : Snapshot) :
  within_capacity (mergePaywallPatterns p s).
Proof. split; intros c; apply mergeArray_length. Qed.

Lemma merge_all_within_capacity (p : Profile) (l : list Snapshot) :
  within_capacity p -> within_capacity (merge_all p l).
Proof.
  revert p. induction l as [| s l IH]; intros p Hp; [exact Hp |].
  rewrite merge_all_cons. apply IH, merge_within_capacity.
Qed.

(** Exact-match accumulation of strings. *)
Lemma push_item_new (target : list string) (item : string) :
  item ∉ target -> push_item None target item = target ++ [item].
Proof.
  intros Hnew. unfold push_item. simpl.
  destruct (existsb (String.eqb item) target) eqn:Hex; [| reflexivity].
  apply existsb_exists in Hex. destruct Hex as (x & Hx & Heq).
  apply String.eqb_eq in Heq. subst x.
  by apply list_elem_of_In in Hx.
Qed.

Lemma take_take_app {A} (n : nat) (l k : list A) :
  take n (take n l ++ k) = take n (l ++ k).
Proof.
  destruct (decide (List.length l <= n)) as [Hle | Hgt].
  - by rewrite (take_ge l n).
  - rewrite !take_app_le by (rewrite ?length_take; lia).
    apply take_idemp.
Qed.

Lemma colors_accumulate (l : list Snapshot) :
  forall (cs : list string) (p : Profile),
    map (fun s => s_str s colors) l = map (fun c => [c]) cs ->
    NoDup (p_str p colors ++ cs) ->
    List.length (p_str p colors) <= 40 ->
    p_str (merge_all p l) colors = take 40 (p_str p colors ++ cs).
Proof.
  induction l as [| s l IH]; intros cs p Hcs Hnd Hlen.
  - destruct cs; [| discriminate]. simpl.
    by rewrite app_nil_r, take_ge.
  - destruct cs as [| c cs]; [discriminate |].
    injection Hcs as Hc Hcs.
    rewrite merge_all_cons.
    assert (Hstep : p_str (mergePaywallPatterns p s) colors
                    = take 40 (p_str p colors ++ [c])).
    { simpl. rewrite mergeArray_strings, Hc. unfold push_all. simpl.
      rewrite push_item_new; [reflexivity |].
      apply NoDup_app in Hnd. destruct Hnd as (_ & Hdisj & _).
      intros Hin. apply (Hdisj c Hin). by left. }
    rewrite (IH cs (mergePaywallPatterns p s) Hcs).
    + rewrite Hstep, take_take_app. by rewrite <- app_assoc.
    + rewrite Hstep.
      eapply sublist_NoDup; [exact Hnd |].
      rewrite (cons_middle c (p_str p colors) cs), app_assoc.
      apply sublist_app; [apply sublist_take | reflexivity].
    + rewrite Hstep, length_take. lia.
Qed.

(** ** Tolerance dedup away from zero

    The values of a list are separated when no two of them are within
    the tolerance of each other.  A merge keeps a numeric category
    separated as long as the number 0 is neither stored nor merged;
    claim C1 below shows what happens at 0. *)

Lemma apart_sym (tolerance x y : Q) : apart tolerance x y -> apart tolerance y x.
Proof.
  unfold apart. intros Hxy Hyx. apply Hxy.
  by rewrite Qabs_Qminus.
Qed.

Lemma separated_perm (tolerance : Q) (l k : list Q) :
  l ≡ₚ k -> separated tolerance l -> separated tolerance k.
Proof.
  unfold separated. induction 1 as [| x l k Hlk IH | x y l | l k m _ IH1 _ IH2].
  - done.
  - rewrite !StronglySorted_cons. intros [Hx Hl]. split; [| by apply IH].
    by rewrite <- Hlk.
  - rewrite !StronglySorted_cons, !Forall_cons.
    intros [[Hxy Hx] [Hy Hl]]. repeat split; try assumption.
    by apply apart_sym.
  - intros Hl. by apply IH2, IH1.
Qed.

Lemma within_false_apart (tolerance item t : Q) :
  within tolerance item t = false -> apart tolerance t item.
Proof.
  unfold within, apart, Num.Qlt_bool. cbn [as_number number_item].
  intros Hf Hlt. apply negb_false_iff, Qle_bool_iff in Hf.
  by apply Qle_not_lt in Hf.
Qed.

Lemma truthy_tolerance_of (c : numeric_category) :
  truthy_tolerance (Some (tolerance_of c)) = Some (tolerance_of c).
Proof. by destruct c. Qed.

Lemma push_item_separated (tolerance : Q) (target : list Q) (item : Q) :
  truthy_tolerance (Some tolerance) = Some tolerance ->
  nonzero target -> ~ (item == 0)%Q -> separated tolerance target ->
  nonzero (push_item (Some tolerance) target item)
  /\ separated tolerance (push_item (Some tolerance) target item).
Proof.
  intros Htol Hnz Hitem Hsep. unfold push_item. rewrite Htol.
  cbn [as_number number_item].
  destruct (List.find (within tolerance item) target) as [e |] eqn:Hfind.
  - apply find_some in Hfind. destruct Hfind as [Hin _].
    apply list_elem_of_In in Hin.
    assert (He0 : ~ (e == 0)%Q).
    { unfold nonzero in Hnz. rewrite Forall_forall in Hnz. by apply Hnz. }
    cbn [not_existing truthy number_item].
    destruct (Qeq_bool e 0) eqn:He; [| cbn [negb]; by split].
    apply Qeq_bool_iff in He. contradiction.
  - cbn [not_existing]. split.
    + apply Forall_app. split; [exact Hnz | by repeat constructor].
    + apply StronglySorted_app. repeat split.
      * intros x y Hx Hy. apply list_elem_of_singleton in Hy. subst y.
        apply within_false_apart.
        apply (find_none _ _ Hfind). by apply list_elem_of_In.
      * exact Hsep.
      * repeat constructor.
Qed.

Lemma push_all_separated (tolerance : Q) (source : list Q) :
  truthy_tolerance (Some tolerance) = Some tolerance ->
  nonzero source ->
  forall target : list Q,
    nonzero target -> separated tolerance target ->
    nonzero (push_all (Some tolerance) target source)
    /\ separated tolerance (push_all (Some tolerance) target source).
Proof.
  intros Htol Hsrc. unfold push_all.
  induction Hsrc as [| item source Hitem Hsrc IH]; intros target Hnz Hsep.
  - by split.
  - cbn [foldl].
    destruct (push_item_separated tolerance target item Htol Hnz Hitem Hsep)
      as [Hnz' Hsep'].
    by apply IH.
Qed.

(** Without the number 0 a merge keeps every numeric category free of
    two values within its tolerance. *)
Lemma merge_separated_without_zero (p : Profile) (s : Snapshot)
  (c : numeric_category) :
  nonzero (p_num p c) -> nonzero (s_num s c) ->
  separated (tolerance_of c) (p_num p c) ->
  nonzero (p_num (mergePaywallPatterns p s) c)
  /\ separated (tolerance_of c) (p_num (mergePaywallPatterns p s) c).
Proof.
  intros Hp Hs Hsep. cbn [mergePaywallPatterns p_num].
  rewrite mergeArray_numbers.
  destruct (push_all_separated (tolerance_of c) (s_num s c)
              (truthy_tolerance_of c) Hs (p_num p c) Hp Hsep) as [Hnz Hsep'].
  pose proof (sort_by_perm Qle_bool
                (push_all (Some (tolerance_of c)) (p_num p c) (s_num s c)))
    as Hperm.
  split.
  - unfold nonzero. eapply Forall_take.
    unfold Num.sort_numbers. by rewrite Hperm.
  - apply StronglySorted_take. eapply separated_perm; [| exact Hsep'].
    by symmetry.
Qed.

(** ** Component styles in the snapshot and in the profile *)

Lemma object_keys_elem {V} (o : gmap string V) (k : string) :
  k ∈ object_keys o <-> is_Some (o !! k).
Proof.
  unfold object_keys. rewrite list_elem_of_fmap. split.
  - intros ([k' v] & -> & Hin). apply elem_of_map_to_list in Hin. by exists v.
  - intros [v Hv]. exists (k, v). split; [reflexivity |].
    by apply elem_of_map_to_list.
Qed.

Lemma merge_components_lookup (new : gmap string (gmap string (list string)))
  (keys : list string) (a : string) :
  forall acc : gmap string (gmap string (list string)),
    foldl (merge_component new) acc keys !! a
    = if decide (a ∈ keys)
      then Some (object_assign (default ∅ (acc !! a)) (default ∅ (new !! a)))
      else acc !! a.
Proof.
  induction keys as [| k keys IH]; intros acc.
  - cbn [foldl]. destruct (decide (a ∈ [])) as [Hin | _]; [| reflexivity].
    by apply not_elem_of_nil in Hin.
  - cbn [foldl]. rewrite IH. unfold merge_component.
    destruct (decide (a = k)) as [-> | Hne].
    + rewrite lookup_insert_eq. cbn [default].
      destruct (decide (k ∈ k :: keys)) as [_ | Hn];
        [| exfalso; apply Hn; apply list_elem_of_here].
      destruct (decide (k ∈ keys)); [| reflexivity].
      unfold object_assign. simpl. f_equal.
      by rewrite (assoc_L (∪)), (idemp_L (∪)).
    + rewrite lookup_insert_ne by congruence.
      destruct (decide (a ∈ keys)) as [Hin | Hnin];
        destruct (decide (a ∈ k :: keys)) as [Hin' | Hnin']; try reflexivity.
      * exfalso. apply Hnin'. by apply list_elem_of_further.
      * exfalso. apply elem_of_cons in Hin' as [Heq | Hin']; tauto.
Qed.

Lemma merged_component (p : Profile) (s : Snapshot) (a : string) :
  componentStyles (mergePaywallPatterns p s) !! a
  = match s_componentStyles s !! a with
    | Some m => Some (object_assign (default ∅ (componentStyles p !! a)) m)
    | None => componentStyles p !! a
    end.
Proof.
  cbn [mergePaywallPatterns componentStyles].
  rewrite merge_components_lookup.
  destruct (s_componentStyles s !! a) as [m |] eqn:Hm.
  - rewrite decide_True; [reflexivity |].
    apply object_keys_elem. rewrite Hm. by exists m.
  - rewrite decide_False; [reflexivity |].
    intros Hin. apply object_keys_elem in Hin. rewrite Hm in Hin.
    by destruct Hin.
Qed.

(** ** Component styles of a snapshot

    The lists that [extractSelectorStyles] returns have at most 5
    entries, and nothing else writes [componentStyles]. *)

(** The rules of [extractPatternsFromCSS] leave [componentStyles] alone. *)
Lemma for_matches_components (ci : bool) (re : regex) (css : string)
  (body : rmatch_result -> Patterns -> Patterns) (p : Patterns) :
  (forall m q, w_componentStyles (body m q) = w_componentStyles q) ->
  w_componentStyles (for_matches ci re css body p) = w_componentStyles p.
Proof.
  intros Hbody. unfold for_matches. revert p.
  induction (matchAll ci re css) as [| m l IH]; intros p; [reflexivity |].
  cbn [foldl]. by rewrite IH, Hbody.
Qed.

Lemma add_fonts_components (names : list string) (p : Patterns) :
  w_componentStyles (foldl (fun acc font => add_str fonts font acc) p names)
  = w_componentStyles p.
Proof.
  revert p. induction names as [| n names IH]; intros p; [reflexivity |].
  cbn [foldl]. by rewrite IH.
Qed.

Lemma extractPatternsFromCSS_components (css : string) (p : Patterns) :
  w_componentStyles (extractPatternsFromCSS css p) = w_componentStyles p.
Proof.
  unfold extractPatternsFromCSS. cbv zeta.
  repeat (rewrite for_matches_components;
          [| intros m q; try apply add_fonts_components;
             repeat case_match; reflexivity]).
  reflexivity.
Qed.

Lemma extractSelectorStyles_capped (d : Dom.document) (selector : string)
  (properties : list string) (prop : string) (l : list string) :
  extractSelectorStyles d selector properties !! prop = Some l ->
  List.length l <= 5.
Proof.
  unfold extractSelectorStyles. cbv zeta. rewrite lookup_fmap.
  intros Hl. apply fmap_Some in Hl. destruct Hl as (l' & _ & ->).
  rewrite length_take. lia.
Qed.

Lemma set_component_if_any_capped (name : string)
  (styles : gmap string (list string)) (p : Patterns) :
  (forall prop l, styles !! prop = Some l -> List.length l <= 5) ->
  values_capped (w_componentStyles p) ->
  values_capped (w_componentStyles (set_component_if_any name styles p)).
Proof.
  intros Hstyles Hp. unfold set_component_if_any.
  destruct (Nat.ltb 0 (size styles)); [| exact Hp].
  intros a m prop l Ha Hm. cbn [set_component w_componentStyles] in Ha.
  destruct (decide (name = a)) as [-> | Hne].
  - rewrite lookup_insert_eq in Ha. injection Ha as <-. eauto.
  - rewrite lookup_insert_ne in Ha by exact Hne. eauto.
Qed.

Lemma snapshot_components_capped (d : Dom.document) :
  values_capped (s_componentStyles (extractPaywallPatterns d)).
Proof.
  cbn [extractPaywallPatterns s_componentStyles].
  unfold collectPatterns, extractComponentStyles. cbv zeta.
  repeat (apply set_component_if_any_capped;
          [intros prop l; apply extractSelectorStyles_capped |]).
  match goal with
  | |- values_capped (w_componentStyles ?q) =>
      assert (Hq : w_componentStyles q = ∅); [| rewrite Hq]
  end.
  - generalize (Dom.select d [Dom.SHasAttr "style"]) as inline.
    generalize (Dom.select d [Dom.STag "style"]) as blocks.
    assert (Hfold : forall (f : Dom.node -> string) (l : list Dom.node) q,
               w_componentStyles
                 (foldl (fun acc elem => extractPatternsFromCSS (f elem) acc) q l)
               = w_componentStyles q).
    { intros f l. induction l as [| x l IH]; intros q; [reflexivity |].
      cbn [foldl]. by rewrite IH, extractPatternsFromCSS_components. }
    intros blocks inline.
    rewrite (Hfold (fun elem => default EmptyString (Dom.attr "style" elem))).
    by rewrite (Hfold Dom.inner_html).
  - intros a m prop l Ha. by rewrite lookup_empty in Ha.
Qed.

(** ** Claims on the aggregator *)

(** C1. Tolerance dedup fails at a stored 0.  [find] returns the
    element found, and [!existing] is true for the number 0, so a value
    within tolerance of a stored 0 (here 0 itself, tolerance 2 of
    [spacing]) is appended instead of absorbed: merging the same
    document twice leaves two entries, and a document with [margin:1px]
    after it adds a value at distance 1 of the stored 0.  A stored 10
    absorbs as the claim says. *)
Theorem C1_zero_is_not_absorbed :
  let doc v := extractPaywallPatterns (style_doc v) in
  let s0 := doc "p{margin:0}" in
  let s1 := doc "p{margin:1px}" in
  let s10 := doc "p{margin:10px}" in
  s_num s0 spacing = [0 # 1]
  /\ p_num (merge_all initial_profile [s0]) spacing = [0 # 1]
  /\ List.find (within (tolerance_of spacing) (0 # 1)) [0 # 1] = Some (0 # 1)
  /\ p_num (merge_all initial_profile [s0; s0]) spacing = [0 # 1; 0 # 1]
  /\ p_num (merge_all initial_profile [s0; s1]) spacing = [0 # 1; 1 # 1]
  /\ p_num (merge_all initial_profile [s10; s10]) spacing = [10 # 1].
Proof. vm_compute. repeat split; reflexivity. Qed.

(** C6. Capacity invariant: after any sequence of merges from the
    empty profile every category holds at most its capacity; and 60
    snapshots that each bring one colour, all different, leave exactly
    40 colours, the capacity of that category. *)
Theorem C6_capacity_invariant :
  (forall snapshots : list Snapshot,
      (forall c, List.length (p_num (merge_all initial_profile snapshots) c)
                 <= capacity_num c)
      /\ (forall c, List.length (p_str (merge_all initial_profile snapshots) c)
                    <= capacity_str c))
  /\ capacity_str colors = 40
  /\ (forall (snapshots : list Snapshot) (cs : list string),
         List.length snapshots = 60 ->
         NoDup cs ->
         map (fun s => s_str s colors) snapshots = map (fun c => [c]) cs ->
         List.length (p_str (merge_all initial_profile snapshots) colors) = 40).
Proof.
  split; [| split; [reflexivity |]].
  - intros snapshots. apply merge_all_within_capacity.
    split; intros c; simpl; lia.
  - intros snapshots cs Hlen Hnd Hcs.
    rewrite (colors_accumulate snapshots cs initial_profile Hcs);
      [| exact Hnd | simpl; lia].
    simpl. rewrite length_take.
    assert (List.length cs = 60).
    { rewrite <- Hlen, <- (length_map (fun s => s_str s colors) snapshots), Hcs.
      symmetry. apply length_map. }
    lia.
Qed.

(** Sixty uploads with one colour each fill the category to its
    capacity and no further. *)
Lemma C6_capacity_invariant_witness :
  List.length sixty_snapshots = 60
  /\ NoDup sixty_colors
  /\ map (fun s => s_str s colors) sixty_snapshots
     = map (fun c => [c]) sixty_colors
  /\ List.length (p_str (merge_all initial_profile sixty_snapshots) colors) = 40.
Proof.
  assert (H1 : List.length sixty_snapshots = 60) by reflexivity.
  assert (H2 : NoDup sixty_colors)
    by (refine (@bool_decide_unpack (NoDup sixty_colors) _ _);
        vm_compute; exact I).
  assert (H3 : map (fun s => s_str s colors) sixty_snapshots
               = map (fun c => [c]) sixty_colors)
    by (vm_compute; reflexivity).
  split; [exact H1 | split; [exact H2 | split; [exact H3 |]]].
  exact (proj2 (proj2 C6_capacity_invariant) sixty_snapshots sixty_colors
           H1 H2 H3).
Defined.

(** C7. Order invariant: after a merge the stored list of a numeric
    category is sorted ascending; it is the first [capacity] entries of
    the sorted merged values, so every entry dropped for capacity is at
    least as large as every entry kept. *)
Theorem C7_order_invariant (p : Profile) (s : Snapshot) (c : numeric_category) :
  let merged :=
    Num.sort_numbers (push_all (Some (tolerance_of c)) (p_num p c) (s_num s c)) in
  let stored := p_num (mergePaywallPatterns p s) c in
  Sorted Qle stored
  /\ merged ≡ₚ push_all (Some (tolerance_of c)) (p_num p c) (s_num s c)
  /\ Sorted Qle merged
  /\ stored = take (capacity_num c) merged
  /\ (forall kept dropped : Q,
         kept ∈ stored -> dropped ∈ drop (capacity_num c) merged ->
         (kept <= dropped)%Q).
Proof.
  intros merged stored.
  assert (Hstored : stored = take (capacity_num c) merged).
  { subst stored merged. simpl. apply mergeArray_numbers. }
  assert (Hsorted : StronglySorted Qle merged) by apply sort_numbers_strongly.
  repeat split.
  - rewrite Hstored. by apply StronglySorted_Sorted, StronglySorted_take.
  - apply sort_by_perm.
  - by apply StronglySorted_Sorted.
  - exact Hstored.
  - intros kept dropped Hk Hd. rewrite Hstored in Hk.
    eapply StronglySorted_take_drop; eassumption.
Qed.

(** C8. Count and reset: every merge adds exactly one to the count,
    so after a reset the count is the number of merges performed; a
    reset gives count 0 and an empty list for every category. *)
Theorem C8_count_and_reset (p : Profile) (snapshots : list Snapshot)
  (s : Snapshot) :
  count (mergePaywallPatterns p s) = count p + 1
  /\ count (merge_all (reset p) snapshots) = List.length snapshots
  /\ count (merge_all initial_profile snapshots) = List.length snapshots
  /\ count (reset p) = 0
  /\ (forall c, p_num (reset p) c = [])
  /\ (forall c, p_str (reset p) c = [])
  /\ layouts (reset p) = []
  /\ commonStyles (reset p) = ∅
  /\ componentStyles (reset p) = ∅.
Proof.
  repeat split.
  - by rewrite merge_all_count.
  - by rewrite merge_all_count.
Qed.

(** C2. A merge replaces, it does not unite: for an archetype of the
    snapshot, every property the snapshot lists gets exactly the value
    list of the snapshot, and the properties it does not list keep
    their stored list; archetypes absent from the snapshot are left as
    they are.  The lists of a snapshot made by the extractor have at
    most 5 entries. *)
Theorem C2_component_styles_are_replaced (p : Profile) (s : Snapshot) :
  (forall (a : string) (m : gmap string (list string)),
      s_componentStyles s !! a = Some m ->
      (forall prop l,
          m !! prop = Some l ->
          stored_styles (componentStyles (mergePaywallPatterns p s)) a prop
          = Some l)
      /\ (forall prop,
             m !! prop = None ->
             stored_styles (componentStyles (mergePaywallPatterns p s)) a prop
             = stored_styles (componentStyles p) a prop))
  /\ (forall a : string,
         s_componentStyles s !! a = None ->
         componentStyles (mergePaywallPatterns p s) !! a
         = componentStyles p !! a)
  /\ (forall (d : Dom.document) (a prop : string) (l : list string),
         stored_styles (s_componentStyles (extractPaywallPatterns d)) a prop
         = Some l ->
         List.length l <= 5).
Proof.
  split; [| split].
  - intros a m Hm. unfold stored_styles.
    rewrite merged_component, Hm. cbn [mbind option_bind].
    unfold object_assign. split.
    + intros prop l Hl. by apply lookup_union_Some_l.
    + intros prop Hnone. rewrite lookup_union_r by exact Hnone.
      by destruct (componentStyles p !! a).
  - intros a Ha. by rewrite merged_component, Ha.
  - intros d a prop l. unfold stored_styles.
    destruct (s_componentStyles (extractPaywallPatterns d) !! a) as [m |] eqn:Ha;
      [| discriminate].
    cbn [mbind option_bind]. intros Hl.
    exact (snapshot_components_capped d a m prop l Ha Hl).
Qed.

(** The blue button after the red one: [color] is replaced, [padding],
    which the blue rule does not set, is kept. *)
Lemma C2_component_styles_are_replaced_witness :
  let p := mergePaywallPatterns initial_profile red_button in
  let m := default ∅ (s_componentStyles blue_button !! "buttons") in
  s_componentStyles blue_button !! "buttons" = Some m
  /\ m !! "color" = Some ["blue"]
  /\ m !! "padding" = None
  /\ stored_styles (componentStyles (mergePaywallPatterns p blue_button))
       "buttons" "color" = Some ["blue"]
  /\ stored_styles (componentStyles (mergePaywallPatterns p blue_button))
       "buttons" "padding" = stored_styles (componentStyles p) "buttons" "padding".
Proof.
  intros p m.
  assert (H1 : s_componentStyles blue_button !! "buttons" = Some m)
    by (vm_compute; reflexivity).
  assert (H2 : m !! "color" = Some ["blue"]) by (vm_compute; reflexivity).
  assert (H3 : m !! "padding" = None) by (vm_compute; reflexivity).
  pose proof (proj1 (C2_component_styles_are_replaced p blue_button)
                "buttons" m H1) as [Hset Hkeep].
  split; [exact H1 | split; [exact H2 | split; [exact H3 | split]]].
  - exact (Hset "color" ["blue"] H2).
  - exact (Hkeep "padding" H3).
Defined.

(** After a red and then a blue button the profile stores only blue;
    the union would be red and blue. *)
Lemma C2_counterexample :
  let p := mergePaywallPatterns initial_profile red_button in
  let q := mergePaywallPatterns p blue_button in
  stored_styles (componentStyles p) "buttons" "color" = Some ["red"]
  /\ stored_styles (s_componentStyles blue_button) "buttons" "color"
     = Some ["blue"]
  /\ stored_styles (componentStyles q) "buttons" "color" = Some ["blue"]
  /\ union_capped ["red"] ["blue"] = ["red"; "blue"]
  /\ stored_styles (componentStyles q) "buttons" "color"
     <> Some (union_capped ["red"] ["blue"]).
Proof. vm_compute. repeat split; try reflexivity. discriminate. Qed.

(** ** Claims on the extractor *)

(** C3. The snapshot is cut to caps of its own, every one of them
    smaller than the capacity the aggregator uses for the category. *)
Theorem C3_snapshot_caps_differ (d : Dom.document) :
  (forall c : string_category,
      s_str (extractPaywallPatterns d) c
      = take (snapshot_cap_str c) (str_set (collectPatterns d) c)
      /\ List.length (s_str (extractPaywallPatterns d) c) <= snapshot_cap_str c
      /\ snapshot_cap_str c < capacity_str c)
  /\ (forall c : numeric_category,
         s_num (extractPaywallPatterns d) c
         = take (snapshot_cap_num c)
             (Num.sort_numbers
                (List.filter (snapshot_keep c)
                   (omap Num.Number (num_set (collectPatterns d) c))))
         /\ List.length (s_num (extractPaywallPatterns d) c) <= snapshot_cap_num c
         /\ snapshot_cap_num c < capacity_num c).
Proof.
  split; intros c; (split; [reflexivity | split]).
  - simpl. unfold string_output. rewrite length_take. lia.
  - destruct c; simpl; lia.
  - simpl. unfold numeric_output. rewrite length_take. lia.
  - destruct c; simpl; lia.
Qed.

(** A document with 41 distinct colours, more than the capacity 40 of
    [colors], has a snapshot of 30 colours, not 40. *)
Lemma C3_counterexample :
  let d := style_doc (colors_text 41) in
  List.length (str_set (collectPatterns d) colors) = 41
  /\ capacity_str colors = 40
  /\ List.length (s_str (extractPaywallPatterns d) colors) = 30
  /\ List.length (s_str (extractPaywallPatterns d) colors) <> capacity_str colors.
Proof. vm_compute. repeat split; try reflexivity. discriminate. Qed.

(** C4. Percentage and viewport widths and heights are not excluded:
    the test reads capture group 1, which holds only the digits, so it
    never sees the unit.  [width: 50%] yields 50 and [height: 100vh]
    yields 100, exactly as pixel values do. *)
Theorem C4_percent_and_viewport_are_kept :
  let s := extractPaywallPatterns (style_doc ".hero{width: 50%; height: 100vh}") in
  let t := extractPaywallPatterns (style_doc ".hero{width: 80vw; height: 25%}") in
  let u := extractPaywallPatterns (style_doc ".hero{width: 320px; height: 2.5rem}") in
  group 1 <$> matchAll true Rules.widthRegex ".hero{width: 50%; height: 100vh}"
  = ["50"]
  /\ s_num s widths = [50 # 1] /\ s_num s heights = [100 # 1]
  /\ s_num t widths = [80 # 1] /\ s_num t heights = [25 # 1]
  /\ s_num u widths = [320 # 1] /\ s_num u heights = [5 # 2].
Proof. vm_compute. repeat split; reflexivity. Qed.

(** C5. Component styles are read from the first [style] element
    only: [$("style").html()] returns the content of the first element
    of the selection.  The button rule in a second [style] element
    contributes nothing to [componentStyles], although the category
    scan, which iterates over all [style] elements, does see it. *)
Theorem C5_only_first_style_is_scanned :
  let late := extractPaywallPatterns (two_styles body_rule button_rule) in
  let early := extractPaywallPatterns (two_styles button_rule body_rule) in
  s_componentStyles late !! "buttons" = None
  /\ s_str late colors = ["#00f"]
  /\ (s_componentStyles early !! "buttons" ≫= (.!! "background")) = Some ["#00f"]
  /\ (s_componentStyles early !! "buttons" ≫= (.!! "padding")) = Some ["8px"].
Proof. vm_compute. repeat split; reflexivity. Qed.

(** ** Documents without style text *)

Lemma selector_scan_of_empty_text :
  matchAll true (selectorRegex button_selector) EmptyString = []
  /\ matchAll true (selectorRegex card_selector) EmptyString = []
  /\ matchAll true (selectorRegex input_selector) EmptyString = [].
Proof. vm_compute. repeat split; reflexivity. Qed.

Lemma extractSelectorStyles_no_style (d : Dom.document) (selector : string)
  (properties : list string) :
  Dom.select d [Dom.STag "style"] = [] ->
  matchAll true (selectorRegex selector) EmptyString = [] ->
  extractSelectorStyles d selector properties = ∅.
Proof.
  intros Hstyle Hscan. unfold extractSelectorStyles.
  rewrite Hstyle. cbn [Dom.html default]. rewrite Hscan.
  cbn [foldl]. apply fmap_empty.
Qed.

Lemma collectPatterns_no_style (d : Dom.document) :
  Dom.select d [Dom.STag "style"] = [] ->
  Dom.select d [Dom.SHasAttr "style"] = [] ->
  collectPatterns d = empty_patterns.
Proof.
  intros Hstyle Hinline.
  destruct selector_scan_of_empty_text as (Hb & Hc & Hi).
  unfold collectPatterns. rewrite Hstyle, Hinline. cbn [foldl].
  unfold extractComponentStyles.
  rewrite !extractSelectorStyles_no_style by assumption.
  unfold set_component_if_any. rewrite map_size_empty. reflexivity.
Qed.

(** C9. A document without [style] elements and without [style]
    attributes gives a snapshot whose category lists are all empty,
    with empty [commonStyles] and [componentStyles]; every count of
    [layouts] is the number of elements of the document that match the
    selector group of that count, hence zero exactly when no element
    matches. *)
Theorem C9_document_without_styles (d : Dom.document) :
  Dom.select d [Dom.STag "style"] = [] ->
  Dom.select d [Dom.SHasAttr "style"] = [] ->
  let s := extractPaywallPatterns d in
  (forall c, s_num s c = [])
  /\ (forall c, s_str s c = [])
  /\ s_commonStyles s = ∅
  /\ s_componentStyles s = ∅
  /\ buttons (s_layouts s) = List.length (Dom.select d button_group)
  /\ cards (s_layouts s) = List.length (Dom.select d card_group)
  /\ containers (s_layouts s) = List.length (Dom.select d container_group)
  /\ inputs (s_layouts s) = List.length (Dom.select d input_group)
  /\ modals (s_layouts s) = List.length (Dom.select d modal_group)
  /\ (Dom.select d button_group = [] -> Dom.select d card_group = [] ->
      Dom.select d container_group = [] -> Dom.select d input_group = [] ->
      Dom.select d modal_group = [] ->
      s_layouts s = {| buttons := 0; cards := 0; containers := 0;
                       inputs := 0; modals := 0 |}).
Proof.
  intros Hstyle Hinline s. subst s. unfold extractPaywallPatterns.
  rewrite (collectPatterns_no_style d Hstyle Hinline).
  cbn [s_num s_str s_commonStyles s_componentStyles s_layouts
       buttons cards containers inputs modals
       empty_patterns num_set str_set w_commonStyles w_componentStyles].
  split; [intros c; unfold numeric_output; cbn; apply take_nil |].
  split; [intros c; unfold string_output; apply take_nil |].
  do 7 (split; [reflexivity |]).
  intros -> -> -> -> ->. reflexivity.
Qed.

(** The unstyled page meets both conditions of the theorem. *)
Lemma C9_document_without_styles_witness :
  Dom.select unstyled_page [Dom.STag "style"] = []
  /\ Dom.select unstyled_page [Dom.SHasAttr "style"] = []
  /\ (forall c, s_str (extractPaywallPatterns unstyled_page) c = [])
  /\ buttons (s_layouts (extractPaywallPatterns unstyled_page))
     = List.length (Dom.select unstyled_page button_group).
Proof.
  assert (H1 : Dom.select unstyled_page [Dom.STag "style"] = [])
    by reflexivity.
  assert (H2 : Dom.select unstyled_page [Dom.SHasAttr "style"] = [])
    by reflexivity.
  pose proof (C9_document_without_styles unstyled_page H1 H2) as H.
  split; [exact H1 | split; [exact H2 | split]].
  - exact (proj1 (proj2 H)).
  - exact (proj1 (proj2 (proj2 (proj2 (proj2 H))))).
Defined.

(** The unstyled page has no style text, and its snapshot counts one
    button and one card: the [layouts] counts are not all zero. *)
Lemma C9_counterexample :
  Dom.select unstyled_page [Dom.STag "style"] = []
  /\ Dom.select unstyled_page [Dom.SHasAttr "style"] = []
  /\ s_layouts (extractPaywallPatterns unstyled_page)
     = {| buttons := 1; cards := 1; containers := 0; inputs := 0; modals := 0 |}
  /\ buttons (s_layouts (extractPaywallPatterns unstyled_page)) <> 0.
Proof. vm_compute. repeat split; try reflexivity. discriminate. Qed.

(** C10. [bolder] is inserted as 700: in the alternation
    [\d+|normal|bold|bolder|lighter] the branch [bold] comes first and
    nothing follows the group, so on [bolder] the group captures
    [bold].  [lighter] is matched and dropped as the claim says. *)
Theorem C10_bolder_is_read_as_bold :
  let weights css :=
    s_num (extractPaywallPatterns (style_doc css)) fontWeights in
  group 1 <$> matchAll true Rules.fontWeightRegex "p{font-weight: bolder}"
  = ["bold"]
  /\ weights "p{font-weight: bolder}" = [700 # 1]
  /\ weights "p{font-weight: lighter}" = []
  /\ weights "p{font-weight: 600} b{font-weight: normal} i{font-weight:bold}"
     = [400 # 1; 600 # 1; 700 # 1].
Proof. vm_compute. repeat split; reflexivity. Qed.

(** * Further properties of the aggregator *)

Lemma merge_all_snoc (p : Profile) (l : list Snapshot) (s : Snapshot) :
  merge_all p (l ++ [s]) = mergePaywallPatterns (merge_all p l) s.
Proof. unfold merge_all. by rewrite foldl_snoc. Qed.

(** ** The history of layouts *)

Lemma push_layouts_last (history : list Layouts) (l : Layouts) :
  push_layouts (drop (List.length history - 50) history) l
  = drop (List.length (history ++ [l]) - 50) (history ++ [l]).
Proof.
  unfold push_layouts. rewrite !length_app, length_drop. cbn [List.length].
  destruct (Nat.ltb_spec 50
              (List.length history - (List.length history - 50) + 1))
    as [Hlong | Hshort].
  - replace (List.length history - (List.length history - 50) + 1 - 50)
      with 1 by lia.
    rewrite !drop_app_le by (rewrite ?length_drop; lia).
    rewrite drop_drop. do 2 f_equal. lia.
  - replace (List.length history - 50) with 0 by lia.
    replace (List.length history + 1 - 50) with 0 by lia.
    by rewrite !drop_0.
Qed.

(** The profile keeps the layout counts of the 50 most recent uploads,
    oldest first. *)
Theorem layouts_keep_last_fifty (snapshots : list Snapshot) :
  layouts (merge_all initial_profile snapshots)
  = drop (List.length snapshots - 50) (map s_layouts snapshots)
  /\ List.length (layouts (merge_all initial_profile snapshots))
     = Nat.min 50 (List.length snapshots).
Proof.
  assert (Hlast : layouts (merge_all initial_profile snapshots)
                  = drop (List.length snapshots - 50) (map s_layouts snapshots)).
  { induction snapshots as [| s l IH] using rev_ind; [reflexivity |].
    rewrite merge_all_snoc. cbn [mergePaywallPatterns layouts].
    rewrite IH, map_app. cbn [map].
    rewrite <- (length_map s_layouts l) at 1.
    rewrite push_layouts_last. by rewrite !length_app, !length_map. }
  split; [exact Hlast |].
  rewrite Hlast, length_drop, length_map. lia.
Qed.

(** ** What a merge can store *)

Lemma push_item_cases {A} `{JsItem A} (tolerance : option Q)
  (target : list A) (item : A) :
  push_item tolerance target item = target
  \/ push_item tolerance target item = target ++ [item].
Proof.
  unfold push_item.
  destruct (truthy_tolerance tolerance), (as_number item);
    repeat case_match; auto.
Qed.

Lemma push_all_extends {A} `{JsItem A} (tolerance : option Q)
  (source target : list A) :
  exists news : list A,
    push_all tolerance target source = target ++ news /\ news ⊆ source.
Proof.
  unfold push_all. revert target.
  induction source as [| item source IH]; intros target.
  - exists []. split; [by rewrite app_nil_r | done].
  - cbn [foldl]. destruct (IH (push_item tolerance target item)) as (news & -> & Hsub).
    destruct (push_item_cases tolerance target item) as [-> | ->].
    + exists news. split; [reflexivity |].
      intros x Hx. right. by apply Hsub.
    + exists (item :: news). split; [by rewrite <- app_assoc |].
      intros x Hx. apply elem_of_cons in Hx. destruct Hx as [-> | Hx];
        [by left | right; by apply Hsub].
Qed.

(** A merge never invents a value: whatever a category holds after a
    merge was stored before or came with the snapshot. *)
Theorem merge_stores_known_values (p : Profile) (s : Snapshot) :
  (forall (c : numeric_category) (x : Q),
      x ∈ p_num (mergePaywallPatterns p s) c ->
      x ∈ p_num p c \/ x ∈ s_num s c)
  /\ (forall (c : string_category) (x : string),
         x ∈ p_str (mergePaywallPatterns p s) c ->
         x ∈ p_str p c \/ x ∈ s_str s c).
Proof.
  split; intros c x; cbn [mergePaywallPatterns p_num p_str].
  - rewrite mergeArray_numbers. intros Hx.
    apply subseteq_take in Hx. unfold Num.sort_numbers in Hx.
    rewrite sort_by_perm in Hx.
    destruct (push_all_extends (Some (tolerance_of c)) (s_num s c) (p_num p c))
      as (news & Heq & Hsub).
    rewrite Heq in Hx. apply elem_of_app in Hx.
    destruct Hx as [Hx | Hx]; [by left | right; by apply Hsub].
  - rewrite mergeArray_strings. intros Hx.
    apply subseteq_take in Hx.
    destruct (push_all_extends None (s_str s c) (p_str p c))
      as (news & Heq & Hsub).
    rewrite Heq in Hx. apply elem_of_app in Hx.
    destruct Hx as [Hx | Hx]; [by left | right; by apply Hsub].
Qed.

(** ** Exact-match categories *)

Lemma existsb_eqb_elem (item : string) (target : list string) :
  existsb (String.eqb item) target = true <-> item ∈ target.
Proof.
  rewrite existsb_exists. split.
  - intros (x & Hx & Heq). apply String.eqb_eq in Heq. subst x.
    by apply list_elem_of_In.
  - intros Hin. exists item. split; [by apply list_elem_of_In |].
    apply String.eqb_refl.
Qed.

Lemma push_item_strings (tolerance : option Q) (target : list string)
  (item : string) :
  push_item tolerance target item
  = if existsb (String.eqb item) target then target else target ++ [item].
Proof.
  unfold push_item. cbn [as_number string_item same_value].
  destruct (truthy_tolerance tolerance);
    by destruct (existsb (String.eqb item) target).
Qed.

Lemma push_all_strings_NoDup (tolerance : option Q) (source : list string) :
  forall target : list string,
    NoDup target -> NoDup (push_all tolerance target source).
Proof.
  unfold push_all. induction source as [| item source IH]; intros target Hnd;
    [exact Hnd |].
  cbn [foldl]. apply IH. rewrite push_item_strings.
  destruct (existsb (String.eqb item) target) eqn:Hex; [exact Hnd |].
  apply NoDup_app. repeat split; [exact Hnd | | apply NoDup_singleton].
  intros x Hx Hx'. apply list_elem_of_singleton in Hx'. subst x.
  apply existsb_eqb_elem in Hx. congruence.
Qed.

Lemma push_all_strings_present (tolerance : option Q) (source : list string) :
  forall target : list string,
    (forall x, x ∈ source -> x ∈ target) ->
    push_all tolerance target source = target.
Proof.
  unfold push_all. induction source as [| item source IH]; intros target Hall;
    [reflexivity |].
  cbn [foldl]. rewrite push_item_strings.
  assert (Hitem : existsb (String.eqb item) target = true).
  { apply existsb_eqb_elem, Hall. by left. }
  rewrite Hitem. apply IH. intros x Hx. apply Hall. by right.
Qed.

Lemma push_all_strings_covers (tolerance : option Q) (source : list string) :
  forall (target : list string) (x : string),
    x ∈ target \/ x ∈ source -> x ∈ push_all tolerance target source.
Proof.
  unfold push_all. induction source as [| item source IH]; intros target x Hx.
  - destruct Hx as [Hx | Hx]; [exact Hx | by apply not_elem_of_nil in Hx].
  - cbn [foldl]. apply IH. rewrite push_item_strings.
    destruct (existsb (String.eqb item) target) eqn:Hex.
    + destruct Hx as [Hx | Hx]; [by left |].
      apply elem_of_cons in Hx. destruct Hx as [-> | Hx]; [| by right].
      left. by apply existsb_eqb_elem.
    + destruct Hx as [Hx | Hx]; [left; apply elem_of_app; by left |].
      apply elem_of_cons in Hx. destruct Hx as [-> | Hx]; [| by right].
      left. apply elem_of_app. right. apply list_elem_of_here.
Qed.

(** Exact-match dedup: a string category never holds a value twice,
    whatever the snapshots contain. *)
Theorem string_categories_have_no_duplicates (snapshots : list Snapshot)
  (c : string_category) :
  NoDup (p_str (merge_all initial_profile snapshots) c).
Proof.
  induction snapshots as [| s l IH] using rev_ind; [apply NoDup_nil_2 |].
  rewrite merge_all_snoc. cbn [mergePaywallPatterns p_str].
  rewrite mergeArray_strings.
  eapply sublist_NoDup; [| apply sublist_take].
  by apply push_all_strings_NoDup.
Qed.

(** String categories are first come, first kept: the values stored
    before a merge stay at the head of the list in their order, and a
    category that is full is not changed by a merge. *)
Theorem string_categories_keep_their_head (p : Profile) (s : Snapshot)
  (c : string_category) :
  List.length (p_str p c) <= capacity_str c ->
  p_str p c `prefix_of` p_str (mergePaywallPatterns p s) c
  /\ (List.length (p_str p c) = capacity_str c ->
      p_str (mergePaywallPatterns p s) c = p_str p c).
Proof.
  intros Hlen. cbn [mergePaywallPatterns p_str]. rewrite mergeArray_strings.
  destruct (push_all_extends None (s_str s c) (p_str p c))
    as (news & -> & _).
  rewrite take_app_ge by exact Hlen. split.
  - by apply prefix_app_r.
  - intros ->. rewrite Nat.sub_diag. cbn [take]. apply app_nil_r.
Qed.

(** Uploading the same document again does not change any string
    category. *)
Theorem string_categories_idempotent (p : Profile) (s : Snapshot)
  (c : string_category) :
  p_str (mergePaywallPatterns (mergePaywallPatterns p s) s) c
  = p_str (mergePaywallPatterns p s) c.
Proof.
  cbn [mergePaywallPatterns p_str]. rewrite !mergeArray_strings.
  set (merged := push_all None (p_str p c) (s_str s c)).
  destruct (decide (List.length merged <= capacity_str c)) as [Hfit | Hcut].
  - rewrite (take_ge merged) by exact Hfit.
    rewrite push_all_strings_present; [by apply take_ge |].
    intros x Hx. apply push_all_strings_covers. by right.
  - destruct (push_all_extends None (s_str s c)
                (take (capacity_str c) merged)) as (news & -> & _).
    rewrite take_app_le by (rewrite length_take; lia).
    apply take_idemp.
Qed.

(** ** Tolerance dedup along a sequence of merges *)

Lemma separated_lookup (tolerance : Q) (l : list Q) :
  separated tolerance l ->
  forall (i j : nat) (x y : Q),
    i <> j -> l !! i = Some x -> l !! j = Some y -> apart tolerance x y.
Proof.
  unfold separated. induction 1 as [| a l Hl IH Ha]; intros i j x y Hij Hx Hy.
  - by rewrite lookup_nil in Hx.
  - rewrite Forall_forall in Ha.
    destruct i as [| i], j as [| j]; cbn in Hx, Hy.
    + congruence.
    + injection Hx as <-. apply Ha. by eapply list_elem_of_lookup_2.
    + injection Hy as <-. apply apart_sym, Ha.
      by eapply list_elem_of_lookup_2.
    + apply (IH i j); [lia | assumption | assumption].
Qed.


(** * Further properties of the extractor *)

(** ** Numbers of a snapshot *)

Lemma numeric_output_elem (c : numeric_category) (set : list string) (x : Q) :
  x ∈ numeric_output c set -> snapshot_keep c x = true.
Proof.
  unfold numeric_output. intros Hx. apply subseteq_take in Hx.
  unfold Num.sort_numbers in Hx. rewrite sort_by_perm in Hx.
  apply list_elem_of_In, filter_In in Hx. by destruct Hx.
Qed.

(** Every numeric list of a snapshot is sorted ascending. *)
Theorem snapshot_numbers_are_sorted (d : Dom.document) (c : numeric_category) :
  Sorted Qle (s_num (extractPaywallPatterns d) c).
Proof.
  cbn [extractPaywallPatterns s_num]. unfold numeric_output.
  apply StronglySorted_Sorted, StronglySorted_take, sort_numbers_strongly.
Qed.

(** The filters of the snapshot: font sizes and line heights are
    positive, opacities lie between 0 and 1. *)
Theorem snapshot_numbers_are_in_range (d : Dom.document) (x : Q) :
  (x ∈ s_num (extractPaywallPatterns d) fontSizes -> (0 < x)%Q)
  /\ (x ∈ s_num (extractPaywallPatterns d) lineHeights -> (0 < x)%Q)
  /\ (x ∈ s_num (extractPaywallPatterns d) opacities -> (0 <= x <= 1)%Q).
Proof.
  cbn [extractPaywallPatterns s_num].
  assert (Hpos : forall y, Num.Qlt_bool 0 y = true -> (0 < y)%Q).
  { intros y Hy. unfold Num.Qlt_bool in Hy. apply negb_true_iff in Hy.
    apply Qnot_le_lt. intros Hle. apply Qle_bool_iff in Hle. congruence. }
  split; [| split]; intros Hx; apply numeric_output_elem in Hx;
    cbn [snapshot_keep] in Hx.
  - by apply Hpos.
  - by apply Hpos.
  - apply andb_true_iff in Hx. destruct Hx as [Hlo Hhi].
    split; by apply Qle_bool_iff.
Qed.

(** ** Invariants of the working sets *)

Lemma for_matches_invariant (I : Patterns -> Prop) (ci : bool) (re : regex)
  (css : string) (body : rmatch_result -> Patterns -> Patterns) (p : Patterns) :
  (forall m q, I q -> I (body m q)) ->
  I p -> I (for_matches ci re css body p).
Proof.
  intros Hbody. unfold for_matches. revert p.
  induction (matchAll ci re css) as [| m l IH]; intros p Hp; [exact Hp |].
  cbn [foldl]. by apply IH, Hbody.
Qed.

(** Whatever the three updates of the working object preserve, the
    scan of a style text preserves. *)
Lemma extractPatternsFromCSS_invariant (I : Patterns -> Prop) :
  (forall c v q, I q -> I (add_num c v q)) ->
  (forall c v q, I q -> I (add_str c v q)) ->
  (forall name v q, I q -> I (set_css_variable name v q)) ->
  forall (css : string) (p : Patterns), I p -> I (extractPatternsFromCSS css p).
Proof.
  intros Hnum Hstr Hvar css p Hp.
  assert (Hfonts : forall names q,
             I q -> I (foldl (fun acc font => add_str fonts font acc) q names)).
  { intros names. induction names as [| n names IH]; intros q Hq; [exact Hq |].
    cbn [foldl]. by apply IH, Hstr. }
  unfold extractPatternsFromCSS. cbv zeta.
  repeat (apply for_matches_invariant;
          [intros m q Hq; first [by apply Hfonts | repeat case_match; auto] |]).
  exact Hp.
Qed.

Lemma collectPatterns_invariant (I : Patterns -> Prop) :
  (forall c v q, I q -> I (add_num c v q)) ->
  (forall c v q, I q -> I (add_str c v q)) ->
  (forall name v q, I q -> I (set_css_variable name v q)) ->
  (forall name styles q, I q -> I (set_component_if_any name styles q)) ->
  I empty_patterns ->
  forall d : Dom.document, I (collectPatterns d).
Proof.
  intros Hnum Hstr Hvar Hcomp Hempty d.
  assert (Hfold : forall (f : Dom.node -> string) (l : list Dom.node) q,
             I q ->
             I (foldl (fun acc elem => extractPatternsFromCSS (f elem) acc) q l)).
  { intros f l. induction l as [| x l IH]; intros q Hq; [exact Hq |].
    cbn [foldl]. by apply IH, extractPatternsFromCSS_invariant. }
  unfold collectPatterns, extractComponentStyles. cbv zeta.
  do 3 apply Hcomp.
  apply (Hfold (fun elem => default EmptyString (Dom.attr "style" elem))).
  by apply (Hfold Dom.inner_html).
Qed.

Lemma set_add_NoDup (v : string) (s : list string) :
  NoDup s -> NoDup (Js.set_add v s).
Proof.
  intros Hs. unfold Js.set_add.
  destruct (existsb (String.eqb v) s) eqn:Hex; [exact Hs |].
  apply NoDup_app. repeat split; [exact Hs | | apply NoDup_singleton].
  intros x Hx Hx'. apply list_elem_of_singleton in Hx'. subst x.
  apply existsb_eqb_elem in Hx. congruence.
Qed.

Lemma collectPatterns_sets (d : Dom.document) :
  sets_without_duplicates (collectPatterns d).
Proof.
  apply collectPatterns_invariant.
  - intros c v q [Hn Hs]. split; [| exact Hs]. intros c'.
    cbn [add_num num_set]. case_decide; [by apply set_add_NoDup | apply Hn].
  - intros c v q [Hn Hs]. split; [exact Hn |]. intros c'.
    cbn [add_str str_set]. case_decide; [by apply set_add_NoDup | apply Hs].
  - intros name v q Hq. exact Hq.
  - intros name styles q Hq. unfold set_component_if_any.
    by destruct (Nat.ltb 0 (size styles)).
  - split; intros c; apply NoDup_nil_2.
Qed.

(** The string lists of a snapshot hold no value twice. *)
Theorem snapshot_strings_have_no_duplicates (d : Dom.document)
  (c : string_category) :
  NoDup (s_str (extractPaywallPatterns d) c).
Proof.
  cbn [extractPaywallPatterns s_str]. unfold string_output.
  eapply sublist_NoDup; [| apply sublist_take].
  apply collectPatterns_sets.
Qed.

Lemma push_all_strings_fresh (source : list string) :
  forall target : list string,
    NoDup (target ++ source) ->
    push_all None target source = target ++ source.
Proof.
  unfold push_all. induction source as [| item source IH]; intros target Hnd.
  - by rewrite app_nil_r.
  - cbn [foldl]. rewrite push_item_new.
    + rewrite IH; [by rewrite <- app_assoc |].
      by rewrite <- app_assoc.
    + apply NoDup_app in Hnd. destruct Hnd as (_ & Hdisj & _).
      intros Hin. apply (Hdisj item Hin). by left.
Qed.

(** The first upload is stored as it is: merging the snapshot of any
    document into the empty profile leaves, in every string category,
    exactly the list of the snapshot. *)
Theorem first_upload_stores_snapshot_strings (d : Dom.document)
  (c : string_category) :
  p_str (mergePaywallPatterns initial_profile (extractPaywallPatterns d)) c
  = s_str (extractPaywallPatterns d) c.
Proof.
  cbn [mergePaywallPatterns p_str initial_profile].
  rewrite mergeArray_strings, push_all_strings_fresh.
  - cbn [app]. apply take_ge.
    cbn [extractPaywallPatterns s_str]. unfold string_output.
    rewrite length_take. destruct c; cbn [snapshot_cap_str capacity_str]; lia.
  - cbn [app extractPaywallPatterns s_str]. unfold string_output.
    eapply sublist_NoDup; [| apply sublist_take].
    apply collectPatterns_sets.
Qed.

(** ** Custom properties *)

Lemma collectPatterns_common_keys (d : Dom.document) :
  only_css_variables (collectPatterns d).
Proof.
  apply collectPatterns_invariant; try (intros; assumption).
  - intros name v q Hq k Hk. cbn [set_css_variable w_commonStyles].
    rewrite lookup_insert_ne by congruence. by apply Hq.
  - intros name styles q Hq. unfold set_component_if_any.
    by destruct (Nat.ltb 0 (size styles)).
  - intros k _. apply lookup_empty.
Qed.

(** [commonStyles] is merged shallowly.  Its only key is
    [cssVariables]: a document that declares custom properties
    replaces the stored map of variables by its own, so variables that
    only earlier documents declared are gone; a document without
    custom properties leaves [commonStyles] as it is. *)
Theorem common_styles_are_replaced_shallowly (p : Profile) (d : Dom.document) :
  let s := extractPaywallPatterns d in
  (forall k : string,
      k <> "cssVariables" ->
      commonStyles (mergePaywallPatterns p s) !! k = commonStyles p !! k)
  /\ (forall m : gmap string string,
         s_commonStyles s !! "cssVariables" = Some m ->
         commonStyles (mergePaywallPatterns p s) !! "cssVariables" = Some m)
  /\ (s_commonStyles s !! "cssVariables" = None ->
      commonStyles (mergePaywallPatterns p s) = commonStyles p).
Proof.
  intros s. subst s.
  cbn [mergePaywallPatterns commonStyles extractPaywallPatterns s_commonStyles].
  unfold object_assign.
  pose proof (collectPatterns_common_keys d) as Hkeys.
  split; [| split].
  - intros k Hk. apply lookup_union_r. by apply Hkeys.
  - intros m Hm. by apply lookup_union_Some_l.
  - intros Hnone. apply map_eq. intros k. apply lookup_union_r.
    destruct (decide (k = "cssVariables")) as [-> | Hk];
      [exact Hnone | by apply Hkeys].
Qed.

(** ** Shape of the component styles *)

Lemma set_add_not_nil (v : string) (s : list string) : Js.set_add v s <> [].
Proof.
  unfold Js.set_add. destruct (existsb (String.eqb v) s) eqn:Hex.
  - intros ->. discriminate.
  - intros Heq. by apply app_nil in Heq as [_ ?].
Qed.

Lemma styles_add_well_formed (properties : list string) (prop v : string)
  (styles : gmap string (list string)) :
  prop ∈ properties ->
  well_formed_styles properties styles ->
  well_formed_styles properties (styles_add prop v styles).
Proof.
  intros Hprop Hstyles prop' l. unfold styles_add.
  destruct (decide (prop = prop')) as [<- | Hne].
  - rewrite lookup_insert_eq. intros [= <-].
    split; [exact Hprop |]. split; [apply set_add_not_nil |].
    apply set_add_NoDup.
    destruct (styles !! prop) as [l0 |] eqn:Hl0; cbn [default];
      [by apply (Hstyles prop l0) | apply NoDup_nil_2].
  - rewrite lookup_insert_ne by exact Hne. apply Hstyles.
Qed.

Lemma extractSelectorStyles_well_formed (d : Dom.document) (selector : string)
  (properties : list string) (prop : string) (l : list string) :
  extractSelectorStyles d selector properties !! prop = Some l ->
  prop ∈ properties /\ l <> [] /\ NoDup l /\ List.length l <= 5.
Proof.
  unfold extractSelectorStyles. cbv zeta. rewrite lookup_fmap.
  match goal with
  | |- context [foldl ?f ∅ ?ms] =>
      assert (Hwf : well_formed_styles properties (foldl f ∅ ms))
  end.
  { match goal with |- context [matchAll ?ci ?re ?txt] =>
      generalize (matchAll ci re txt) end.
    intros ms.
    assert (Hempty : well_formed_styles properties ∅)
      by (intros prop' l'; by rewrite lookup_empty).
    revert Hempty. generalize (∅ : gmap string (list string)) as styles.
    induction ms as [| m ms IH]; intros styles Hstyles; [exact Hstyles |].
    cbn [foldl]. apply IH.
    assert (Hinner : forall (props : list string) st,
               props ⊆ properties -> well_formed_styles properties st ->
               well_formed_styles properties
                 (foldl (fun styles0 prop0 =>
                           match exec true (propRegex prop0) (group 2 m) with
                           | Some propMatch =>
                               styles_add prop0 (Js.trim (group 1 propMatch))
                                 styles0
                           | None => styles0
                           end) st props)).
    { intros props. induction props as [| q props IHp]; intros st Hsub Hst;
        [exact Hst |].
      cbn [foldl]. apply IHp.
      - intros x Hx. apply Hsub. by right.
      - destruct (exec true (propRegex q) (group 2 m)); [| exact Hst].
        apply styles_add_well_formed; [| exact Hst].
        apply Hsub. by left. }
    by apply Hinner. }
  intros Hl. apply fmap_Some in Hl. destruct Hl as (l0 & Hl0 & ->).
  destruct (Hwf prop l0 Hl0) as (Hprop & Hne & Hnd).
  split; [exact Hprop |]. split.
  - destruct l0; [done | discriminate].
  - split; [| rewrite length_take; lia].
    eapply sublist_NoDup; [exact Hnd | apply sublist_take].
Qed.

Lemma collectPatterns_components (d : Dom.document) :
  w_componentStyles (collectPatterns d)
  = w_componentStyles (extractComponentStyles d empty_patterns).
Proof.
  unfold collectPatterns. cbv zeta.
  assert (Hfold : forall (f : Dom.node -> string) (l : list Dom.node) q,
             w_componentStyles
               (foldl (fun acc elem => extractPatternsFromCSS (f elem) acc) q l)
             = w_componentStyles q).
  { intros f l. induction l as [| x l IH]; intros q; [reflexivity |].
    cbn [foldl]. by rewrite IH, extractPatternsFromCSS_components. }
  match goal with
  | |- w_componentStyles (extractComponentStyles d ?q) = _ =>
      assert (Hq : w_componentStyles q = ∅)
  end.
  { rewrite (Hfold (fun elem => default EmptyString (Dom.attr "style" elem))).
    by rewrite (Hfold Dom.inner_html). }
  unfold extractComponentStyles, set_component_if_any. cbv zeta.
  repeat case_match; cbn [set_component w_componentStyles]; by rewrite ?Hq.
Qed.

(** [componentStyles] of a snapshot has entries only for buttons,
    cards and inputs; an entry is never an empty object, it only has
    properties of the allow-list of its archetype, and every list of
    values is non-empty, without duplicates and at most 5 long. *)
Theorem component_styles_shape (d : Dom.document) (a : string)
  (m : gmap string (list string)) :
  s_componentStyles (extractPaywallPatterns d) !! a = Some m ->
  exists (selector : string) (properties : list string),
    (a, selector, properties) ∈ archetypes
    /\ m = extractSelectorStyles d selector properties
    /\ m <> ∅
    /\ (forall prop l,
           m !! prop = Some l ->
           prop ∈ properties /\ l <> [] /\ NoDup l /\ List.length l <= 5).
Proof.
  cbn [extractPaywallPatterns s_componentStyles].
  rewrite collectPatterns_components.
  unfold extractComponentStyles, set_component_if_any. cbv zeta.
  assert (Hgood : forall selector properties,
             (a, selector, properties) ∈ archetypes ->
             Nat.ltb 0 (size (extractSelectorStyles d selector properties)) = true ->
             m = extractSelectorStyles d selector properties ->
             exists selector properties,
               (a, selector, properties) ∈ archetypes
               /\ m = extractSelectorStyles d selector properties
               /\ m <> ∅
               /\ (forall prop l,
                      m !! prop = Some l ->
                      prop ∈ properties /\ l <> [] /\ NoDup l
                      /\ List.length l <= 5)).
  { intros selector properties Hin Hsize ->. exists selector, properties.
    split; [exact Hin |]. split; [reflexivity |]. split.
    - intros Hempty. rewrite Hempty, map_size_empty in Hsize. discriminate.
    - intros prop l. apply extractSelectorStyles_well_formed. }
  unfold archetypes in Hgood.
  destruct (Nat.ltb 0 (size (extractSelectorStyles d button_selector
                               button_properties))) eqn:Hb;
    destruct (Nat.ltb 0 (size (extractSelectorStyles d card_selector
                                 card_properties))) eqn:Hc;
    destruct (Nat.ltb 0 (size (extractSelectorStyles d input_selector
                                 input_properties))) eqn:Hi;
    cbn [set_component w_componentStyles empty_patterns]; intros Hm;
    repeat match type of Hm with
           | <[?k := _]> _ !! a = Some _ =>
               destruct (decide (k = a)) as [<- | ?];
               [rewrite lookup_insert_eq in Hm; injection Hm as <-;
                refine (Hgood _ _ _ _ eq_refl);
                [repeat first [apply list_elem_of_here
                              | apply list_elem_of_further]
                | assumption]
               | rewrite lookup_insert_ne in Hm by assumption]
           end;
    try (rewrite lookup_empty in Hm; discriminate).
Qed.

(** The full colours category stays as it is when one more colour
    arrives. *)
Lemma string_categories_keep_their_head_witness :
  let p := merge_all initial_profile (take 40 sixty_snapshots) in
  let s := extractPaywallPatterns (style_doc "p{color:#fff}") in
  List.length (p_str p colors) <= capacity_str colors
  /\ List.length (p_str p colors) = capacity_str colors
  /\ p_str p colors `prefix_of` p_str (mergePaywallPatterns p s) colors
  /\ p_str (mergePaywallPatterns p s) colors = p_str p colors.
Proof.
  intros p s.
  assert (Hfull : List.length (p_str p colors) = capacity_str colors)
    by (vm_compute; reflexivity).
  assert (Hlen : List.length (p_str p colors) <= capacity_str colors)
    by (rewrite Hfull; apply Nat.le_refl).
  pose proof (string_categories_keep_their_head p s colors Hlen) as [Hpre Heq].
  split; [exact Hlen | split; [exact Hfull | split; [exact Hpre |]]].
  exact (Heq Hfull).
Defined.


(** The button rule of the blue button. *)
Lemma component_styles_shape_witness :
  let m := default ∅ (s_componentStyles blue_button !! "buttons") in
  s_componentStyles blue_button !! "buttons" = Some m
  /\ exists (selector : string) (properties : list string),
      ("buttons", selector, properties) ∈ archetypes
      /\ m = extractSelectorStyles
               (style_doc "button, .button, [class*='btn'] { color: blue }")
               selector properties
      /\ m <> ∅
      /\ (forall prop l,
             m !! prop = Some l ->
             prop ∈ properties /\ l <> [] /\ NoDup l /\ List.length l <= 5).
Proof.
  intros m.
  assert (H1 : s_componentStyles blue_button !! "buttons" = Some m)
    by (vm_compute; reflexivity).
  split; [exact H1 |].
  exact (component_styles_shape
           (style_doc "button, .button, [class*='btn'] { color: blue }")
           "buttons" m H1).
Defined.

(** ** The sequence of style texts *)

Lemma extractComponentStyles_sets (d : Dom.document) (q : Patterns) :
  num_set (extractComponentStyles d q) = num_set q
  /\ str_set (extractComponentStyles d q) = str_set q
  /\ w_commonStyles (extractComponentStyles d q) = w_commonStyles q.
Proof.
  unfold extractComponentStyles, set_component_if_any. cbv zeta.
  repeat case_match; by cbn.
Qed.

Lemma collectPatterns_texts (d : Dom.document) :
  num_set (collectPatterns d) = num_set (scan_texts (css_texts d))
  /\ str_set (collectPatterns d) = str_set (scan_texts (css_texts d))
  /\ w_commonStyles (collectPatterns d) = w_commonStyles (scan_texts (css_texts d)).
Proof.
  unfold collectPatterns. cbv zeta.
  destruct (extractComponentStyles_sets d
    (foldl (fun acc elem =>
              extractPatternsFromCSS
                (default EmptyString (Dom.attr "style" elem)) acc)
       (foldl (fun acc elem => extractPatternsFromCSS (Dom.inner_html elem) acc)
          empty_patterns (Dom.select d [Dom.STag "style"]))
       (Dom.select d [Dom.SHasAttr "style"]))) as (-> & -> & ->).
  unfold scan_texts, css_texts. rewrite foldl_app, !foldl_fmap.
  by repeat split.
Qed.



(** * Properties of the upload handlers *)

Lemma upload_one_fold (files : list (string * Dom.document)) :
  forall (p : Profile) (results : list FileResult),
    fst (foldl upload_one (p, results) files)
    = merge_all p (map (fun f => extractPaywallPatterns (snd f)) files)
    /\ snd (foldl upload_one (p, results) files)
       = results
         ++ map (fun f => {| filename := fst f; success := true;
                             patterns := extractPaywallPatterns (snd f) |})
                files.
Proof.
  induction files as [| f files IH]; intros p results.
  - split; [reflexivity | by rewrite app_nil_r].
  - cbn [foldl map]. unfold upload_one at 2 4. cbn [fst snd].
    destruct (IH (mergePaywallPatterns p (extractPaywallPatterns (snd f)))
                (results ++ [{| filename := fst f; success := true;
                                patterns := extractPaywallPatterns (snd f) |}]))
      as [-> ->].
    split; [reflexivity | by rewrite <- app_assoc].
Qed.

(** A batch upload changes the profile exactly as the same files
    uploaded one by one; it reports every file as analysed and raises
    the count by the number of files.  An empty batch is refused with
    status 400 and leaves the profile alone. *)
Theorem batch_upload_is_repeated_upload
  (files : list (string * Dom.document)) (p : Profile) :
  fst (upload_paywalls files p)
  = foldl (fun q f => fst (upload_paywall (Some f) q)) p files
  /\ (files = [] ->
      upload_paywalls files p = (p, BatchError 400 "No files uploaded"))
  /\ (files <> [] ->
      exists results summary,
        snd (upload_paywalls files p)
        = BatchSuccess
            ("Analyzed " ++ pretty (List.length files) ++ " of "
             ++ pretty (List.length files) ++ " paywalls")
            results (count p + List.length files) summary
        /\ map filename results = map fst files
        /\ Forall (fun r => success r = true) results).
Proof.
  assert (Hsingle : forall l q,
             foldl (fun q f => fst (upload_paywall (Some f) q)) q l
             = merge_all q (map (fun f => extractPaywallPatterns (snd f)) l)).
  { induction l as [| [name d] l IH]; intros q; [reflexivity |].
    cbn [foldl map]. rewrite IH. reflexivity. }
  split; [| split].
  - rewrite Hsingle. destruct files as [| f files]; [reflexivity |].
    unfold upload_paywalls. cbv zeta. cbn [fst].
    by destruct (upload_one_fold (f :: files) p []) as [-> _].
  - intros ->. reflexivity.
  - intros Hne. destruct files as [| f files]; [done |].
    unfold upload_paywalls. cbv zeta. cbn [snd].
    destruct (upload_one_fold (f :: files) p []) as [Hp Hr].
    rewrite Hp, Hr. cbn [app].
    set (results := map (fun f0 => {| filename := fst f0; success := true;
                           patterns := extractPaywallPatterns (snd f0) |})
                        (f :: files)).
    assert (Hall : Forall (fun r => success r = true) results).
    { subst results. apply Forall_fmap, Forall_forall. by intros. }
    assert (Hfilter : List.filter success results = results).
    { clear -Hall. induction Hall as [| r l Hr Hl IH]; [reflexivity |].
      cbn [List.filter]. by rewrite Hr, IH. }
    exists results, (summary_of (merge_all p
                       (map (fun f0 => extractPaywallPatterns (snd f0))
                            (f :: files)))).
    split; [| split; [| exact Hall]].
    + rewrite Hfilter, merge_all_count.
      subst results. by rewrite !length_map.
    + subst results. rewrite <- list_fmap_compose. reflexivity.
Qed.

Lemma batch_upload_is_repeated_upload_witness :
  let files := [("a.html", style_doc "p{padding:10px}");
                ("b.html", unstyled_page)] in
  files <> []
  /\ exists results summary,
      snd (upload_paywalls files initial_profile)
      = BatchSuccess "Analyzed 2 of 2 paywalls" results 2 summary
      /\ map filename results = ["a.html"; "b.html"]
      /\ Forall (fun r => success r = true) results.
Proof.
  intros files.
  assert (Hne : files <> []) by discriminate.
  split; [exact Hne |].
  exact (proj2 (proj2 (batch_upload_is_repeated_upload files initial_profile))
           Hne).
Defined.

(** After an upload no number of the response's summary exceeds the
    capacity of its category, whatever was stored before. *)
Theorem upload_summary_within_capacity (file : string * Dom.document)
  (p : Profile) :
  exists message extracted summary,
    snd (upload_paywall (Some file) p)
    = UploadSuccess message extracted (count p + 1) summary
    /\ sum_colors summary <= 40 /\ sum_fonts summary <= 20
    /\ sum_fontSizes summary <= 25 /\ sum_fontWeights summary <= 12
    /\ sum_spacing summary <= 30 /\ sum_borderRadius summary <= 20
    /\ sum_shadows summary <= 20 /\ sum_borders summary <= 20
    /\ sum_transitions summary <= 20 /\ sum_gaps summary <= 20
    /\ sum_breakpoints summary <= 15.
Proof.
  destruct file as [name d]. cbn [upload_paywall snd].
  eexists _, _, _. split; [reflexivity |].
  destruct (merge_within_capacity p (extractPaywallPatterns d)) as [Hn Hs].
  cbn [summary_of sum_colors sum_fonts sum_fontSizes sum_fontWeights
       sum_spacing sum_borderRadius sum_shadows sum_borders sum_transitions
       sum_gaps sum_breakpoints].
  repeat split;
    first [apply (Hs colors) | apply (Hs fonts) | apply (Hn fontSizes)
          | apply (Hn fontWeights) | apply (Hn spacing)
          | apply (Hn borderRadius) | apply (Hs shadows) | apply (Hs borders)
          | apply (Hs transitions) | apply (Hn gaps) | apply (Hn breakpoints)].
Qed.

(** * Properties of the Figma helpers *)

Module FigmaProps.
Import Figma.

(** Induction on a node tree: a property holds of a node when it holds
    of its children. *)
Lemma Node_induction (P : Node -> Prop) :
  (forall n, Forall P (default [] (children n)) -> P n) ->
  forall n, P n.
Proof.
  intros Hstep. fix IH 1. intros [i a t b vx vy vw vh f st ch cr sk sw ef [cs |]].
  - apply Hstep. cbn [children default].
    induction cs as [| c cs IHcs]; constructor; [apply IH | exact IHcs].
  - apply Hstep. constructor.
Qed.

Lemma find_app {A} (f : A -> bool) (l k : list A) :
  List.find f (l ++ k)
  = match List.find f l with Some x => Some x | None => List.find f k end.
Proof.
  induction l as [| x l IH]; [reflexivity |].
  cbn [app List.find]. by destruct (f x).
Qed.

(** [findNodeById] returns the first node with the identifier in
    document order (parents before children, siblings left to right),
    and [null] exactly when no node of the tree has it. *)
Theorem findNodeById_is_first_match (root : Node) (targetId : string) :
  findNodeById root targetId = List.find (has_id targetId) (preorder root)
  /\ (forall found, findNodeById root targetId = Some found ->
                    id found = Some targetId /\ found ∈ preorder root)
  /\ (findNodeById root targetId = None <->
      forall n, n ∈ preorder root -> id n <> Some targetId).
Proof.
  assert (Hfind : forall n,
             findNodeById n targetId = List.find (has_id targetId) (preorder n)).
  { induction n as [n IH] using Node_induction.
    destruct n as [i a t b vx vy vw vh f st ch cr sk sw ef [cs |]];
      cbn [findNodeById preorder List.find];
      destruct (has_id targetId (MkNode i a t b vx vy vw vh f st ch cr sk sw ef _)) eqn:Hid;
      try reflexivity.
    cbn [children default] in IH.
    induction cs as [| c cs IHcs]; [reflexivity |].
    apply Forall_cons in IH. destruct IH as [Hc Hcs].
    cbn [flat_map]. rewrite find_app, <- Hc.
    destruct (findNodeById c targetId); [reflexivity | by apply IHcs]. }
  assert (Hid : forall n, has_id targetId n = true <-> id n = Some targetId).
  { intros n. unfold has_id. destruct (id n) as [i |]; [| done].
    rewrite String.eqb_eq. split; [by intros -> | by intros [= ->]]. }
  split; [apply Hfind | split].
  - intros found. rewrite Hfind. intros Hfound.
    apply find_some in Hfound. destruct Hfound as [Hin Hhas].
    split; [by apply Hid | by apply list_elem_of_In].
  - rewrite Hfind. split.
    + intros Hnone n Hn Heq. apply Hid in Heq.
      apply list_elem_of_In in Hn.
      pose proof (find_none _ _ Hnone n Hn). congruence.
    + intros Hall.
      destruct (List.find (has_id targetId) (preorder root)) as [m |] eqn:Hm;
        [| reflexivity].
      apply find_some in Hm. destruct Hm as [Hin Hhas].
      exfalso. apply (Hall m); [by apply list_elem_of_In | by apply Hid].
Qed.

(** [findTopLevelNode] only ever returns a direct child of the first
    page: the first frame or component among them if there is one,
    otherwise the first child; it returns [null] exactly when there is
    no page or the first page has no children. *)
Theorem findTopLevelNode_is_child_of_first_page (document : Node) :
  (forall found,
      findTopLevelNode document = Some found ->
      exists page pages kids,
        children document = Some (page :: pages)
        /\ children page = Some kids
        /\ found ∈ kids
        /\ (forall k, k ∈ kids -> frame_like k = true ->
                      List.find frame_like kids = Some found)
        /\ ((forall k, k ∈ kids -> frame_like k = false) ->
            head kids = Some found))
  /\ (findTopLevelNode document = None <->
      match children document with
      | Some (page :: _) =>
          children page = None \/ children page = Some []
      | _ => True
      end).
Proof.
  unfold findTopLevelNode.
  destruct (children document) as [[| page pages] |] eqn:Hdoc;
    try (split; [discriminate | done]).
  destruct (children page) as [[| first rest] |] eqn:Hpage.
  - split; [discriminate |]. split; [by right | done].
  - change (fun child => type_is child "FRAME" || type_is child "COMPONENT")
      with frame_like.
    split.
    + intros found Hfound. exists page, pages, (first :: rest).
      split; [reflexivity |]. split; [exact Hpage |].
      destruct (List.find frame_like (first :: rest)) as [frame |] eqn:Hfind.
      * injection Hfound as <-. apply find_some in Hfind as Hin.
        destruct Hin as [Hin Hframe].
        split; [by apply list_elem_of_In |]. split; [done |].
        intros Hnone. apply list_elem_of_In in Hin.
        rewrite (Hnone frame Hin) in Hframe. discriminate.
      * injection Hfound as <-. split; [apply list_elem_of_here |]. split.
        -- intros k Hk Hframe. apply list_elem_of_In in Hk.
           pose proof (find_none _ _ Hfind k Hk). congruence.
        -- done.
    + split; [| by intros [? | ?]].
      by destruct (List.find frame_like (first :: rest)).
  - split; [discriminate |]. split; [by left | done].
Qed.

Lemma string_or_not_empty (v : option string) (d : string) :
  d <> EmptyString -> string_or v d <> EmptyString.
Proof.
  intros Hd. unfold string_or. destruct v as [s |]; [| exact Hd].
  destruct (String.eqb s EmptyString) eqn:Hs; [exact Hd |].
  by apply String.eqb_neq.
Qed.

Lemma type_is_true (n : Node) (t : string) :
  type_is n t = true -> type n = Some t.
Proof.
  unfold type_is. destruct (type n) as [s |]; [| discriminate].
  rewrite String.eqb_eq. by intros ->.
Qed.

Lemma push_section_extends (n : Node) (depth : nat) (sections : list Section) :
  depth <= 6 ->
  exists news,
    push_section n depth sections = sections ++ news
    /\ Forall (section_within (Nat.max 1 depth) (Nat.max depth 5)) news.
Proof.
  intros Hdepth. unfold push_section.
  destruct (isSection n && Nat.leb 1 depth && isMajorSection n) eqn:Hpush.
  - exists [section_of n depth sections]. split; [reflexivity |].
    apply andb_true_iff in Hpush. destruct Hpush as [Hpush _].
    apply andb_true_iff in Hpush. destruct Hpush as [Hsec Hone].
    apply Nat.leb_le in Hone.
    constructor; [| constructor]. split; [| split].
    + unfold isSection in Hsec. cbn [section_of sec_type].
      apply orb_true_iff in Hsec. destruct Hsec as [Hsec | Hsec];
        [apply orb_true_iff in Hsec; destruct Hsec as [Hsec | Hsec] |];
        apply type_is_true in Hsec; rewrite Hsec;
        repeat first [apply list_elem_of_here | apply list_elem_of_further].
    + cbn [section_of sec_depth]. lia.
    + cbn [section_of sec_name]. by apply string_or_not_empty.
  - exists []. split; [by rewrite app_nil_r | constructor].
Qed.

Lemma identifySections_extends (n : Node) :
  forall (depth : nat) (sections : list Section),
  exists news,
    identifySections n depth sections = sections ++ news
    /\ Forall (section_within (Nat.max 1 depth) (Nat.max depth 5)) news.
Proof.
  induction n as [n IH] using Node_induction. intros depth sections.
  destruct n as [i a t b vx vy vw vh f st ch cr sk sw ef cs]. cbn [identifySections].
  destruct (Nat.ltb_spec 6 depth) as [Hdeep | Hdepth].
  { exists []. split; [by rewrite app_nil_r | constructor]. }
  destruct (push_section_extends (MkNode i a t b vx vy vw vh f st ch cr sk sw ef cs) depth
              sections Hdepth) as (own & -> & Hown).
  destruct cs as [cs |]; [| by exists own].
  destruct (Nat.ltb_spec depth 5) as [Hlt | Hge]; [| by exists own].
  cbn [children default from_option Datatypes.id] in IH.
  revert own Hown.
  induction IH as [| c l Hc Hl IHcs]; intros own Hown; [by exists own |].
  destruct (Hc (depth + 1) (sections ++ own)) as (news & -> & Hnews).
  destruct (IHcs (own ++ news)) as (rest & Hrest & Hgood).
  - apply Forall_app. split; [exact Hown |].
    eapply Forall_impl; [exact Hnews |].
    intros s (Ht & Hd & Hn). split; [exact Ht | split; [lia | exact Hn]].
  - exists rest. split; [| exact Hgood].
    rewrite <- Hrest. by rewrite <- app_assoc.
Qed.

(** [identifySections] only adds to the list it is given.  Called on
    the root of a design, it returns frames, components and groups that
    lie 1 to 5 levels below the root, each with a name that is not
    empty; the root itself is never a section. *)
Theorem identifySections_depth_and_type (root : Node) :
  (forall depth sections,
      sections `prefix_of` identifySections root depth sections)
  /\ Forall (section_within 1 5) (identifySections root 0 []).
Proof.
  split.
  - intros depth sections.
    destruct (identifySections_extends root depth sections) as (news & -> & _).
    by apply prefix_app_r.
  - destruct (identifySections_extends root 0 []) as (news & -> & Hnews).
    exact Hnews.
Qed.

Lemma visible_child (n c : Node) (cs : list Node) :
  isStatusBarElement n = false -> children n = Some cs -> c ∈ cs ->
  visible c ⊆ visible n.
Proof.
  intros Hbar Hcs Hc m Hm.
  destruct n as [i a t b vx vy vw vh f st ch cr sk sw ef cs']. cbn [children] in Hcs. subst cs'.
  cbn [visible]. rewrite Hbar. right.
  apply list_elem_of_In, in_flat_map. exists c.
  split; by apply list_elem_of_In.
Qed.

Lemma findImageNodes_bounded (n : Node) :
  forall (maxNodes : Z) (depth : nat),
    (Z.of_nat (List.length (findImageNodes n maxNodes depth))
     <= Z.max 1 maxNodes)%Z
    /\ Forall (image_from n) (findImageNodes n maxNodes depth).
Proof.
  induction n as [n IH] using Node_induction. intros maxNodes depth.
  destruct n as [i a t b vx vy vw vh f st ch cr sk sw ef cs]. cbn [findImageNodes].
  destruct (Nat.ltb 8 depth); [split; [cbn; lia | constructor] |].
  cbn [children] in IH.
  set (this := MkNode i a t b vx vy vw vh f st ch cr sk sw ef cs) in *.
  destruct (isStatusBarElement this) eqn:Hbar; [split; [cbn; lia | constructor] |].
  set (own := if isImageNode this && truthy_string (id this)
              then [image_of this] else []).
  assert (Hown : (Z.of_nat (List.length own) <= 1)%Z
                 /\ Forall (image_from this) own).
  { subst own. destruct (isImageNode this && truthy_string (id this)) eqn:Himg.
    - split; [cbn; lia |]. constructor; [| constructor].
      apply andb_true_iff in Himg. destruct Himg as [Himg Hid].
      exists this. split; [| by repeat split].
      subst this. cbn [visible]. rewrite Hbar. apply list_elem_of_here.
    - split; [cbn; lia | constructor]. }
  destruct Hown as [Hlen Hfrom].
  destruct cs as [cs |]; [| split; [lia | exact Hfrom]].
  destruct (Z.ltb_spec (Z.of_nat (List.length own)) maxNodes) as [Hroom | Hfull];
    cbn [andb]; [| split; [lia | exact Hfrom]].
  destruct (Nat.ltb depth 8); [| split; [lia | exact Hfrom]].
  cbn [default from_option Datatypes.id] in IH.
  assert (Hsub : forall c, c ∈ cs -> visible c ⊆ visible this).
  { intros c Hc. by eapply visible_child. }
  clearbody own this. clear Hlen. revert own Hroom Hfrom Hsub.
  induction IH as [| c l Hc Hl IHcs]; intros own Hroom Hfrom Hsub;
    cbv beta iota fix zeta.
  - split; [lia | exact Hfrom].
  - destruct (Hc (maxNodes - Z.of_nat (List.length own))%Z (depth + 1))
      as [Hclen Hcfrom].
    set (more := findImageNodes c (maxNodes - Z.of_nat (List.length own))
                   (depth + 1)) in *.
    assert (Hall : Forall (image_from this) (own ++ more)).
    { apply Forall_app. split; [exact Hfrom |].
      eapply Forall_impl; [exact Hcfrom |].
      intros e (m & Hm & He). exists m. split; [| exact He].
      apply (Hsub c); [apply list_elem_of_here | exact Hm]. }
    assert (Hlen : (Z.of_nat (List.length (own ++ more)) <= maxNodes)%Z)
      by (rewrite length_app; lia).
    destruct (Z.leb_spec maxNodes (Z.of_nat (List.length (own ++ more))))
      as [Hstop | Hgo].
    + split; [lia | exact Hall].
    + apply IHcs; [exact Hgo | exact Hall |].
      intros c' Hc'. apply Hsub. by apply list_elem_of_further.
Qed.

(** [findImageNodes] respects its limit: it returns at most [maxNodes]
    entries (one at most when [maxNodes] is below 1).  Every entry is
    the record of an image node that has an identifier, and neither a
    status-bar element nor anything inside one is ever returned. *)
Theorem findImageNodes_limit_and_origin (root : Node) (maxNodes : Z)
  (depth : nat) :
  (Z.of_nat (List.length (findImageNodes root maxNodes depth))
   <= Z.max 1 maxNodes)%Z
  /\ (forall e, e ∈ findImageNodes root maxNodes depth ->
                exists n, n ∈ visible root /\ e = image_of n
                          /\ isImageNode n = true
                          /\ truthy_string (id n) = true)
  /\ (forall n, n ∈ visible root -> isStatusBarElement n = false)
  /\ (isStatusBarElement root = true ->
      findImageNodes root maxNodes depth = []).
Proof.
  destruct (findImageNodes_bounded root maxNodes depth) as [Hlen Hfrom].
  split; [exact Hlen | split; [| split]].
  - intros e He. rewrite Forall_forall in Hfrom. by apply Hfrom.
  - clear. induction root as [n IH] using Node_induction. intros m Hm.
    destruct n as [i a t b vx vy vw vh f st ch cr sk sw ef cs]. cbn [visible] in Hm.
    destruct (isStatusBarElement (MkNode i a t b vx vy vw vh f st ch cr sk sw ef cs)) eqn:Hbar;
      [by apply not_elem_of_nil in Hm |].
    apply elem_of_cons in Hm. destruct Hm as [-> | Hm]; [exact Hbar |].
    destruct cs as [cs |]; [| by apply not_elem_of_nil in Hm].
    cbn [children default] in IH.
    apply list_elem_of_In, in_flat_map in Hm. destruct Hm as (c & Hc & Hm).
    rewrite Forall_forall in IH.
    apply (IH c); by apply list_elem_of_In.
  - intros Hbar. destruct root as [i a t b vx vy vw vh f st ch cr sk sw ef cs].
    cbn [findImageNodes]. rewrite Hbar. by destruct (Nat.ltb 8 depth).
Qed.

(** The sample file: the logo and the button are found, the wifi icon
    of the status bar is not; with a limit of 1 only the logo is
    returned. *)
Example findImageNodes_sample :
  map img_name (findImageNodes sample_document 20 0) = ["Logo"; "Buy button"]
  /\ map img_name (findImageNodes sample_document 1 0) = ["Logo"]
  /\ map sec_name (identifySections sample_document 0 [])
     = ["Hero"; "Footer"]
  /\ (name <$> findTopLevelNode sample_document) = Some (Some "Paywall")
  /\ (name <$> findNodeById sample_document "1:6") = Some (Some "Buy button")
  /\ findNodeById sample_document "9:9" = None.
Proof. vm_compute. repeat split; reflexivity. Qed.

(** The loop for the largest node keeps the first node of largest area
    among those with a usable width and height. *)
Lemma foldl_larger (l : list Node) (best : option Node * Z) :
  (snd best <= snd (foldl larger best l))%Z
  /\ (foldl larger best l = best
      \/ exists n, fst (foldl larger best l) = Some n /\ n ∈ l
                   /\ measurable n /\ snd (foldl larger best l) = area n)
  /\ (forall c, c ∈ l -> measurable c ->
                (area c <= snd (foldl larger best l))%Z).
Proof.
  revert best. induction l as [| x l IH]; intros best; cbn [foldl].
  - split; [lia |]. split; [by left |]. intros c Hc. by apply elem_of_nil in Hc.
  - destruct (IH (larger best x)) as (Hle & Hres & Hmax).
    assert (Hstep : (snd best <= snd (larger best x))%Z
                    /\ (larger best x = best
                        \/ (larger best x = (Some x, area x) /\ measurable x))
                    /\ (measurable x -> (area x <= snd (larger best x))%Z)).
    { unfold larger, measurable, area.
      destruct (Z.ltb_spec (snd best)
                  (dim_width (extractNodeDimensions x)
                   * dim_height (extractNodeDimensions x))) as [Hlt | Hge];
        cbn [andb].
      - destruct (Z.ltb_spec 0 (dim_width (extractNodeDimensions x)))
          as [Hw | Hw]; cbn [andb].
        + destruct (Z.ltb_spec 0 (dim_height (extractNodeDimensions x)))
            as [Hh | Hh]; cbn [snd].
          * split; [lia |]. split; [by right | lia].
          * split; [lia |]. split; [by left | lia].
        + split; [lia |]. split; [by left | lia].
      - split; [lia |]. split; [by left | lia]. }
    destruct Hstep as (Hle' & Hres' & Hmax').
    split; [lia |]. split.
    + destruct Hres as [Heq | (n & Hn & Hin & Hm & Ha)].
      * rewrite Heq. destruct Hres' as [Hb | [Hb Hm]]; [by left |].
        right. exists x. rewrite Hb. cbn [fst snd].
        split; [done |]. split; [apply list_elem_of_here | done].
      * right. exists n. split; [done |].
        split; [by apply list_elem_of_further | done].
    + intros c Hc Hm. apply elem_of_cons in Hc. destruct Hc as [-> | Hc].
      * specialize (Hmax' Hm). lia.
      * by apply Hmax.
Qed.

Lemma foldl_larger_frame (l : list Node) (best : option Node * Z) :
  foldl larger_frame best l
  = foldl larger best
      (List.filter (fun n => existsb (type_is n) frame_types) l).
Proof.
  revert best. induction l as [| x l IH]; intros best; [reflexivity |].
  cbn [foldl List.filter]. unfold larger_frame at 2.
  destruct (existsb (type_is x) frame_types); cbn [foldl]; apply IH.
Qed.

Lemma largestChild_spec (l : list Node) :
  match largestChild l with
  | Some n => n ∈ l /\ measurable n
              /\ forall c, c ∈ l -> measurable c -> (area c <= area n)%Z
  | None => forall c, c ∈ l -> ~ measurable c
  end.
Proof.
  unfold largestChild.
  destruct (foldl_larger l (None, 0%Z)) as (_ & Hres & Hmax).
  destruct Hres as [Heq | (n & Hn & Hin & Hm & Ha)].
  - rewrite Heq. cbn [fst]. intros c Hc Hm.
    specialize (Hmax c Hc Hm). rewrite Heq in Hmax. cbn [snd] in Hmax.
    destruct Hm as [Hw Hh]. unfold area in Hmax. nia.
  - rewrite Hn. split; [done |]. split; [done |].
    intros c Hc Hmc. rewrite <- Ha. by apply Hmax.
Qed.

Lemma largestFrame_spec (l : list Node) :
  match largestFrame l with
  | Some n => n ∈ l /\ existsb (type_is n) frame_types = true /\ measurable n
  | None => True
  end.
Proof.
  unfold largestFrame. rewrite foldl_larger_frame.
  pose proof (largestChild_spec
                (List.filter (fun n => existsb (type_is n) frame_types) l))
    as H.
  unfold largestChild in H.
  destruct (fst (foldl larger (None, 0%Z) _)) as [n |]; [| done].
  destruct H as (Hin & Hm & _).
  apply list_elem_of_In, filter_In in Hin. destruct Hin as [Hin Hty].
  split; [by apply list_elem_of_In |]. by split.
Qed.

Lemma complete_empty (n : Node) :
  measurable n ->
  complete (0%Z, 0%Z) n
  = (dim_width (extractNodeDimensions n),
     dim_height (extractNodeDimensions n)).
Proof.
  intros [Hw Hh]. unfold complete. cbn [fst snd].
  apply Z.ltb_lt in Hw, Hh. by rewrite Hw, Hh.
Qed.

(** The width and height of the paywall are both zero or both those of
    one node: the target node, a child of it, or a frame of the first
    page.  A target node with a usable width and height is taken as it
    is; otherwise the first child of largest area that has both.  The
    paywall is mobile exactly when its width is positive and below 600,
    or below 800 in portrait; the container is as wide as the paywall,
    or 1200 wide when the width is unknown. *)
Theorem paywall_dimensions_from_one_node (targetNode document : option Node) :
  let pd := paywallDimensions targetNode document in
  ((pd_width pd = 0%Z /\ pd_height pd = 0%Z)
   \/ exists n, candidate targetNode document n /\ measurable n
                /\ pd_width pd = dim_width (extractNodeDimensions n)
                /\ pd_height pd = dim_height (extractNodeDimensions n))
  /\ (forall t, targetNode = Some t -> measurable t ->
                pd_width pd = dim_width (extractNodeDimensions t)
                /\ pd_height pd = dim_height (extractNodeDimensions t))
  /\ (forall t cs c,
         targetNode = Some t -> ~ measurable t ->
         children t = Some cs -> c ∈ cs -> measurable c ->
         exists n, n ∈ cs /\ measurable n
                   /\ (area c <= area n)%Z
                   /\ pd_width pd = dim_width (extractNodeDimensions n)
                   /\ pd_height pd = dim_height (extractNodeDimensions n))
  /\ (pd_isMobile pd = true <->
      (0 < pd_width pd)%Z
      /\ ((pd_width pd < 600)%Z
          \/ ((pd_width pd < pd_height pd)%Z /\ (pd_width pd < 800)%Z)))
  /\ containerWidth pd
     = (if Z.ltb 0 (pd_width pd) then pd_width pd else 1200%Z).
Proof.
  cbv zeta.
  assert (H1 : match targetNode with
               | Some t =>
                   (measurable t
                    /\ strategy1 targetNode
                       = (dim_width (extractNodeDimensions t),
                          dim_height (extractNodeDimensions t)))
                   \/ (~ measurable t /\ strategy1 targetNode = (0%Z, 0%Z))
               | None => strategy1 targetNode = (0%Z, 0%Z)
               end).
  { destruct targetNode as [t |]; [| reflexivity].
    unfold strategy1, measurable.
    destruct (Z.ltb_spec 0 (dim_width (extractNodeDimensions t)));
      destruct (Z.ltb_spec 0 (dim_height (extractNodeDimensions t)));
      cbn [andb]; first [ by left | right; split; [lia | done] ]. }
  assert (Hfull : forall n, measurable n ->
                    incomplete (dim_width (extractNodeDimensions n),
                                dim_height (extractNodeDimensions n)) = false).
  { intros n [Hw Hh]. unfold incomplete. cbn [fst snd].
    destruct (Z.eqb_spec (dim_width (extractNodeDimensions n)) 0); [lia |].
    destruct (Z.eqb_spec (dim_height (extractNodeDimensions n)) 0); [lia |].
    reflexivity. }
  assert (H3 : forall wh,
             (exists n, candidate targetNode document n /\ measurable n
                        /\ wh = (dim_width (extractNodeDimensions n),
                                 dim_height (extractNodeDimensions n))) ->
             strategy3 document wh = wh).
  { intros wh (n & _ & Hm & ->). unfold strategy3. by rewrite Hfull. }
  assert (H3' : strategy3 document (0%Z, 0%Z) = (0%Z, 0%Z)
                \/ exists n, candidate targetNode document n /\ measurable n
                             /\ strategy3 document (0%Z, 0%Z)
                                = (dim_width (extractNodeDimensions n),
                                   dim_height (extractNodeDimensions n))).
  { unfold strategy3. cbn [incomplete fst snd Z.eqb orb].
    destruct document as [d |]; cbn [mbind option_bind]; [| by left].
    destruct (children d) as [[| page pages] |] eqn:Hd; [by left | | by left].
    destruct (children page) as [[| c cs] |] eqn:Hp; [by left | | by left].
    pose proof (largestFrame_spec (c :: cs)) as Hl.
    destruct (largestFrame (c :: cs)) as [n |]; [| by left].
    destruct Hl as (Hin & Hty & Hm). right. exists n.
    split; [| split; [done | by apply complete_empty]].
    right. right. by exists d, page, pages, (c :: cs). }
  assert (H2 : forall t, targetNode = Some t -> ~ measurable t ->
             strategy2 targetNode (0%Z, 0%Z) = (0%Z, 0%Z)
             /\ (forall cs c, children t = Some cs -> c ∈ cs ->
                              ~ measurable c)
             \/ exists cs n, children t = Some cs /\ n ∈ cs /\ measurable n
                  /\ (forall c, c ∈ cs -> measurable c ->
                                (area c <= area n)%Z)
                  /\ strategy2 targetNode (0%Z, 0%Z)
                     = (dim_width (extractNodeDimensions n),
                        dim_height (extractNodeDimensions n))).
  { intros t -> Hnm. unfold strategy2.
    cbn [incomplete fst snd Z.eqb orb mbind option_bind].
    destruct (children t) as [[| c cs] |] eqn:Ht.
    - left. split; [done |]. intros cs c [= <-] Hc.
      by apply elem_of_nil in Hc.
    - pose proof (largestChild_spec (c :: cs)) as Hl.
      destruct (largestChild (c :: cs)) as [n |].
      + destruct Hl as (Hin & Hm & Hmax). right. exists (c :: cs), n.
        split; [done |]. split; [done |]. split; [done |].
        split; [done | by apply complete_empty].
      + left. split; [done |]. intros cs' c' [= <-]. apply Hl.
    - left. split; [done |]. intros cs c [=]. }
  set (wh := strategy3 document (strategy2 targetNode (strategy1 targetNode))).
  assert (Hwh : (wh = (0%Z, 0%Z)
                 \/ exists n, candidate targetNode document n /\ measurable n
                              /\ wh = (dim_width (extractNodeDimensions n),
                                       dim_height (extractNodeDimensions n)))
                /\ (forall t, targetNode = Some t -> measurable t ->
                       wh = (dim_width (extractNodeDimensions t),
                             dim_height (extractNodeDimensions t)))
                /\ (forall t cs c,
                       targetNode = Some t -> ~ measurable t ->
                       children t = Some cs -> c ∈ cs -> measurable c ->
                       exists n, n ∈ cs /\ measurable n
                         /\ (area c <= area n)%Z
                         /\ wh = (dim_width (extractNodeDimensions n),
                                  dim_height (extractNodeDimensions n)))).
  { destruct targetNode as [t |].
    - destruct H1 as [[Hm H1] | [Hnm H1]].
      + assert (Heq : wh = (dim_width (extractNodeDimensions t),
                            dim_height (extractNodeDimensions t))).
        { subst wh. rewrite H1. unfold strategy2. rewrite (Hfull t Hm).
          apply H3. exists t. split; [by left | by split]. }
        rewrite Heq.
        split; [right; exists t; split; [by left | by split] |].
        split; [by intros t' [= <-] _ |].
        by intros t' cs c [= <-] Hnm.
      + destruct (H2 t eq_refl Hnm)
          as [[H2e Hnone] | (cs & n & Hcs & Hin & Hm & Hmax & H2e)].
        * assert (Heq : wh = strategy3 document (0%Z, 0%Z)).
          { subst wh. by rewrite H1, H2e. }
          rewrite Heq. split; [exact H3' |].
          split; [by intros t' [= <-] Hm |].
          intros t' cs c [= <-] _ Hcs Hc Hm. by destruct (Hnone cs c Hcs Hc).
        * assert (Heq : wh = (dim_width (extractNodeDimensions n),
                              dim_height (extractNodeDimensions n))).
          { subst wh. rewrite H1, H2e. apply H3. exists n.
            split; [right; left; by exists t, cs | by split]. }
          rewrite Heq.
          split; [right; exists n;
                  split; [right; left; by exists t, cs | by split] |].
          split; [by intros t' [= <-] Hm' |].
          intros t' cs' c [= <-] _ Hcs' Hc Hmc.
          rewrite Hcs in Hcs'. injection Hcs' as <-.
          exists n. split; [done |]. split; [done |].
          split; [by apply Hmax | done].
    - assert (Heq : wh = strategy3 document (0%Z, 0%Z)).
      { subst wh. by rewrite H1. }
      rewrite Heq.
      split; [exact H3' |]. split; [by intros t [=] |].
      by intros t cs c [=]. }
  unfold paywallDimensions. fold wh. cbn [pd_width pd_height pd_isMobile].
  unfold containerWidth. cbn [pd_width pd_height pd_isMobile].
  destruct Hwh as (Hone & Htarget & Hchild).
  split.
  { destruct Hone as [-> | (n & Hc & Hm & ->)]; [by left |].
    right. by exists n. }
  split.
  { intros t Ht Hm. by rewrite (Htarget t Ht Hm). }
  split.
  { intros t cs c Ht Hnm Hcs Hc Hm.
    destruct (Hchild t cs c Ht Hnm Hcs Hc Hm) as (n & Hin & Hmn & Ha & ->).
    by exists n. }
  split.
  - destruct (Z.ltb_spec 0 (fst wh)) as [Hpos | Hneg].
    + rewrite orb_true_iff, andb_true_iff, !Z.ltb_lt. tauto.
    + split; [done | lia].
  - destruct (Z.ltb_spec 0 (fst wh)) as [Hpos | Hneg]; [done |]. reflexivity.
Qed.

(** ** Design tokens *)

Lemma round_nonneg (q : Q) : (0 < q)%Q -> (0 <= round q)%Z.
Proof.
  intros Hq. unfold round.
  change 0%Z with (Qfloor 0). apply Qfloor_resp_le.
  apply Qlt_le_weak. eapply Qlt_trans; [exact Hq |].
  rewrite <- (Qplus_0_r q) at 1. apply Qplus_lt_r. reflexivity.
Qed.

Lemma reach_0 (n : Node) : reach n 0 = [n].
Proof. by destruct n. Qed.

Lemma reach_S (n : Node) (k : nat) :
  reach n (S k) = n :: flat_map (fun c => reach c k) (default [] (children n)).
Proof. by destruct n as [i a t b vx vy vw vh f st ch cr sk sw ef [cs |]]. Qed.

Lemma reach_head (n : Node) (k : nat) : exists l, reach n k = n :: l.
Proof. destruct k; [rewrite reach_0 | rewrite reach_S]; by eexists. Qed.

Lemma tidy_empty : tidy empty_tokens.
Proof.
  unfold tidy. cbn. split; [constructor |]. split; [constructor |].
  split; [| by split]. intros i j f g _ Hi. by destruct i.
Qed.

Lemma extends_refl (t : Tokens) : extends t t.
Proof. by unfold extends. Qed.

Lemma extends_trans (a b c : Tokens) : extends a b -> extends b c -> extends a c.
Proof.
  intros (H1 & H2 & H3 & H4) (K1 & K2 & K3 & K4).
  split; [by etrans |]. split; [by etrans |]. split; [by etrans | auto].
Qed.

Lemma later_refl (st : Tokens * nat) : later st st.
Proof. unfold later. split; [apply extends_refl | auto]. Qed.

Lemma later_trans (a b c : Tokens * nat) : later a b -> later b c -> later a c.
Proof.
  intros (H1 & H2 & H3 & H4) (K1 & K2 & K3 & K4).
  split; [by eapply extends_trans |]. split; [lia | auto].
Qed.

Lemma existsb_false_not_elem {A} (f : A -> A -> bool) (x : A) (l : list A) :
  (forall y, f x y = true <-> x = y) ->
  existsb (f x) l = false -> x ∉ l.
Proof.
  intros Hf Hex Hin. apply list_elem_of_In in Hin.
  assert (existsb (f x) l = true); [| congruence].
  apply existsb_exists. exists x. split; [done | by apply Hf].
Qed.

Lemma add_color_extends (color : string) (t : Tokens) :
  extends t (add_color color t) /\ color ∈ tok_colors (add_color color t).
Proof.
  unfold extends, tidy, add_color. cbn.
  destruct (existsb (String.eqb color) (tok_colors t)) eqn:Hex.
  - split; [done |]. apply existsb_exists in Hex.
    destruct Hex as (y & Hin & Heq). apply String.eqb_eq in Heq. subst y.
    by apply list_elem_of_In.
  - split; [| apply elem_of_app; right; apply list_elem_of_here].
    split; [by apply prefix_app_r |]. split; [done |]. split; [done |].
    intros (Hc & Hrest). split; [| done].
    apply NoDup_app. split; [done |]. split; [| apply NoDup_singleton].
    intros x Hx Hx'. apply list_elem_of_singleton in Hx'. subst x.
    revert Hx. eapply existsb_false_not_elem; [| exact Hex].
    intros y. apply String.eqb_eq.
Qed.

Lemma add_radius_extends (br : Z) (t : Tokens) :
  (0 <= br)%Z -> extends t (add_radius br t).
Proof.
  intros Hbr. unfold extends, tidy, add_radius. cbn.
  destruct (existsb (Z.eqb br) (tok_borderRadius t)) eqn:Hex; [done |].
  split; [done |]. split; [done |]. split; [by apply prefix_app_r |].
  intros (Hc & Hr & Hf & Hpos & Hs). split; [done |].
  split; [| split; [done | split; [| done]]].
  - apply NoDup_app. split; [done |]. split; [| apply NoDup_singleton].
    intros x Hx Hx'. apply list_elem_of_singleton in Hx'. subst x.
    revert Hx. eapply existsb_false_not_elem; [| exact Hex].
    intros y. apply Z.eqb_eq.
  - apply Forall_app. split; [done |]. by constructor.
Qed.

Lemma add_font_extends (fontInfo : FontInfo) (t : Tokens) :
  extends t (add_font fontInfo t).
Proof.
  unfold extends, tidy, add_font. cbn.
  destruct (existsb (same_font fontInfo) (tok_fonts t)) eqn:Hex; [done |].
  split; [done |]. split; [by apply prefix_app_r |]. split; [done |].
  intros (Hc & Hr & Hf & Hrest). split; [done |]. split; [done |].
  split; [| done].
  assert (Hnew : forall g, g ∈ tok_fonts t -> same_font fontInfo g = false).
  { intros g Hg. destruct (same_font fontInfo g) eqn:Hs; [| done].
    assert (existsb (same_font fontInfo) (tok_fonts t) = true); [| congruence].
    apply existsb_exists. exists g. split; [by apply list_elem_of_In | done]. }
  assert (Hsym : forall f g, same_font f g = same_font g f).
  { intros f g. unfold same_font.
    rewrite (Z.eqb_sym (font_s g)), (Qeq_bool_comm (font_w g)).
    f_equal. f_equal. apply bool_decide_ext. split; congruence. }
  intros i j f g Hij Hi Hj.
  apply lookup_app_Some in Hi, Hj.
  destruct Hi as [Hi | [Hil Hi]], Hj as [Hj | [Hjl Hj]].
  - by apply (Hf i j).
  - apply list_lookup_singleton_Some in Hj. destruct Hj as [_ <-].
    rewrite Hsym. apply Hnew. by eapply list_elem_of_lookup_2.
  - apply list_lookup_singleton_Some in Hi. destruct Hi as [_ <-].
    apply Hnew. by eapply list_elem_of_lookup_2.
  - apply list_lookup_singleton_Some in Hi, Hj. lia.
Qed.

Section DesignTokenProps.

Variable toString : Q -> string.

Lemma traverse_eq (n : Node) (depth : nat) (st : Tokens * nat) :
  traverse toString n depth st
  = if Nat.ltb 10 depth then st
    else if Nat.leb MAX_NODES (snd st) then st
    else if Nat.ltb depth 8
         then foldl (fun st c => traverse toString c (depth + 1) st)
                (record_node toString n depth st) (default [] (children n))
         else record_node toString n depth st.
Proof.
  destruct n as [i a t b vx vy vw vh f sty ch cr sk sw ef [cs |]];
    cbn [traverse children default].
  - destruct (Nat.ltb 10 depth); [done |].
    destruct (Nat.leb MAX_NODES (snd st)); [done |].
    destruct (Nat.ltb depth 8); [| done].
    generalize (record_node toString
                  (MkNode i a t b vx vy vw vh f sty ch cr sk sw ef (Some cs))
                  depth st).
    induction cs as [| c cs IH]; intros st0; cbn [foldl]; [done | apply IH].
  - cbn [foldl]. by destruct (Nat.ltb 10 depth), (Nat.leb MAX_NODES (snd st)),
      (Nat.ltb depth 8).
Qed.

(** A property of pairs of states that holds along every step of the
    walk holds of the walk. *)
Lemma traverse_preserves (R : Tokens * nat -> Tokens * nat -> Prop) :
  (forall st, R st st) ->
  (forall a b c, R a b -> R b c -> R a c) ->
  (forall n depth st, snd st < MAX_NODES ->
                      R st (record_node toString n depth st)) ->
  forall n depth st, R st (traverse toString n depth st).
Proof.
  intros Hrefl Htrans Hstep n.
  induction n as [n IH] using Node_induction. intros depth st.
  rewrite traverse_eq.
  destruct (Nat.ltb 10 depth); [apply Hrefl |].
  destruct (Nat.leb_spec MAX_NODES (snd st)) as [Hfull | Hroom];
    [apply Hrefl |].
  destruct (Nat.ltb depth 8); [| by apply Hstep].
  eapply Htrans; [by apply (Hstep n depth) |].
  generalize (record_node toString n depth st).
  revert IH. generalize (default [] (children n)). intros cs IH.
  induction IH as [| c cs Hc Hcs IHcs]; intros st0; cbn [foldl];
    [apply Hrefl |].
  eapply Htrans; [apply Hc | apply IHcs].
Qed.

Lemma visit_fill_info (acc acc' : Tokens * NodeInfo) (fill : Fill) :
  snd acc = snd acc' ->
  snd (visit_fill toString acc fill) = snd (visit_fill toString acc' fill).
Proof.
  intros Heq. unfold visit_fill. destruct (solid_color fill); cbn [snd].
  - by rewrite Heq.
  - destruct (_ && _); cbn [snd]; by rewrite Heq.
Qed.

Lemma visit_fills_info (n : Node) (acc acc' : Tokens * NodeInfo) :
  snd acc = snd acc' ->
  snd (visit_fills toString n acc) = snd (visit_fills toString n acc').
Proof.
  unfold visit_fills. destruct (fills n) as [fs |]; [| done].
  revert acc acc'.
  induction fs as [| fill fs IH]; intros acc acc' Heq; cbn [foldl]; [done |].
  apply IH. by apply visit_fill_info.
Qed.

Lemma visit_text_info (n : Node) (acc acc' : Tokens * NodeInfo) :
  snd acc = snd acc' -> snd (visit_text n acc) = snd (visit_text n acc').
Proof.
  intros Heq. unfold visit_text. destruct (style n); [| done].
  destruct (type_is n "TEXT"); [| done]. cbn [snd]. by rewrite Heq.
Qed.

Lemma visit_radius_info (n : Node) (acc acc' : Tokens * NodeInfo) :
  snd acc = snd acc' -> snd (visit_radius n acc) = snd (visit_radius n acc').
Proof.
  intros Heq. unfold visit_radius. destruct (cornerRadius n) as [q |]; [| done].
  destruct (Num.Qlt_bool 0 q); [| done]. cbn [snd]. by rewrite Heq.
Qed.

(** The [nodeInfo] of a node does not depend on the tokens so far. *)
Lemma describe_info (n : Node) (tokens : Tokens) :
  snd (describe toString n tokens) = nodeInfo_of toString n.
Proof.
  unfold nodeInfo_of, describe. cbn [snd]. f_equal. f_equal.
  by apply visit_radius_info, visit_text_info, visit_fills_info.
Qed.

Lemma isImportant_at_root (n : Node) (nodeInfo : NodeInfo) (depth : nat) :
  isImportant n nodeInfo depth = true -> isImportant n nodeInfo 0 = true.
Proof.
  unfold isImportant. rewrite !orb_true_iff, !andb_true_iff.
  intros [H | [H _]]; [by left |]. right. by split.
Qed.

Lemma visit_fills_colors (fs : list Fill) (acc : Tokens * NodeInfo) :
  extends (fst acc) (fst (foldl (visit_fill toString) acc fs))
  /\ tok_nodes (fst (foldl (visit_fill toString) acc fs)) = tok_nodes (fst acc)
  /\ (forall c, c ∈ map (rgba toString) (omap solid_color fs) ->
                c ∈ tok_colors (fst (foldl (visit_fill toString) acc fs)))
  /\ (forall c, c ∈ tok_colors (fst (foldl (visit_fill toString) acc fs)) ->
                c ∈ tok_colors (fst acc)
                \/ c ∈ map (rgba toString) (omap solid_color fs)).
Proof.
  revert acc. induction fs as [| fill fs IH]; intros acc; cbn [foldl].
  - split; [apply extends_refl |]. split; [done |].
    split; [| by left]. intros c Hc. by apply elem_of_nil in Hc.
  - destruct (IH (visit_fill toString acc fill)) as (He & Hn & Hin & Hout).
    assert (Hstep : extends (fst acc) (fst (visit_fill toString acc fill))
                    /\ tok_nodes (fst (visit_fill toString acc fill))
                       = tok_nodes (fst acc)
                    /\ (forall c, solid_color fill = Some c ->
                          rgba toString c
                          ∈ tok_colors (fst (visit_fill toString acc fill)))
                    /\ (forall c,
                          c ∈ tok_colors (fst (visit_fill toString acc fill)) ->
                          c ∈ tok_colors (fst acc)
                          \/ exists k, solid_color fill = Some k
                                       /\ c = rgba toString k)).
    { unfold visit_fill. destruct (solid_color fill) as [k |]; cbn [fst].
      - destruct (add_color_extends (rgba toString k) (fst acc)) as [Hx Hk].
        split; [done |]. split; [done |].
        split; [by intros c [= <-] |].
        intros c Hc. unfold add_color in Hc. cbn [tok_colors] in Hc.
        destruct (existsb _ _); [by left |].
        apply elem_of_app in Hc. destruct Hc as [Hc | Hc]; [by left |].
        apply list_elem_of_singleton in Hc. right. by exists k.
      - destruct (_ && _); cbn [fst];
          (split; [apply extends_refl |]; split; [done |];
           split; [done | by left]). }
    destruct Hstep as (He' & Hn' & Hin' & Hout').
    split; [by eapply extends_trans |]. split; [by rewrite Hn |].
    split.
    + intros c Hc. cbn [omap list_omap] in Hc.
      destruct (solid_color fill) as [k |] eqn:Hk.
      * cbn [map] in Hc. apply elem_of_cons in Hc.
        destruct Hc as [-> | Hc]; [| by apply Hin].
        destruct He as (Hp & _). eapply elem_of_prefix; [| exact Hp].
        by apply Hin'.
      * by apply Hin.
    + intros c Hc. destruct (Hout c Hc) as [Hc' | Hc'].
      * destruct (Hout' c Hc') as [Hc'' | (k & Hk & ->)]; [by left |].
        right. cbn [omap list_omap]. rewrite Hk. cbn [map]. apply list_elem_of_here.
      * right. cbn [omap list_omap]. destruct (solid_color fill); [| done].
        cbn [map]. by apply list_elem_of_further.
Qed.

Lemma describe_tokens (n : Node) (tokens : Tokens) :
  extends tokens (fst (describe toString n tokens))
  /\ tok_nodes (fst (describe toString n tokens)) = tok_nodes tokens
  /\ (forall c, c ∈ solid_colors toString n ->
                c ∈ tok_colors (fst (describe toString n tokens)))
  /\ (forall c, c ∈ tok_colors (fst (describe toString n tokens)) ->
                c ∈ tok_colors tokens \/ c ∈ solid_colors toString n).
Proof.
  unfold describe. cbn [fst].
  match goal with
  | |- context [visit_fills toString n ?a] => set (acc0 := a)
  end.
  assert (H0 : extends tokens (fst (visit_fills toString n acc0))
               /\ tok_nodes (fst (visit_fills toString n acc0))
                  = tok_nodes tokens
               /\ (forall c, c ∈ solid_colors toString n ->
                     c ∈ tok_colors (fst (visit_fills toString n acc0)))
               /\ (forall c,
                     c ∈ tok_colors (fst (visit_fills toString n acc0)) ->
                     c ∈ tok_colors tokens \/ c ∈ solid_colors toString n)).
  { unfold visit_fills, solid_colors. destruct (fills n) as [fs |].
    - apply (visit_fills_colors fs acc0).
    - cbn [default omap list_omap map fst acc0]. split; [apply extends_refl |].
      split; [done |]. split; [| by left].
      intros c Hc. by apply elem_of_nil in Hc. }
  revert H0. generalize (visit_fills toString n acc0). clear acc0.
  intros acc (He & Hn & Hin & Hout).
  assert (H1 : extends (fst acc) (fst (visit_text n acc))
               /\ tok_nodes (fst (visit_text n acc)) = tok_nodes (fst acc)
               /\ tok_colors (fst (visit_text n acc)) = tok_colors (fst acc)).
  { unfold visit_text. destruct (style n) as [sty |];
      [| by split; [apply extends_refl |]].
    destruct (type_is n "TEXT"); [| by split; [apply extends_refl |]].
    cbn [fst]. split; [apply add_font_extends | done]. }
  destruct H1 as (He1 & Hn1 & Hc1).
  assert (H2 : extends (fst (visit_text n acc))
                 (fst (visit_radius n (visit_text n acc)))
               /\ tok_nodes (fst (visit_radius n (visit_text n acc)))
                  = tok_nodes (fst (visit_text n acc))
               /\ tok_colors (fst (visit_radius n (visit_text n acc)))
                  = tok_colors (fst (visit_text n acc))).
  { unfold visit_radius. destruct (cornerRadius n) as [q |];
      [| by split; [apply extends_refl |]].
    destruct (Num.Qlt_bool 0 q) eqn:Hq; [| by split; [apply extends_refl |]].
    cbn [fst]. split; [| done]. apply add_radius_extends, round_nonneg.
    unfold Num.Qlt_bool in Hq. apply negb_true_iff in Hq.
    destruct (Qlt_le_dec 0 q) as [Hlt | Hle]; [done |].
    apply Qle_bool_iff in Hle. congruence. }
  destruct H2 as (He2 & Hn2 & Hc2).
  split; [eapply extends_trans; [exact He |];
          eapply extends_trans; [exact He1 | exact He2] |].
  split; [by rewrite Hn2, Hn1 |].
  rewrite Hc2, Hc1. by split.
Qed.

(** The step of the walk on one node. *)
Lemma record_node_spec (n : Node) (depth : nat) (st : Tokens * nat) :
  later st (record_node toString n depth st)
  /\ (exists l,
         tok_nodes (fst (record_node toString n depth st))
         = tok_nodes (fst st) ++ map (nodeInfo_of toString) l
         /\ l `sublist_of` [n]
         /\ snd (record_node toString n depth st) = snd st + List.length l
         /\ Forall (recorded (nodeInfo_of toString)) l)
  /\ (forall c, c ∈ solid_colors toString n ->
                c ∈ tok_colors (fst (record_node toString n depth st)))
  /\ (forall c, c ∈ tok_colors (fst (record_node toString n depth st)) ->
                c ∈ tok_colors (fst st) \/ c ∈ solid_colors toString n).
Proof.
  destruct (describe_tokens n (fst st)) as (He & Hn & Hin & Hout).
  pose proof (describe_info n (fst st)) as Hinfo.
  assert (Hpush : forall i t, extends t (push_node i t)).
  { intros i t. by unfold extends, tidy, push_node. }
  assert (Hsame : later st (fst (describe toString n (fst st)), snd st)).
  { split; [done |]. split; [done |]. split; [done |].
    cbn [fst snd]. by rewrite Hn. }
  unfold record_node. cbv zeta.
  destruct (isStatusBarElement n) eqn:Hbar; cbn [fst snd].
  { split; [done |]. split; [| by split].
    exists []. cbn [map]. rewrite app_nil_r.
    split; [done |]. split; [apply sublist_nil_l |].
    split; [cbn [List.length]; lia | by constructor]. }
  destruct (isImportant n (snd (describe toString n (fst st))) depth) eqn:Himp;
    cbn [andb].
  - destruct (Nat.ltb_spec (snd st) MAX_NODES) as [Hroom | Hfull];
      cbn [fst snd].
    + split.
      { unfold later. cbn [fst snd].
        split; [eapply extends_trans; [exact He | apply Hpush] |].
        split; [lia |]. split; [unfold MAX_NODES in *; lia |].
        intros Hlen. cbn [push_node tok_nodes].
        rewrite length_app, Hn. cbn [List.length]. lia. }
      split; [| by split].
      exists [n]. cbn [push_node tok_nodes map List.length].
      rewrite Hn, Hinfo. split; [done |]. split; [done |].
      split; [lia |]. constructor; [| constructor].
      split; [done |]. apply (isImportant_at_root _ _ depth).
      by rewrite <- Hinfo.
    + split; [done |]. split; [| by split].
      exists []. cbn [map]. rewrite app_nil_r.
      split; [done |]. split; [apply sublist_nil_l |].
      split; [cbn [List.length]; lia | by constructor].
  - cbn [fst snd]. split; [done |]. split; [| by split].
    exists []. cbn [map]. rewrite app_nil_r.
    split; [done |]. split; [apply sublist_nil_l |].
    split; [cbn [List.length]; lia | by constructor].
Qed.

Lemma traverse_later (n : Node) (depth : nat) (st : Tokens * nat) :
  later st (traverse toString n depth st).
Proof.
  apply traverse_preserves.
  - apply later_refl.
  - apply later_trans.
  - intros m d st0 _. apply record_node_spec.
Qed.

Lemma foldl_traverse_later (cs : list Node) (depth : nat) (st : Tokens * nat) :
  later st (foldl (fun st c => traverse toString c depth st) st cs).
Proof.
  revert st. induction cs as [| c cs IH]; intros st; cbn [foldl];
    [apply later_refl |].
  eapply later_trans; [apply traverse_later | apply IH].
Qed.

(** What the walk from a node adds: entries for nodes of the tree, in
    document order, and colours of solid fills of nodes of the tree. *)
Lemma traverse_nodes (n : Node) :
  forall (depth : nat) (st : Tokens * nat),
    (exists l,
        tok_nodes (fst (traverse toString n depth st))
        = tok_nodes (fst st) ++ map (nodeInfo_of toString) l
        /\ l `sublist_of` reach n (8 - depth)
        /\ Forall (recorded (nodeInfo_of toString)) l)
    /\ (forall c, c ∈ tok_colors (fst (traverse toString n depth st)) ->
                  c ∈ tok_colors (fst st)
                  \/ exists m, m ∈ reach n (8 - depth)
                               /\ c ∈ solid_colors toString m).
Proof.
  induction n as [n IH] using Node_induction. intros depth st.
  assert (Hnone : (exists l,
                      tok_nodes (fst st)
                      = tok_nodes (fst st) ++ map (nodeInfo_of toString) l
                      /\ l `sublist_of` reach n (8 - depth)
                      /\ Forall (recorded (nodeInfo_of toString)) l)
                  /\ (forall c, c ∈ tok_colors (fst st) ->
                        c ∈ tok_colors (fst st)
                        \/ exists m, m ∈ reach n (8 - depth)
                                     /\ c ∈ solid_colors toString m)).
  { split; [| by left]. exists []. cbn [map]. rewrite app_nil_r.
    split; [done |]. split; [apply sublist_nil_l | constructor]. }
  rewrite traverse_eq.
  destruct (Nat.ltb_spec 10 depth) as [Hdeep | Hdepth]; [exact Hnone |].
  destruct (Nat.leb MAX_NODES (snd st)); [exact Hnone |]. clear Hnone.
  destruct (record_node_spec n depth st)
    as (_ & (l0 & Hl0 & Hsub0 & _ & Hrec0) & _ & Hout0).
  destruct (Nat.ltb_spec depth 8) as [Hd | Hd].
  - replace (8 - depth) with (S (8 - (depth + 1))) by lia.
    rewrite reach_S.
    revert Hl0 Hout0. generalize (record_node toString n depth st).
    revert IH. generalize (default [] (children n)). intros cs IH.
    intros st0 Hl0 Hout0.
    assert (Hfold :
      (exists l,
          tok_nodes (fst (foldl (fun st c => traverse toString c (depth + 1) st)
                            st0 cs))
          = tok_nodes (fst st0) ++ map (nodeInfo_of toString) l
          /\ l `sublist_of` flat_map (fun c => reach c (8 - (depth + 1))) cs
          /\ Forall (recorded (nodeInfo_of toString)) l)
      /\ (forall c,
             c ∈ tok_colors
                   (fst (foldl (fun st c => traverse toString c (depth + 1) st)
                           st0 cs)) ->
             c ∈ tok_colors (fst st0)
             \/ exists m, m ∈ flat_map (fun c => reach c (8 - (depth + 1))) cs
                          /\ c ∈ solid_colors toString m)).
    { clear Hl0 Hout0. revert st0.
      induction IH as [| c cs Hc Hcs IHcs]; intros st0; cbn [foldl flat_map].
      - split; [| by left]. exists []. cbn [map]. rewrite app_nil_r.
        split; [done |]. split; [done | constructor].
      - destruct (Hc (depth + 1) st0) as ((l1 & Hl1 & Hsub1 & Hrec1) & Hout1).
        destruct (IHcs (traverse toString c (depth + 1) st0))
          as ((l2 & Hl2 & Hsub2 & Hrec2) & Hout2).
        split.
        + exists (l1 ++ l2). rewrite Hl2, Hl1, map_app, app_assoc.
          split; [done |]. split; [by apply sublist_app |].
          by apply Forall_app.
        + intros k Hk. destruct (Hout2 k Hk) as [Hk' | (m & Hm & Hkm)].
          * destruct (Hout1 k Hk') as [Hk'' | (m & Hm & Hkm)]; [by left |].
            right. exists m. split; [| done]. apply elem_of_app. by left.
          * right. exists m. split; [| done]. apply elem_of_app. by right. }
    destruct Hfold as ((l1 & Hl1 & Hsub1 & Hrec1) & Hout1).
    split.
    + exists (l0 ++ l1). rewrite Hl1, Hl0, map_app, app_assoc.
      split; [done |].
      split; [by apply (sublist_app l0 [n]) |].
      by apply Forall_app.
    + intros k Hk. destruct (Hout1 k Hk) as [Hk' | (m & Hm & Hkm)].
      * destruct (Hout0 k Hk') as [Hk'' | Hk'']; [by left |].
        right. exists n. split; [apply list_elem_of_here | done].
      * right. exists m. split; [by apply list_elem_of_further | done].
  - destruct (reach_head n (8 - depth)) as [tl ->].
    split.
    + exists l0. split; [done |]. split; [| done].
      change (n :: tl) with ([n] ++ tl).
      rewrite <- (app_nil_r l0). apply sublist_app; [done |].
      apply sublist_nil_l.
    + intros k Hk. destruct (Hout0 k Hk) as [Hk' | Hk']; [by left |].
      right. exists n. split; [apply list_elem_of_here | done].
Qed.

(** While fewer than [MAX_NODES] entries are recorded, the walk reaches
    every node down to depth 8 and takes the colours of its solid
    fills. *)
Lemma traverse_complete (n : Node) :
  forall (depth : nat) (st : Tokens * nat),
    depth <= 10 ->
    snd (traverse toString n depth st) < MAX_NODES ->
    forall m c, m ∈ reach n (8 - depth) -> c ∈ solid_colors toString m ->
                c ∈ tok_colors (fst (traverse toString n depth st)).
Proof.
  induction n as [n IH] using Node_induction.
  intros depth st Hdepth Hroom m c Hm Hc.
  destruct (traverse_later n depth st) as (_ & Hmono & _).
  revert Hroom Hmono. rewrite traverse_eq. intros Hroom Hmono.
  destruct (Nat.ltb_spec 10 depth) as [Hdeep | _]; [lia |].
  destruct (Nat.leb_spec MAX_NODES (snd st)) as [Hfull | _]; [lia |].
  destruct (record_node_spec n depth st) as (_ & _ & Hin0 & _).
  destruct (Nat.ltb_spec depth 8) as [Hd | Hd].
  - revert Hm. replace (8 - depth) with (S (8 - (depth + 1))) by lia.
    rewrite reach_S. intros Hm.
    revert Hroom Hin0. clear Hmono.
    generalize (record_node toString n depth st).
    revert IH Hm. generalize (default [] (children n)). intros cs IH Hm.
    intros st0 Hroom Hin0.
    apply elem_of_cons in Hm. destruct Hm as [-> | Hm].
    { destruct (foldl_traverse_later cs (depth + 1) st0) as ((Hp & _) & _).
      eapply elem_of_prefix; [| exact Hp]. by apply Hin0. }
    clear Hin0. revert st0 Hroom.
    induction IH as [| k cs Hk Hcs IHcs]; intros st0 Hroom;
      cbn [flat_map] in Hm.
    { by apply elem_of_nil in Hm. }
    cbn [foldl] in *. apply elem_of_app in Hm. destruct Hm as [Hm | Hm].
    + destruct (foldl_traverse_later cs (depth + 1)
                  (traverse toString k (depth + 1) st0))
        as ((Hp & _) & Hle & _).
      eapply elem_of_prefix; [| exact Hp].
      refine (Hk (depth + 1) st0 _ _ m c Hm Hc); lia.
    + by apply IHcs.
  - replace (8 - depth) with 0 in Hm by lia. rewrite reach_0 in Hm.
    apply list_elem_of_singleton in Hm. subst m. by apply Hin0.
Qed.

(** [tokens.nodes] holds at most 30 entries; they are the records of
    nodes at most 8 levels below the root, in document order, none of
    them a status-bar element; [tokens.spacing] stays empty. *)
Theorem extractDesignTokens_nodes (root : Node) :
  let tokens := extractDesignTokens toString root in
  List.length (tok_nodes tokens) <= 30
  /\ tok_spacing tokens = []
  /\ exists l, tok_nodes tokens = map (nodeInfo_of toString) l
               /\ l `sublist_of` reach root 8
               /\ Forall (recorded (nodeInfo_of toString)) l.
Proof.
  cbv zeta. unfold extractDesignTokens.
  destruct (traverse_later root 0 (empty_tokens, 0))
    as ((_ & _ & _ & Htidy) & _ & Hmax & Hlen).
  cbn [fst snd] in *.
  split; [rewrite <- Hlen; [apply Hmax; unfold MAX_NODES; lia | done] |].
  split; [apply (Htidy tidy_empty) |].
  destruct (traverse_nodes root 0 (empty_tokens, 0)) as ((l & Hl & Hsub & Hrec) & _).
  exists l. by rewrite Hl.
Qed.

(** The colour and radius tokens hold no value twice, no two font
    tokens agree in family, size and weight, a radius is never
    negative, and every colour is the colour of a solid fill of a node
    at most 8 levels below the root. *)
Theorem extractDesignTokens_no_duplicates (root : Node) :
  let tokens := extractDesignTokens toString root in
  NoDup (tok_colors tokens)
  /\ NoDup (tok_borderRadius tokens)
  /\ fonts_differ (tok_fonts tokens)
  /\ Forall (fun br => (0 <= br)%Z) (tok_borderRadius tokens)
  /\ forall c, c ∈ tok_colors tokens ->
               exists m, m ∈ reach root 8 /\ c ∈ solid_colors toString m.
Proof.
  cbv zeta. unfold extractDesignTokens.
  destruct (traverse_later root 0 (empty_tokens, 0))
    as ((_ & _ & _ & Htidy) & _).
  destruct (Htidy tidy_empty) as (Hc & Hr & Hf & Hpos & _).
  split; [done |]. split; [done |]. split; [done |]. split; [done |].
  intros c Hin.
  destruct (traverse_nodes root 0 (empty_tokens, 0)) as (_ & Hout).
  destruct (Hout c Hin) as [Hnil | Hm]; [| exact Hm].
  by apply elem_of_nil in Hnil.
Qed.

(** While fewer than 30 nodes are recorded, the colour of every solid
    fill of every node at most 8 levels below the root is a colour
    token, status-bar elements included. *)
Theorem extractDesignTokens_colors_complete (root m : Node) (c : string) :
  List.length (tok_nodes (extractDesignTokens toString root)) < 30 ->
  m ∈ reach root 8 ->
  c ∈ solid_colors toString m ->
  c ∈ tok_colors (extractDesignTokens toString root).
Proof.
  unfold extractDesignTokens. intros Hlen Hm Hc.
  destruct (traverse_later root 0 (empty_tokens, 0)) as (_ & _ & _ & Hcount).
  refine (traverse_complete root 0 (empty_tokens, 0) _ _ m c Hm Hc); [lia |].
  rewrite Hcount; [exact Hlen | reflexivity].
Qed.

End DesignTokenProps.

(** A red status bar on a screen: its colour is a token, though the
    status bar itself is not recorded. *)
Lemma extractDesignTokens_colors_complete_witness :
  List.length (tok_nodes (extractDesignTokens print_floor
                            screen_with_status_bar)) < 30
  /\ red_status_bar ∈ reach screen_with_status_bar 8
  /\ "rgba(255,0,0,1)" ∈ solid_colors print_floor red_status_bar
  /\ "rgba(255,0,0,1)"
     ∈ tok_colors (extractDesignTokens print_floor screen_with_status_bar).
Proof.
  assert (H1 : List.length (tok_nodes (extractDesignTokens print_floor
                                         screen_with_status_bar)) < 30)
    by (vm_compute; lia).
  assert (H2 : red_status_bar ∈ reach screen_with_status_bar 8)
    by (apply list_elem_of_further, list_elem_of_here).
  assert (H3 : "rgba(255,0,0,1)" ∈ solid_colors print_floor red_status_bar)
    by (vm_compute; apply list_elem_of_here).
  split; [exact H1 |]. split; [exact H2 |]. split; [exact H3 |].
  exact (extractDesignTokens_colors_complete print_floor _ _ _ H1 H2 H3).
Defined.

Example extractDesignTokens_sample :
  let tokens := extractDesignTokens print_floor screen_with_status_bar in
  tok_colors tokens = ["rgba(255,0,0,1)"]
  /\ map ni_n (tok_nodes tokens) = [Some "Screen"; Some "Title"]
  /\ map font_s (tok_fonts tokens) = [24%Z]
  /\ map font_lh (tok_fonts tokens) = [Some 29%Z].
Proof. vm_compute. repeat split; reflexivity. Qed.

End FigmaProps.

(** * Soundness of the matcher and the key of a Figma link *)

Lemma rmatch_sound (ci : bool) (r : regex) :
  forall (k : cont) (s : list ascii) (c : caps) (res : list ascii * caps),
    rmatch ci r k s c = Some res ->
    exists s' c', lang ci r s s' /\ k s' c' = Some res.
Proof.
  induction r as [| a | neg items | | r1 IH1 r2 IH2 | r1 IH1 r2 IH2
                  | lz r1 IH1 | i r1 IH1]; intros k s c res; cbn [rmatch].
  - intros Hk. exists s, c. split; [constructor | exact Hk].
  - destruct s as [| x s]; [discriminate |].
    destruct (char_eq ci a x) eqn:Hx; [| discriminate].
    intros Hk. exists s, c. split; [by constructor | exact Hk].
  - destruct s as [| x s]; [discriminate |].
    destruct (xorb neg (in_class ci items x)) eqn:Hx; [| discriminate].
    intros Hk. exists s, c. split; [by constructor | exact Hk].
  - destruct s as [| x s]; [discriminate |].
    destruct (Js.is_line_terminator x) eqn:Hx; [discriminate |].
    intros Hk. exists s, c. split; [by constructor | exact Hk].
  - intros H1. apply IH1 in H1. destruct H1 as (s1 & c1 & Hl1 & H2).
    apply IH2 in H2. destruct H2 as (s2 & c2 & Hl2 & Hk).
    exists s2, c2. split; [by econstructor | exact Hk].
  - destruct (rmatch ci r1 k s c) as [res1 |] eqn:H1.
    + intros [= <-]. apply IH1 in H1. destruct H1 as (s' & c' & Hl & Hk).
      exists s', c'. split; [by apply lang_alt_l | exact Hk].
    + intros H2. apply IH2 in H2. destruct H2 as (s' & c' & Hl & Hk).
      exists s', c'. split; [by apply lang_alt_r | exact Hk].
  - generalize (List.length s) as fuel. intros fuel. revert s c.
    induction fuel as [| fuel IHf]; intros s c.
    + destruct lz.
      * destruct (k s c) as [res0 |] eqn:Hk; [| discriminate].
        intros [= <-]. exists s, c. split; [constructor | exact Hk].
      * intros Hk. exists s, c. split; [constructor | exact Hk].
    + assert (Hagain :
          rmatch ci r1
            (fun s' c' =>
               if Nat.ltb (List.length s') (List.length s)
               then (fix loop (fuel0 : nat) (s0 : list ascii) (c0 : caps)
                       {struct fuel0} : option (list ascii * caps) :=
                       let again (_ : unit) :=
                         match fuel0 with
                         | O => None
                         | S fuel' =>
                             rmatch ci r1
                               (fun s1 c1 =>
                                  if Nat.ltb (List.length s1) (List.length s0)
                                  then loop fuel' s1 c1 else None) s0 c0
                         end in
                       if lz then
                         match k s0 c0 with
                         | Some res0 => Some res0
                         | None => again tt
                         end
                       else
                         match again tt with
                         | Some res0 => Some res0
                         | None => k s0 c0
                         end) fuel s' c'
               else None) s c = Some res ->
          exists s' c', lang ci (Star lz r1) s s' /\ k s' c' = Some res).
      { intros H1. apply IH1 in H1. destruct H1 as (s1 & c1 & Hl1 & Hloop).
        destruct (Nat.ltb (List.length s1) (List.length s)); [| discriminate].
        apply IHf in Hloop. destruct Hloop as (s2 & c2 & Hl2 & Hk).
        exists s2, c2. split; [by econstructor | exact Hk]. }
      destruct lz.
      * destruct (k s c) as [res0 |] eqn:Hk.
        -- intros [= <-]. exists s, c. split; [constructor | exact Hk].
        -- exact Hagain.
      * match goal with
        | |- match ?again with _ => _ end = _ -> _ =>
            destruct again as [res0 |] eqn:H1
        end.
        -- intros [= <-]. by apply Hagain.
        -- intros Hk. exists s, c. split; [constructor | exact Hk].
  - intros H1. apply IH1 in H1. destruct H1 as (s' & c' & Hl & Hk).
    exists s', (setcap i (take (List.length s - List.length s') s) c').
    split; [by constructor | exact Hk].
Qed.

Lemma rmatch_Seq (ci : bool) (r1 r2 : regex) (k : cont) (s : list ascii)
  (c : caps) :
  rmatch ci (Seq r1 r2) k s c = rmatch ci r1 (rmatch ci r2 k) s c.
Proof. reflexivity. Qed.

Lemma rmatch_Alt (ci : bool) (r1 r2 : regex) (k : cont) (s : list ascii)
  (c : caps) :
  rmatch ci (Alt r1 r2) k s c
  = match rmatch ci r1 k s c with
    | Some res => Some res
    | None => rmatch ci r2 k s c
    end.
Proof. reflexivity. Qed.

Lemma rmatch_Grp (ci : bool) (i : nat) (r : regex) (k : cont) (s : list ascii)
  (c : caps) :
  rmatch ci (Grp i r) k s c
  = rmatch ci r
      (fun s' c' => k s' (setcap i (take (List.length s - List.length s') s) c'))
      s c.
Proof. reflexivity. Qed.

(** What is matched is a prefix of the input. *)
Lemma lang_prefix (ci : bool) (r : regex) (s s' : list ascii) :
  lang ci r s s' -> exists w, s = w ++ s'.
Proof.
  induction 1 as [s | a x s Hx | neg items x s Hx | x s Hx
                  | r1 r2 s s1 s2 _ [w1 ->] _ [w2 ->]
                  | r1 r2 s s' _ IH | r1 r2 s s' _ IH | lz r s
                  | lz r s s1 s2 _ [w1 ->] _ [w2 ->] | i r s s' _ IH];
    try (by exists []); try (by exists [x]); try exact IH.
  - exists (w1 ++ w2). by rewrite app_assoc.
  - exists (w1 ++ w2). by rewrite app_assoc.
Qed.

Lemma lang_lit_chars (l s s' : list ascii) :
  lang false (lit_chars l) s s' -> s = l ++ s'.
Proof.
  revert s. induction l as [| a l IH]; intros s.
  - cbn [lit_chars]. inversion 1. reflexivity.
  - destruct l as [| b l].
    + cbn [lit_chars]. inversion 1 as [| ? x ? Hx | | | | | | | |]; subst.
      cbn [char_eq] in Hx. apply Ascii.eqb_eq in Hx. by subst.
    + change (lit_chars (a :: b :: l)) with (Seq (Lit a) (lit_chars (b :: l))).
      inversion 1 as [| | | | ? ? ? s1 ? H1 H2 | | | | |]; subst.
      inversion H1 as [| ? x ? Hx | | | | | | | |]; subst.
      cbn [char_eq] in Hx. apply Ascii.eqb_eq in Hx. subst.
      apply IH in H2. by subst.
Qed.

Lemma lang_star_class (ci : bool) (items : list citem) (lz : bool)
  (s s' : list ascii) :
  lang ci (Star lz (Cls false items)) s s' ->
  exists w, s = w ++ s' /\ Forall (fun x => in_class ci items x = true) w.
Proof.
  intros H. remember (Star lz (Cls false items)) as r eqn:Hr.
  induction H as [| | | | | | | lz' r' s
                  | lz' r' s s1 s2 H1 _ _ IH2 |]; try discriminate.
  - exists []. by split.
  - injection Hr as -> ->. destruct (IH2 eq_refl) as (w & -> & Hw).
    inversion H1 as [| | ? ? x ? Hx | | | | | | |]; subst.
    exists (x :: w). split; [reflexivity |]. by constructor.
Qed.

Lemma lang_plus_class (ci : bool) (items : list citem) (s s' : list ascii) :
  lang ci (Plus (Cls false items)) s s' ->
  exists w, s = w ++ s' /\ w <> []
            /\ Forall (fun x => in_class ci items x = true) w.
Proof.
  unfold Plus. inversion 1 as [| | | | ? ? ? s1 ? H1 H2 | | | | |]; subst.
  inversion H1 as [| | ? ? x ? Hx | | | | | | |]; subst.
  apply lang_star_class in H2. destruct H2 as (w & -> & Hw).
  exists (x :: w). split; [reflexivity |]. split; [discriminate |].
  by constructor.
Qed.

(** A match found by [search] starts somewhere in the input, and from
    there the matcher succeeded with the groups of the result. *)
Lemma search_sound (ci : bool) (r : regex) (s : list ascii)
  (m : rmatch_result) (rest : list ascii) :
  search ci r s = Some (m, rest) ->
  exists pre s0,
    s = pre ++ s0
    /\ rmatch ci r (fun s' c' => Some (s', c')) s0 [] = Some (rest, groups m).
Proof.
  induction s as [| x s IH]; cbn [search].
  - destruct (rmatch ci r (fun s' c' => Some (s', c')) [] [])
      as [[rest0 c0] |] eqn:Hm; [| discriminate].
    intros [= <- <-]. by exists [], [].
  - destruct (rmatch ci r (fun s' c' => Some (s', c')) (x :: s) [])
      as [[rest0 c0] |] eqn:Hm.
    + intros [= <- <-]. by exists [], (x :: s).
    + intros Hs. destruct (IH Hs) as (pre & s0 & -> & H0).
      by exists (x :: pre), s0.
Qed.

Lemma chars_str (l : list ascii) : Js.chars (Js.str l) = l.
Proof. apply list_ascii_of_string_of_list_ascii. Qed.

Lemma chars_append (s t : string) : Js.chars (s ++ t) = Js.chars s ++ Js.chars t.
Proof.
  unfold Js.chars. induction s as [| a s IH]; [reflexivity |].
  simpl. by rewrite IH.
Qed.

Lemma alphanumeric_class (x : ascii) :
  in_class false alphanumeric x = true ->
  Js.is_digit x || Js.is_upper x || Js.is_lower x = true.
Proof.
  unfold in_class, alphanumeric, Js.is_digit, Js.is_upper, Js.is_lower.
  cbn [existsb in_item andb]. cbv zeta. rewrite !orb_false_r.
  change (Js.code "a") with 97. change (Js.code "z") with 122.
  change (Js.code "A") with 65. change (Js.code "Z") with 90.
  change (Js.code "0") with 48. change (Js.code "9") with 57.
  intros H. repeat (apply orb_true_iff in H; destruct H as [H | H]);
    rewrite H; by rewrite ?orb_true_r.
Qed.

(** The key [extractFigmaFileKey] returns really is in the link: it
    follows [figma.com/file/] or [figma.com/design/], it is not empty
    and it consists of letters and digits only. *)
Theorem extractFigmaFileKey_sound (url key : string) :
  extractFigmaFileKey url = Some key ->
  exists (kind : string) (pre post : list ascii),
    (kind = "file" \/ kind = "design")
    /\ Js.chars url
       = pre ++ Js.chars ("figma.com/" ++ kind ++ "/" ++ key) ++ post
    /\ key <> EmptyString
    /\ Forall (fun x => Js.is_digit x || Js.is_upper x || Js.is_lower x = true)
         (Js.chars key).
Proof.
  unfold extractFigmaFileKey, exec. intros Hkey.
  destruct (search false figmaFileKeyRegex (Js.chars url)) as [[m rest] |] eqn:Hs;
    [| discriminate].
  cbn in Hkey. injection Hkey as <-.
  apply search_sound in Hs. destruct Hs as (pre & s0 & Hurl & Hm).
  unfold figmaFileKeyRegex in Hm. cbn [seqs alts map] in Hm.
  rewrite rmatch_Seq in Hm.
  apply rmatch_sound in Hm. destruct Hm as (s1 & c1 & Hl1 & Hm).
  apply lang_lit_chars in Hl1.
  rewrite rmatch_Seq, rmatch_Alt in Hm.
  assert (Hkind : exists kind s2 c2,
             (kind = "file" \/ kind = "design")
             /\ s1 = Js.chars kind ++ s2
             /\ rmatch false (Seq (Lit "/")
                  (Grp 1 (Plus (Cls false alphanumeric))))
                  (fun s' c' => Some (s', c')) s2 c2 = Some (rest, groups m)).
  { destruct (rmatch false (lit "file")
                (rmatch false (Seq (Lit "/")
                   (Grp 1 (Plus (Cls false alphanumeric))))
                   (fun s' c' => Some (s', c'))) s1 c1) as [res |] eqn:Hf.
    - injection Hm as ->.
      apply rmatch_sound in Hf. destruct Hf as (s2 & c2 & Hl2 & Hrest).
      apply lang_lit_chars in Hl2. exists "file", s2, c2.
      split; [by left | by split].
    - apply rmatch_sound in Hm. destruct Hm as (s2 & c2 & Hl2 & Hrest).
      apply lang_lit_chars in Hl2. exists "design", s2, c2.
      split; [by right | by split]. }
  destruct Hkind as (kind & s2 & c2 & Hkind & Hs1 & Hm2).
  rewrite rmatch_Seq in Hm2.
  apply rmatch_sound in Hm2. destruct Hm2 as (s3 & c3 & Hl3 & Hm3).
  inversion Hl3 as [| ? slash ? Hslash | | | | | | | |]; subst.
  cbn [char_eq] in Hslash. apply Ascii.eqb_eq in Hslash. subst slash.
  rewrite rmatch_Grp in Hm3.
  apply rmatch_sound in Hm3. destruct Hm3 as (s4 & c4 & Hl4 & Hres).
  injection Hres as <- Hgroups.
  apply lang_plus_class in Hl4. destruct Hl4 as (w & -> & Hne & Hw).
  assert (Hgroup : group 1 m = Js.str w).
  { unfold group. rewrite <- Hgroups. cbn [getcap setcap Nat.eqb].
    do 2 f_equal. rewrite length_app.
    replace (List.length w + List.length s4 - List.length s4)
      with (List.length w) by lia.
    apply take_app_length. }
  exists kind, pre, s4. split; [exact Hkind |]. split; [| split].
  - rewrite Hurl, Hgroup.
    rewrite !chars_append, chars_str.
    change (Js.chars "/") with ["/"%char].
    by rewrite <- !app_assoc.
  - rewrite Hgroup. destruct w; [done | discriminate].
  - rewrite Hgroup, chars_str. eapply Forall_impl; [exact Hw |].
    intros x Hx. by apply alphanumeric_class.
Qed.

Example extractFigmaFileKey_examples :
  extractFigmaFileKey "https://www.figma.com/design/AbC123xyz/Paywall?node-id=1-2"
  = Some "AbC123xyz"
  /\ extractFigmaFileKey "https://www.figma.com/file/k9/-x" = Some "k9"
  /\ extractFigmaFileKey "https://www.figma.com/proto/AbC123" = None
  /\ extractFigmaFileKey "https://example.com/design/AbC123" = None.
Proof. vm_compute. repeat split; reflexivity. Qed.

(** A link to a design file and the key taken from it. *)
Lemma extractFigmaFileKey_sound_witness :
  extractFigmaFileKey "https://www.figma.com/design/AbC123xyz/Paywall"
  = Some "AbC123xyz"
  /\ exists (kind : string) (pre post : list ascii),
      (kind = "file" \/ kind = "design")
      /\ Js.chars "https://www.figma.com/design/AbC123xyz/Paywall"
         = pre ++ Js.chars ("figma.com/" ++ kind ++ "/" ++ "AbC123xyz") ++ post
      /\ "AbC123xyz" <> EmptyString
      /\ Forall (fun x => Js.is_digit x || Js.is_upper x || Js.is_lower x = true)
           (Js.chars "AbC123xyz").
Proof.
  assert (H : extractFigmaFileKey
                "https://www.figma.com/design/AbC123xyz/Paywall"
              = Some "AbC123xyz") by (vm_compute; reflexivity).
  split; [exact H |].
  exact (extractFigmaFileKey_sound _ _ H).
Defined.

(** * The sign of the numbers of a snapshot *)

Lemma getcap_setcap (i j : nat) (v : list ascii) (c : caps) :
  getcap i (setcap j v c) = if Nat.eqb i j then Some v else getcap i c.
Proof.
  unfold setcap. cbn [getcap]. destruct (Nat.eqb_spec i j) as [-> | Hij];
    [reflexivity |].
  induction c as [| [k w] c IH]; [reflexivity |].
  unfold caps in *. rewrite filter_cons. cbn [fst].
  destruct (decide (Is_true (negb (Nat.eqb k j)))) as [Hk | Hk].
  - cbn [getcap]. by rewrite IH.
  - cbn [getcap]. destruct (Nat.eqb_spec k j) as [-> | Hkj]; [| by destruct Hk].
    rewrite IH. by destruct (Nat.eqb_spec i j).
Qed.

(** An invariant [C] of the groups that every group of [r] keeps, on
    inputs that satisfy [S], holds of the groups the matcher passes to
    its continuation. *)
Lemma rmatch_invariant (ci : bool) (S : list ascii -> Prop)
  (C : caps -> Prop) :
  (forall r1 s s', S s -> lang ci r1 s s' -> S s') ->
  forall r : regex,
    (forall j r1 s s' c,
        r1 ∈ group_bodies j r -> S s -> lang ci r1 s s' -> C c ->
        C (setcap j (take (List.length s - List.length s') s) c)) ->
    forall (k : cont) (s : list ascii) (c : caps) (res : list ascii * caps),
      rmatch ci r k s c = Some res -> S s -> C c ->
      exists s' c', lang ci r s s' /\ C c' /\ k s' c' = Some res.
Proof.
  intros Hclosed.
  induction r as [| a | neg items | | r1 IH1 r2 IH2 | r1 IH1 r2 IH2
                  | lz r1 IH1 | j r1 IH1]; intros Hb k s c res;
    cbn [rmatch].
  - intros Hk Hs Hc. exists s, c. split; [constructor | by split].
  - destruct s as [| x s]; [discriminate |].
    destruct (char_eq ci a x) eqn:Hx; [| discriminate].
    intros Hk Hs Hc. exists s, c. split; [by constructor | by split].
  - destruct s as [| x s]; [discriminate |].
    destruct (xorb neg (in_class ci items x)) eqn:Hx; [| discriminate].
    intros Hk Hs Hc. exists s, c. split; [by constructor | by split].
  - destruct s as [| x s]; [discriminate |].
    destruct (Js.is_line_terminator x) eqn:Hx; [discriminate |].
    intros Hk Hs Hc. exists s, c. split; [by constructor | by split].
  - intros H1 Hs Hc.
    destruct (IH1 (fun j r0 s0 s0' c0 Hin =>
                     Hb j r0 s0 s0' c0
                       (proj2 (elem_of_app _ _ _) (or_introl Hin)))
                _ _ _ _ H1 Hs Hc) as (s1 & c1 & Hl1 & Hc1 & H2).
    destruct (IH2 (fun j r0 s0 s0' c0 Hin =>
                     Hb j r0 s0 s0' c0
                       (proj2 (elem_of_app _ _ _) (or_intror Hin)))
                _ _ _ _ H2 (Hclosed _ _ _ Hs Hl1) Hc1)
      as (s2 & c2 & Hl2 & Hc2 & Hk).
    exists s2, c2. split; [by econstructor | by split].
  - destruct (rmatch ci r1 k s c) as [res1 |] eqn:H1.
    + intros [= <-] Hs Hc.
      destruct (IH1 (fun j r0 s0 s0' c0 Hin =>
                       Hb j r0 s0 s0' c0
                         (proj2 (elem_of_app _ _ _) (or_introl Hin)))
                  _ _ _ _ H1 Hs Hc) as (s' & c' & Hl & Hc' & Hk).
      exists s', c'. split; [by apply lang_alt_l | by split].
    + intros H2 Hs Hc.
      destruct (IH2 (fun j r0 s0 s0' c0 Hin =>
                       Hb j r0 s0 s0' c0
                         (proj2 (elem_of_app _ _ _) (or_intror Hin)))
                  _ _ _ _ H2 Hs Hc) as (s' & c' & Hl & Hc' & Hk).
      exists s', c'. split; [by apply lang_alt_r | by split].
  - cbn [group_bodies] in Hb.
    generalize (List.length s) as fuel. intros fuel. revert s c.
    induction fuel as [| fuel IHf]; intros s c.
    + destruct lz.
      * destruct (k s c) as [res0 |] eqn:Hk; [| discriminate].
        intros [= <-] Hs Hc. exists s, c. split; [constructor | by split].
      * intros Hk Hs Hc. exists s, c. split; [constructor | by split].
    + assert (Hagain :
          rmatch ci r1
            (fun s' c' =>
               if Nat.ltb (List.length s') (List.length s)
               then (fix loop (fuel0 : nat) (s0 : list ascii) (c0 : caps)
                       {struct fuel0} : option (list ascii * caps) :=
                       let again (_ : unit) :=
                         match fuel0 with
                         | O => None
                         | S fuel' =>
                             rmatch ci r1
                               (fun s1 c1 =>
                                  if Nat.ltb (List.length s1) (List.length s0)
                                  then loop fuel' s1 c1 else None) s0 c0
                         end in
                       if lz then
                         match k s0 c0 with
                         | Some res0 => Some res0
                         | None => again tt
                         end
                       else
                         match again tt with
                         | Some res0 => Some res0
                         | None => k s0 c0
                         end) fuel s' c'
               else None) s c = Some res ->
          S s -> C c ->
          exists s' c', lang ci (Star lz r1) s s' /\ C c'
                        /\ k s' c' = Some res).
      { intros H1 Hs Hc.
        destruct (IH1 Hb _ _ _ _ H1 Hs Hc) as (s1 & c1 & Hl1 & Hc1 & Hloop).
        destruct (Nat.ltb (List.length s1) (List.length s)); [| discriminate].
        destruct (IHf _ _ Hloop (Hclosed _ _ _ Hs Hl1) Hc1)
          as (s2 & c2 & Hl2 & Hc2 & Hk).
        exists s2, c2. split; [by econstructor | by split]. }
      destruct lz.
      * destruct (k s c) as [res0 |] eqn:Hk.
        -- intros [= <-] Hs Hc. exists s, c. split; [constructor | by split].
        -- exact Hagain.
      * match goal with
        | |- match ?again with _ => _ end = _ -> _ =>
            destruct again as [res0 |] eqn:H1
        end.
        -- intros [= <-]. by apply Hagain.
        -- intros Hk Hs Hc. exists s, c. split; [constructor | by split].
  - intros H1 Hs Hc.
    destruct (IH1 (fun j' r0 s0 s0' c0 Hin =>
                     Hb j' r0 s0 s0' c0
                       (proj2 (elem_of_app _ _ _) (or_intror Hin)))
                _ _ _ _ H1 Hs Hc) as (s' & c' & Hl & Hc' & Hk).
    exists s', (setcap j (take (List.length s - List.length s') s) c').
    split; [by constructor |]. split; [| exact Hk].
    apply (Hb j r1 s s' c'); [| exact Hs | exact Hl | exact Hc'].
    cbn [group_bodies]. rewrite Nat.eqb_refl. apply list_elem_of_here.
Qed.

(** The matcher only stores in group [i] what a body of group [i]
    matched. *)
Lemma rmatch_groups (ci : bool) (i : nat) (P : list ascii -> Prop)
  (r : regex) :
  Forall (fun r1 => forall s s',
              lang ci r1 s s' -> P (take (List.length s - List.length s') s))
    (group_bodies i r) ->
  forall (k : cont) (s : list ascii) (c : caps) (res : list ascii * caps),
    rmatch ci r k s c = Some res ->
    (forall v, getcap i c = Some v -> P v) ->
    exists s' c', lang ci r s s'
                  /\ (forall v, getcap i c' = Some v -> P v)
                  /\ k s' c' = Some res.
Proof.
  intros Hb k s c res Hm Hc.
  apply (rmatch_invariant ci (fun _ => True)
           (fun c => forall v, getcap i c = Some v -> P v))
    with (r := r) (s := s) (c := c); try done.
  intros j r1 s0 s0' c0 Hin _ Hl Hc0 v. rewrite getcap_setcap.
  destruct (Nat.eqb_spec i j) as [-> | Hij]; [| apply Hc0].
  intros [= <-]. rewrite Forall_forall in Hb. by apply (Hb r1).
Qed.

Lemma matchAll_groups (ci : bool) (i : nat) (P : list ascii -> Prop)
  (r : regex) (css : string) (m : rmatch_result) :
  Forall (fun r1 => forall s s',
              lang ci r1 s s' -> P (take (List.length s - List.length s') s))
    (group_bodies i r) ->
  P [] ->
  m ∈ matchAll ci r css -> P (Js.chars (group i m)).
Proof.
  intros Hb Hnil. unfold matchAll.
  generalize (S (String.length css)) as fuel. generalize (Js.chars css) as s.
  intros s fuel. revert s.
  induction fuel as [| fuel IH]; intros s; cbn [matchAll_from].
  { intros Hm. by apply elem_of_nil in Hm. }
  destruct (search ci r s) as [[m0 rest] |] eqn:Hs;
    [| intros Hm; by apply elem_of_nil in Hm].
  intros Hm. apply elem_of_cons in Hm. destruct Hm as [-> | Hm].
  - apply search_sound in Hs. destruct Hs as (pre & s0 & _ & Hr).
    destruct (rmatch_groups ci i P r Hb _ _ _ _ Hr) as (s' & c' & _ & Hc' & Hk).
    { intros v. discriminate. }
    injection Hk as _ Hg. unfold group. rewrite <- Hg.
    destruct (getcap i c') as [v |] eqn:Hv; [| exact Hnil].
    rewrite chars_str. by apply Hc'.
  - destruct (String.eqb (whole m0) EmptyString).
    + destruct rest as [| x rest]; [by apply elem_of_nil in Hm |].
      by apply (IH rest).
    + by apply (IH rest).
Qed.

Lemma all_ascii_complete (x : ascii) : x ∈ all_ascii.
Proof.
  unfold all_ascii. rewrite <- (ascii_nat_embedding x).
  apply list_elem_of_In, in_map, in_seq.
  pose proof (nat_ascii_bounded x). lia.
Qed.

Lemma forallb_ascii (f : ascii -> bool) (x : ascii) :
  forallb f all_ascii = true -> f x = true.
Proof.
  intros H. rewrite forallb_forall in H. apply H.
  apply list_elem_of_In, all_ascii_complete.
Qed.

(** The test [starts] is sound. *)
Lemma starts_sound (ci : bool) (F : ascii -> bool) (r : regex)
  (s s' : list ascii) :
  lang ci r s s' -> starts ci F r = true ->
  exists x w, s = x :: w ++ s' /\ F x = true.
Proof.
  induction 1 as [s | a x s Hx | neg items x s Hx | x s Hx
                  | r1 r2 s s1 s2 _ IH1 H2 _
                  | r1 r2 s s' _ IH | r1 r2 s s' _ IH | lz r s
                  | lz r s s1 s2 _ _ _ _ | i r s s' _ IH];
    cbn [starts]; try discriminate.
  - intros Hf. apply (forallb_ascii _ x) in Hf. cbv beta in Hf.
    rewrite Hx in Hf. by exists x, [].
  - intros Hf. apply (forallb_ascii _ x) in Hf. cbv beta in Hf.
    rewrite Hx in Hf. by exists x, [].
  - intros Hf. apply (forallb_ascii _ x) in Hf. cbv beta in Hf.
    rewrite Hx in Hf. by exists x, [].
  - intros Hf. destruct (IH1 Hf) as (x & w & -> & Hx).
    apply lang_prefix in H2. destruct H2 as [w2 ->].
    exists x, (w ++ w2). split; [by rewrite <- app_assoc | done].
  - intros Hf. apply andb_true_iff in Hf. apply IH, Hf.
  - intros Hf. apply andb_true_iff in Hf. apply IH, Hf.
  - exact IH.
Qed.

(** A group whose bodies all start with a plain character holds a
    text that is empty or starts with one. *)
Lemma groups_start (ci : bool) (i : nat) (r : regex) (css : string)
  (m : rmatch_result) :
  forallb (starts ci plain) (group_bodies i r) = true ->
  m ∈ matchAll ci r css -> unsigned_start (Js.chars (group i m)).
Proof.
  intros Hb. apply matchAll_groups; [| exact I].
  rewrite forallb_forall in Hb. apply Forall_forall. intros r1 Hr1 s s' Hl.
  destruct (starts_sound ci plain r1 s s' Hl) as (x & w & -> & Hx).
  { apply Hb. by apply list_elem_of_In. }
  cbn [List.length]. rewrite length_app.
  replace (S (List.length w + List.length s') - List.length s')
    with (S (List.length w)) by lia.
  exact Hx.
Qed.

Lemma digits_val_nonneg (l : list ascii) (acc : Z) :
  (0 <= acc)%Z -> (0 <= Num.digits_val acc l)%Z.
Proof.
  revert acc. induction l as [| x l IH]; intros acc Hacc; [exact Hacc |].
  cbn [Num.digits_val]. apply IH. unfold Num.digit_val. lia.
Qed.

Lemma unsigned_decimal_nonneg (l : list ascii) (q : Q) :
  Num.unsigned_decimal l = Some q -> (0 <= q)%Q.
Proof.
  unfold Num.unsigned_decimal.
  destruct (Num.split_dot [] l) as [ip [fp |]].
  - destruct (_ && _); [| discriminate]. intros [= <-].
    rewrite Qred_correct. unfold Qle. cbn [Qnum Qden].
    pose proof (digits_val_nonneg (ip ++ fp) 0). lia.
  - destruct (_ && _); [| discriminate]. intros [= <-].
    unfold Qle, inject_Z. cbn [Qnum Qden].
    pose proof (digits_val_nonneg ip 0). lia.
Qed.

Lemma drop_while_snoc {A} (p : A -> bool) (l : list A) (x : A) :
  p x = false -> Js.drop_while p (l ++ [x]) = Js.drop_while p l ++ [x].
Proof.
  intros Hx. induction l as [| y l IH]; cbn [app Js.drop_while].
  - by rewrite Hx.
  - destruct (p y); [exact IH | reflexivity].
Qed.

(** [Number] gives no negative number for a text that does not start
    with white space or a minus sign. *)
Lemma Number_unsigned (v : string) (q : Q) :
  unsigned_start (Js.chars v) -> Num.Number v = Some q -> (0 <= q)%Q.
Proof.
  unfold Num.Number, Js.trim, unsigned_start. rewrite chars_str.
  destruct (Js.chars v) as [| x l].
  { cbn. by intros _ [= <-]. }
  unfold plain. intros Hx. apply negb_true_iff, orb_false_iff in Hx.
  destruct Hx as [Hsp Hminus].
  cbn [Js.drop_while]. rewrite Hsp.
  change (x :: l) with ([x] ++ l). rewrite rev_app_distr. cbn [rev app].
  rewrite drop_while_snoc by exact Hsp.
  rewrite rev_app_distr. cbn [rev app]. rewrite Hminus.
  destruct (Ascii.eqb x "+"); apply unsigned_decimal_nonneg.
Qed.

Lemma for_matches_invariant_in (I : Patterns -> Prop) (ci : bool)
  (re : regex) (css : string)
  (body : rmatch_result -> Patterns -> Patterns) (p : Patterns) :
  (forall m q, m ∈ matchAll ci re css -> I q -> I (body m q)) ->
  I p -> I (for_matches ci re css body p).
Proof.
  unfold for_matches. generalize (matchAll ci re css) as l. intros l.
  revert p. induction l as [| m l IH]; intros p Hbody Hp; [exact Hp |].
  cbn [foldl]. apply IH.
  - intros m' q Hm'. apply Hbody. by apply list_elem_of_further.
  - apply Hbody; [apply list_elem_of_here | exact Hp].
Qed.

Lemma unsigned_sets_add_num (c : numeric_category) (v : string)
  (p : Patterns) :
  (unsigned_category c = true ->
   forall q, Num.Number v = Some q -> (0 <= q)%Q) ->
  unsigned_sets p -> unsigned_sets (add_num c v p).
Proof.
  intros Hv Hp c' v' q Hc' Hin. cbn [add_num num_set] in Hin.
  destruct (decide (c' = c)) as [-> | Hne]; [| by apply (Hp c')].
  unfold Js.set_add in Hin. destruct (existsb (String.eqb v) (num_set p c)).
  - by apply (Hp c).
  - apply elem_of_app in Hin. destruct Hin as [Hin | Hin]; [by apply (Hp c) |].
    apply list_elem_of_singleton in Hin. subst v'. by apply Hv.
Qed.

Lemma unsigned_sets_add_group (c : numeric_category) (re : regex)
  (css : string) (m : rmatch_result) (p : Patterns) :
  forallb (starts true plain) (group_bodies 1 re) = true ->
  m ∈ matchAll true re css ->
  unsigned_sets p -> unsigned_sets (add_num c (group 1 m) p).
Proof.
  intros Hb Hm. apply unsigned_sets_add_num. intros _ q.
  apply Number_unsigned. by apply (groups_start true 1 re css).
Qed.

Lemma extractPatternsFromCSS_unsigned (css : string) (p : Patterns) :
  unsigned_sets p -> unsigned_sets (extractPatternsFromCSS css p).
Proof.
  intros Hp.
  assert (Hstr : forall c v q, unsigned_sets q -> unsigned_sets (add_str c v q)).
  { intros c v q Hq. exact Hq. }
  assert (Hfonts : forall names q,
             unsigned_sets q ->
             unsigned_sets
               (foldl (fun acc font => add_str fonts font acc) q names)).
  { intros names. induction names as [| n names IH]; intros q Hq; [exact Hq |].
    cbn [foldl]. by apply IH, Hstr. }
  assert (Hsigned : forall c v q,
             unsigned_category c = false ->
             unsigned_sets q -> unsigned_sets (add_num c v q)).
  { intros c v q Hc. apply unsigned_sets_add_num. congruence. }
  assert (Hconst : forall c v q x,
             Num.Number v = Some x -> (0 <= x)%Q ->
             unsigned_sets q -> unsigned_sets (add_num c v q)).
  { intros c v q x Hv Hx. apply unsigned_sets_add_num.
    intros _ y. rewrite Hv. by intros [= <-]. }
  unfold extractPatternsFromCSS. cbv zeta.
  repeat (apply for_matches_invariant_in;
          [intros m q Hm Hq;
           first [ by apply Hfonts
                 | by apply Hstr
                 | by apply Hsigned
                 | by (eapply unsigned_sets_add_group;
                       [| exact Hm | exact Hq]; vm_compute)
                 | exact Hq
                 | idtac ] |]).
  - destruct (_ && _); [| exact Hq].
    eapply unsigned_sets_add_group; [| exact Hm | exact Hq]. by vm_compute.
  - destruct (_ && _); [| exact Hq].
    eapply unsigned_sets_add_group; [| exact Hm | exact Hq]. by vm_compute.
  - destruct (String.eqb (group 1 m) "normal").
    { eapply Hconst; [by vm_compute | | exact Hq]. by vm_compute. }
    destruct (String.eqb (group 1 m) "bold").
    { eapply Hconst; [by vm_compute | | exact Hq]. by vm_compute. }
    destruct (negb (Num.isNaN (group 1 m))); [| exact Hq].
    eapply unsigned_sets_add_group; [| exact Hm | exact Hq]. by vm_compute.
  - exact Hp.
Qed.

Lemma collectPatterns_from_css (I : Patterns -> Prop) :
  (forall css q, I q -> I (extractPatternsFromCSS css q)) ->
  (forall name styles q, I q -> I (set_component name styles q)) ->
  I empty_patterns ->
  forall d : Dom.document, I (collectPatterns d).
Proof.
  intros Hcss Hset Hempty d.
  assert (Hfold : forall (f : Dom.node -> string) (l : list Dom.node) q,
             I q ->
             I (foldl (fun acc elem => extractPatternsFromCSS (f elem) acc)
                  q l)).
  { intros f l. induction l as [| x l IH]; intros q Hq; [exact Hq |].
    cbn [foldl]. by apply IH, Hcss. }
  assert (Hcomp : forall name styles q,
             I q -> I (set_component_if_any name styles q)).
  { intros name styles q Hq. unfold set_component_if_any.
    destruct (Nat.ltb 0 (size styles)); [by apply Hset | exact Hq]. }
  unfold collectPatterns, extractComponentStyles. cbv zeta.
  do 3 apply Hcomp.
  apply (Hfold (fun elem => default EmptyString (Dom.attr "style" elem))).
  by apply (Hfold Dom.inner_html).
Qed.

(** No size, weight, spacing, radius, opacity, gap, width, height or
    breakpoint of a snapshot is negative: the capture groups of these
    rules hold no sign.  Only letter spacings and z-indices can be. *)
Theorem snapshot_numbers_are_unsigned (d : Dom.document)
  (c : numeric_category) (x : Q) :
  unsigned_category c = true ->
  x ∈ s_num (extractPaywallPatterns d) c ->
  (0 <= x)%Q.
Proof.
  intros Hc Hx. cbn [extractPaywallPatterns s_num] in Hx.
  unfold numeric_output in Hx. apply subseteq_take in Hx.
  unfold Num.sort_numbers in Hx. rewrite sort_by_perm in Hx.
  apply list_elem_of_In, filter_In in Hx. destruct Hx as [Hx _].
  apply list_elem_of_In, list_elem_of_omap in Hx.
  destruct Hx as (v & Hv & Hnum).
  refine (collectPatterns_from_css unsigned_sets _ _ _ d c v x Hc Hv Hnum).
  - apply extractPatternsFromCSS_unsigned.
  - intros name styles q Hq. exact Hq.
  - intros c' v' q _ Hin. by apply elem_of_nil in Hin.
Qed.

(** A margin of 8 pixels. *)
Lemma snapshot_numbers_are_unsigned_witness :
  unsigned_category spacing = true
  /\ (8 # 1)%Q ∈ s_num (extractPaywallPatterns (style_doc "p{margin:8px}"))
                   spacing
  /\ (0 <= 8 # 1)%Q.
Proof.
  assert (H1 : unsigned_category spacing = true) by reflexivity.
  assert (H2 : (8 # 1)%Q
               ∈ s_num (extractPaywallPatterns (style_doc "p{margin:8px}"))
                   spacing)
    by (vm_compute; apply list_elem_of_here).
  split; [exact H1 |]. split; [exact H2 |].
  exact (snapshot_numbers_are_unsigned _ _ _ H1 H2).
Defined.

(** A negative margin is not read at all, a negative letter spacing
    and a negative z-index are. *)
Example signed_values :
  let s := extractPaywallPatterns
             (style_doc "p{margin:-8px;letter-spacing:-0.5px;z-index:-1}") in
  s_num s spacing = [] /\ s_num s letterSpacing = [(-1 # 2)%Q]
  /\ s_num s zIndex = [(-1 # 1)%Q].
Proof. vm_compute. repeat split; reflexivity. Qed.


(** * Whole numbers and words *)

(** The test [chars_in] is sound. *)
Lemma chars_in_sound (ci : bool) (F : ascii -> bool) (r : regex)
  (s s' : list ascii) :
  lang ci r s s' -> chars_in ci F r = true ->
  exists w, s = w ++ s' /\ Forall (fun x => F x = true) w.
Proof.
  induction 1 as [s | a x s Hx | neg items x s Hx | x s Hx
                  | r1 r2 s s1 s2 _ IH1 _ IH2
                  | r1 r2 s s' _ IH | r1 r2 s s' _ IH | lz r s
                  | lz r s s1 s2 _ IH1 _ IH2 | i r s s' _ IH];
    cbn [chars_in].
  - intros _. by exists [].
  - intros Hf. apply (forallb_ascii _ x) in Hf. cbv beta in Hf.
    rewrite Hx in Hf. exists [x]. split; [done | by constructor].
  - intros Hf. apply (forallb_ascii _ x) in Hf. cbv beta in Hf.
    rewrite Hx in Hf. exists [x]. split; [done | by constructor].
  - intros Hf. apply (forallb_ascii _ x) in Hf. cbv beta in Hf.
    rewrite Hx in Hf. exists [x]. split; [done | by constructor].
  - intros Hf. apply andb_true_iff in Hf. destruct Hf as [Hf1 Hf2].
    destruct (IH1 Hf1) as (w1 & -> & Hw1). destruct (IH2 Hf2) as (w2 & -> & Hw2).
    exists (w1 ++ w2). split; [by rewrite app_assoc | by apply Forall_app].
  - intros Hf. apply andb_true_iff in Hf. apply IH, Hf.
  - intros Hf. apply andb_true_iff in Hf. apply IH, Hf.
  - intros _. by exists [].
  - intros Hf. destruct (IH1 Hf) as (w1 & -> & Hw1).
    destruct (IH2 Hf) as (w2 & -> & Hw2).
    exists (w1 ++ w2). split; [by rewrite app_assoc | by apply Forall_app].
  - exact IH.
Qed.

(** A group whose bodies only consume characters that satisfy [F]
    holds such characters only. *)
Lemma groups_chars (ci : bool) (F : ascii -> bool) (i : nat) (r : regex)
  (css : string) (m : rmatch_result) :
  forallb (chars_in ci F) (group_bodies i r) = true ->
  m ∈ matchAll ci r css ->
  Forall (fun x => F x = true) (Js.chars (group i m)).
Proof.
  intros Hb. apply matchAll_groups; [| constructor].
  rewrite forallb_forall in Hb. apply Forall_forall. intros r1 Hr1 s s' Hl.
  destruct (chars_in_sound ci F r1 s s' Hl) as (w & -> & Hw).
  { apply Hb. by apply list_elem_of_In. }
  rewrite length_app.
  replace (List.length w + List.length s' - List.length s')
    with (List.length w) by lia.
  by rewrite take_app_length.
Qed.

Lemma is_alphanumeric_plain (x : ascii) :
  is_alphanumeric x = true ->
  Js.is_space x = false /\ Ascii.eqb x "-" = false
  /\ Ascii.eqb x "+" = false /\ Ascii.eqb x "." = false.
Proof.
  intros Hx.
  assert (H : forallb
                (fun x => implb (is_alphanumeric x)
                            (negb (Js.is_space x) && negb (Ascii.eqb x "-")
                             && negb (Ascii.eqb x "+")
                             && negb (Ascii.eqb x ".")))
                all_ascii = true) by (vm_compute; reflexivity).
  apply (forallb_ascii _ x) in H. cbv beta in H. rewrite Hx in H.
  cbn [implb] in H. rewrite !andb_true_iff, !negb_true_iff in H. tauto.
Qed.

Lemma split_dot_no_dot (l cur : list ascii) :
  Forall (fun x => Ascii.eqb x "." = false) l ->
  Num.split_dot cur l = (rev cur ++ l, None).
Proof.
  intros Hl. revert cur.
  induction Hl as [| x l Hx _ IH]; intros cur; cbn [Num.split_dot].
  - by rewrite app_nil_r.
  - rewrite Hx, IH. cbn [rev]. by rewrite <- app_assoc.
Qed.

(** [Number] turns letters and digits into a whole number, if into a
    number at all. *)
Lemma Number_whole (v : string) (q : Q) :
  Forall (fun x => is_alphanumeric x = true) (Js.chars v) ->
  Num.Number v = Some q ->
  exists z : Z, (0 <= z)%Z /\ q = inject_Z z.
Proof.
  unfold Num.Number, Js.trim. rewrite chars_str.
  destruct (Js.chars v) as [| x l] eqn:Hv.
  { cbn. intros _ [= <-]. by exists 0%Z. }
  intros Hall.
  assert (Hplain : Forall (fun x => Js.is_space x = false) (x :: l)).
  { eapply Forall_impl; [exact Hall |]. intros y Hy.
    by apply is_alphanumeric_plain in Hy as (Hy & _). }
  assert (Hdrop : forall k, Forall (fun x => Js.is_space x = false) k ->
                            Js.drop_while Js.is_space k = k).
  { intros k Hk. destruct Hk as [| y k Hy _]; [done |].
    cbn [Js.drop_while]. by rewrite Hy. }
  rewrite (Hdrop _ Hplain).
  rewrite Hdrop by (by apply Forall_rev).
  rewrite rev_involutive.
  apply Forall_cons in Hall as Hx. destruct Hx as [Hx _].
  apply is_alphanumeric_plain in Hx as (_ & Hminus & Hplus & _).
  rewrite Hminus, Hplus.
  unfold Num.unsigned_decimal. rewrite split_dot_no_dot.
  2:{ eapply Forall_impl; [exact Hall |]. intros y Hy.
      by apply is_alphanumeric_plain in Hy as (_ & _ & _ & Hy). }
  cbn [rev app]. destruct (_ && _); [| discriminate]. intros [= <-].
  eexists. split; [| reflexivity].
  apply digits_val_nonneg. unfold Num.digit_val. lia.
Qed.

Lemma whole_sets_add_num (c : numeric_category) (v : string) (p : Patterns) :
  (whole_category c = true ->
   Forall (fun x => is_alphanumeric x = true) (Js.chars v)) ->
  whole_sets p -> whole_sets (add_num c v p).
Proof.
  intros Hv Hp c' v' Hc' Hin. cbn [add_num num_set] in Hin.
  destruct (decide (c' = c)) as [-> | Hne]; [| by apply (Hp c')].
  unfold Js.set_add in Hin. destruct (existsb (String.eqb v) (num_set p c)).
  - by apply (Hp c).
  - apply elem_of_app in Hin. destruct Hin as [Hin | Hin]; [by apply (Hp c) |].
    apply list_elem_of_singleton in Hin. subst v'. by apply Hv.
Qed.

Lemma extractPatternsFromCSS_whole (css : string) (p : Patterns) :
  whole_sets p -> whole_sets (extractPatternsFromCSS css p).
Proof.
  intros Hp.
  assert (Hfonts : forall names q,
             whole_sets q ->
             whole_sets
               (foldl (fun acc font => add_str fonts font acc) q names)).
  { intros names. induction names as [| n names IH]; intros q Hq; [exact Hq |].
    cbn [foldl]. by apply IH. }
  assert (Hother : forall c v q,
             whole_category c = false ->
             whole_sets q -> whole_sets (add_num c v q)).
  { intros c v q Hc. apply whole_sets_add_num. congruence. }
  assert (Hgroup : forall c re m q,
             forallb (chars_in true is_alphanumeric) (group_bodies 1 re) = true ->
             m ∈ matchAll true re css ->
             whole_sets q -> whole_sets (add_num c (group 1 m) q)).
  { intros c re m q Hb Hm. apply whole_sets_add_num. intros _.
    by apply (groups_chars true is_alphanumeric 1 re css). }
  assert (Hconst : forall c v q,
             forallb is_alphanumeric (Js.chars v) = true ->
             whole_sets q -> whole_sets (add_num c v q)).
  { intros c v q Hv. apply whole_sets_add_num. intros _.
    apply Forall_forall. intros x Hx. rewrite forallb_forall in Hv.
    by apply Hv, list_elem_of_In. }
  unfold extractPatternsFromCSS. cbv zeta.
  repeat (apply for_matches_invariant_in;
          [intros m q Hm Hq;
           first [ by apply Hfonts
                 | by apply Hother
                 | by (eapply Hgroup; [| exact Hm | exact Hq]; vm_compute)
                 | exact Hq
                 | idtac ] |]).
  - destruct (_ && _); [| exact Hq]. by apply Hother.
  - destruct (_ && _); [| exact Hq]. by apply Hother.
  - destruct (String.eqb (group 1 m) "normal").
    { apply Hconst; [by vm_compute | exact Hq]. }
    destruct (String.eqb (group 1 m) "bold").
    { apply Hconst; [by vm_compute | exact Hq]. }
    destruct (negb (Num.isNaN (group 1 m))); [| exact Hq].
    eapply Hgroup; [| exact Hm | exact Hq]. by vm_compute.
  - exact Hp.
Qed.

Lemma word_sets_add_str (c : string_category) (v : string) (p : Patterns) :
  (word_category c = true ->
   Forall (fun x => Js.is_word x = true) (Js.chars v)) ->
  word_sets p -> word_sets (add_str c v p).
Proof.
  intros Hv Hp c' v' Hc' Hin. cbn [add_str str_set] in Hin.
  destruct (decide (c' = c)) as [-> | Hne]; [| by apply (Hp c')].
  unfold Js.set_add in Hin. destruct (existsb (String.eqb v) (str_set p c)).
  - by apply (Hp c).
  - apply elem_of_app in Hin. destruct Hin as [Hin | Hin]; [by apply (Hp c) |].
    apply list_elem_of_singleton in Hin. subst v'. by apply Hv.
Qed.

Lemma extractPatternsFromCSS_words (css : string) (p : Patterns) :
  word_sets p -> word_sets (extractPatternsFromCSS css p).
Proof.
  intros Hp.
  assert (Hother : forall c v q,
             word_category c = false ->
             word_sets q -> word_sets (add_str c v q)).
  { intros c v q Hc. apply word_sets_add_str. congruence. }
  assert (Hfonts : forall names q,
             word_sets q ->
             word_sets
               (foldl (fun acc font => add_str fonts font acc) q names)).
  { intros names. induction names as [| n names IH]; intros q Hq; [exact Hq |].
    cbn [foldl]. by apply IH, Hother. }
  assert (Hgroup : forall c re m q,
             forallb (chars_in true Js.is_word) (group_bodies 1 re) = true ->
             m ∈ matchAll true re css ->
             word_sets q -> word_sets (add_str c (group 1 m) q)).
  { intros c re m q Hb Hm. apply word_sets_add_str. intros _.
    by apply (groups_chars true Js.is_word 1 re css). }
  unfold extractPatternsFromCSS. cbv zeta.
  repeat (apply for_matches_invariant_in;
          [intros m q Hm Hq;
           first [ by apply Hfonts
                 | by apply Hother
                 | by (eapply Hgroup; [| exact Hm | exact Hq]; vm_compute)
                 | exact Hq
                 | idtac ] |]).
  - by destruct (_ && _).
  - by destruct (_ && _).
  - by repeat case_match.
  - exact Hp.
Qed.



(** Display types, positions, text transforms and animation names are
    single words of letters, digits and underscores: a value with a
    hyphen is stored up to the hyphen. *)
Theorem snapshot_keywords_are_words (d : Dom.document) (c : string_category)
  (v : string) :
  word_category c = true ->
  v ∈ s_str (extractPaywallPatterns d) c ->
  Forall (fun x => Js.is_word x = true) (Js.chars v).
Proof.
  intros Hc Hv. cbn [extractPaywallPatterns s_str] in Hv.
  unfold string_output in Hv. apply subseteq_take in Hv.
  refine (collectPatterns_from_css word_sets _ _ _ d c v Hc Hv).
  - apply extractPatternsFromCSS_words.
  - intros name styles q Hq. exact Hq.
  - intros c' v' _ Hin. by apply elem_of_nil in Hin.
Qed.

(** [inline-block] is stored as [inline]. *)
Lemma snapshot_keywords_are_words_witness :
  word_category displayTypes = true
  /\ "inline"
     ∈ s_str (extractPaywallPatterns (style_doc "p{display:inline-block}"))
         displayTypes
  /\ Forall (fun x => Js.is_word x = true) (Js.chars "inline").
Proof.
  assert (H1 : word_category displayTypes = true) by reflexivity.
  assert (H2 : "inline"
               ∈ s_str (extractPaywallPatterns
                          (style_doc "p{display:inline-block}")) displayTypes)
    by (vm_compute; apply list_elem_of_here).
  split; [exact H1 |]. split; [exact H2 |].
  exact (snapshot_keywords_are_words _ _ _ H1 H2).
Defined.

(** * Values copied from the style texts *)

Lemma piece_of_refl (l : list ascii) : piece_of l l.
Proof. exists [], []. by rewrite app_nil_r. Qed.

Lemma piece_of_trans (a b c : list ascii) :
  piece_of a b -> piece_of b c -> piece_of a c.
Proof.
  intros (p1 & q1 & ->) (p2 & q2 & ->).
  exists (p2 ++ p1), (q1 ++ q2). by rewrite <- !app_assoc.
Qed.

Lemma piece_of_nil (l : list ascii) : piece_of [] l.
Proof. by exists [], l. Qed.

Lemma drop_while_suffix {A} (p : A -> bool) (l : list A) :
  exists pre, l = pre ++ Js.drop_while p l.
Proof.
  induction l as [| x l [pre IH]]; [by exists [] |].
  cbn [Js.drop_while]. destruct (p x); [| by exists []].
  exists (x :: pre). cbn [app]. by rewrite <- IH.
Qed.

(** [s.trim()] is a piece of [s]. *)
Lemma trim_piece (s : string) : piece_of (Js.chars (Js.trim s)) (Js.chars s).
Proof.
  unfold Js.trim. rewrite chars_str.
  destruct (drop_while_suffix Js.is_space (Js.chars s)) as [pre Hpre].
  destruct (drop_while_suffix Js.is_space
              (rev (Js.drop_while Js.is_space (Js.chars s)))) as [post Hpost].
  exists pre, (rev post). rewrite Hpre at 1. f_equal.
  rewrite <- rev_app_distr, <- Hpost. by rewrite rev_involutive.
Qed.

(** A match of [search] and its groups are pieces of the input. *)
Lemma search_pieces (ci : bool) (r : regex) (s : list ascii)
  (m : rmatch_result) (rest : list ascii) :
  search ci r s = Some (m, rest) ->
  rest `suffix_of` s
  /\ piece_of (Js.chars (whole m)) s
  /\ forall i, piece_of (Js.chars (group i m)) s.
Proof.
  assert (Hat : forall s0 rest0 c0,
             rmatch ci r (fun s' c' => Some (s', c')) s0 [] = Some (rest0, c0) ->
             rest0 `suffix_of` s0
             /\ piece_of (take (List.length s0 - List.length rest0) s0) s0
             /\ forall i v, getcap i c0 = Some v -> piece_of v s0).
  { intros s0 rest0 c0 Hm.
    assert (Hclosed : forall r1 s1 s1',
               s1 `suffix_of` s0 -> lang ci r1 s1 s1' -> s1' `suffix_of` s0).
    { intros r1 s1 s1' [pre ->] Hl. apply lang_prefix in Hl.
      destruct Hl as [w ->]. exists (pre ++ w). by rewrite app_assoc. }
    assert (Hgrp : forall j r1 s1 s1' c,
               r1 ∈ group_bodies j r -> s1 `suffix_of` s0 ->
               lang ci r1 s1 s1' ->
               (forall i v, getcap i c = Some v -> piece_of v s0) ->
               forall i v,
                 getcap i (setcap j (take (List.length s1 - List.length s1') s1)
                             c) = Some v ->
                 piece_of v s0).
    { intros j r1 s1 s1' c Hin [pre ->] Hl Hc i v. rewrite getcap_setcap.
      destruct (Nat.eqb i j); [| apply Hc]. intros [= <-].
      apply lang_prefix in Hl. destruct Hl as [w ->].
      rewrite length_app.
      replace (List.length w + List.length s1' - List.length s1')
        with (List.length w) by lia.
      rewrite take_app_length. by exists pre, s1'. }
    destruct (rmatch_invariant ci (fun s1 => s1 `suffix_of` s0)
                (fun c => forall i v, getcap i c = Some v -> piece_of v s0)
                Hclosed r Hgrp (fun s' c' => Some (s', c')) s0 []
                (rest0, c0) Hm)
      as (s' & c' & Hl & Hc' & Hk); [done | by intros i v |].
    injection Hk as -> ->. apply lang_prefix in Hl. destruct Hl as [w ->].
    split; [by exists w |]. split; [| exact Hc'].
    rewrite length_app.
    replace (List.length w + List.length rest0 - List.length rest0)
      with (List.length w) by lia.
    rewrite take_app_length. by exists [], rest0. }
  assert (Hgroup : forall s0 c0,
             (forall i v, getcap i c0 = Some v -> piece_of v s0) ->
             forall w i, piece_of (Js.chars (group i (MatchResult w c0))) s0).
  { intros s0 c0 Hc w i. unfold group. cbn [groups].
    destruct (getcap i c0) as [v |] eqn:Hv; [| apply piece_of_nil].
    rewrite chars_str. by apply (Hc i). }
  assert (Hhere : forall s0 rest0 c0,
             rmatch ci r (fun s' c' => Some (s', c')) s0 [] = Some (rest0, c0) ->
             let m0 := MatchResult
                         (Js.str (take (List.length s0 - List.length rest0) s0))
                         c0 in
             rest0 `suffix_of` s0
             /\ piece_of (Js.chars (whole m0)) s0
             /\ forall i, piece_of (Js.chars (group i m0)) s0).
  { intros s0 rest0 c0 Hm m0. destruct (Hat _ _ _ Hm) as (Hsuf & Hw & Hc).
    split; [exact Hsuf |]. subst m0. cbn [whole]. rewrite chars_str.
    split; [exact Hw | by apply Hgroup]. }
  induction s as [| x s IH]; cbn [search].
  - destruct (rmatch ci r (fun s' c' => Some (s', c')) [] [])
      as [[rest0 c0] |] eqn:Hm; [| discriminate].
    intros [= <- <-]. by apply (Hhere [] rest0 c0).
  - destruct (rmatch ci r (fun s' c' => Some (s', c')) (x :: s) [])
      as [[rest0 c0] |] eqn:Hm.
    + intros [= <- <-]. by apply (Hhere (x :: s) rest0 c0).
    + intros Hs. destruct (IH Hs) as (Hsuf & Hw & Hg).
      assert (Hcons : forall v, piece_of v s -> piece_of v (x :: s)).
      { intros v (pre & post & ->). by exists (x :: pre), post. }
      split; [by apply suffix_cons_r |]. split; [by apply Hcons |].
      intros i. apply Hcons, Hg.
Qed.

Lemma matchAll_pieces (ci : bool) (r : regex) (css : string)
  (m : rmatch_result) :
  m ∈ matchAll ci r css ->
  piece_of (Js.chars (whole m)) (Js.chars css)
  /\ forall i, piece_of (Js.chars (group i m)) (Js.chars css).
Proof.
  unfold matchAll. generalize (S (String.length css)) as fuel.
  assert (Hsuffix : forall s v, s `suffix_of` Js.chars css ->
                                piece_of v s -> piece_of v (Js.chars css)).
  { intros s v [pre ->] (p & q & ->). exists (pre ++ p), q.
    by rewrite <- app_assoc. }
  assert (Hfrom : forall fuel s,
             s `suffix_of` Js.chars css ->
             m ∈ matchAll_from fuel ci r s ->
             piece_of (Js.chars (whole m)) (Js.chars css)
             /\ forall i, piece_of (Js.chars (group i m)) (Js.chars css)).
  { intros fuel. induction fuel as [| fuel IH]; intros s Hs;
      cbn [matchAll_from].
    { intros Hm. by apply elem_of_nil in Hm. }
    destruct (search ci r s) as [[m0 rest] |] eqn:Hsearch;
      [| intros Hm; by apply elem_of_nil in Hm].
    destruct (search_pieces _ _ _ _ _ Hsearch) as (Hrest & Hw & Hg).
    assert (Hrest' : rest `suffix_of` Js.chars css) by (by etrans).
    intros Hm. apply elem_of_cons in Hm. destruct Hm as [-> | Hm].
    - split; [by apply (Hsuffix s) |]. intros i. by apply (Hsuffix s).
    - destruct (String.eqb (whole m0) EmptyString).
      + destruct rest as [| x rest]; [by apply elem_of_nil in Hm |].
        apply (IH rest); [| exact Hm].
        etrans; [| exact Hrest']. by apply suffix_cons_r.
      + by apply (IH rest). }
  intros fuel. by apply Hfrom.
Qed.

Lemma verbatim_sets_add_str (texts : list string) (c : string_category)
  (v : string) (p : Patterns) :
  (verbatim_category c = true ->
   exists t, t ∈ texts /\ piece_of (Js.chars v) (Js.chars t)) ->
  verbatim_sets texts p -> verbatim_sets texts (add_str c v p).
Proof.
  intros Hv Hp c' v' Hc' Hin. cbn [add_str str_set] in Hin.
  destruct (decide (c' = c)) as [-> | Hne]; [| by apply (Hp c')].
  unfold Js.set_add in Hin. destruct (existsb (String.eqb v) (str_set p c)).
  - by apply (Hp c).
  - apply elem_of_app in Hin. destruct Hin as [Hin | Hin]; [by apply (Hp c) |].
    apply list_elem_of_singleton in Hin. subst v'. by apply Hv.
Qed.

Lemma extractPatternsFromCSS_verbatim (texts : list string) (css : string)
  (p : Patterns) :
  css ∈ texts ->
  verbatim_sets texts p -> verbatim_sets texts (extractPatternsFromCSS css p).
Proof.
  intros Hcss Hp.
  assert (Hother : forall c v q,
             verbatim_category c = false ->
             verbatim_sets texts q -> verbatim_sets texts (add_str c v q)).
  { intros c v q Hc. apply verbatim_sets_add_str. congruence. }
  assert (Hfonts : forall names q,
             verbatim_sets texts q ->
             verbatim_sets texts
               (foldl (fun acc font => add_str fonts font acc) q names)).
  { intros names. induction names as [| n names IH]; intros q Hq; [exact Hq |].
    cbn [foldl]. by apply IH, Hother. }
  assert (Hgroup : forall ci c re m q,
             m ∈ matchAll ci re css ->
             verbatim_sets texts q ->
             verbatim_sets texts (add_str c (group 1 m) q)).
  { intros ci c re m q Hm. apply verbatim_sets_add_str. intros _.
    exists css. split; [exact Hcss |]. by apply (matchAll_pieces ci re). }
  assert (Hgroup_trim : forall ci c re m q,
             m ∈ matchAll ci re css ->
             verbatim_sets texts q ->
             verbatim_sets texts (add_str c (Js.trim (group 1 m)) q)).
  { intros ci c re m q Hm. apply verbatim_sets_add_str. intros _.
    exists css. split; [exact Hcss |].
    eapply piece_of_trans; [apply trim_piece |].
    by apply (matchAll_pieces ci re). }
  assert (Hwhole_trim : forall ci c re m q,
             m ∈ matchAll ci re css ->
             verbatim_sets texts q ->
             verbatim_sets texts (add_str c (Js.trim (whole m)) q)).
  { intros ci c re m q Hm. apply verbatim_sets_add_str. intros _.
    exists css. split; [exact Hcss |].
    eapply piece_of_trans; [apply trim_piece |].
    by apply (matchAll_pieces ci re). }
  unfold extractPatternsFromCSS. cbv zeta.
  repeat (apply for_matches_invariant_in;
          [intros m q Hm Hq; cbv beta;
           lazymatch goal with
           | |- verbatim_sets _ (add_str _ (Js.trim (whole _)) _) =>
               eapply Hwhole_trim; [exact Hm | exact Hq]
           | |- verbatim_sets _ (add_str _ (Js.trim (group 1 _)) _) =>
               eapply Hgroup_trim; [exact Hm | exact Hq]
           | |- verbatim_sets _ (add_str borders _ _) => by apply Hother
           | |- verbatim_sets _ (add_str _ (group 1 _) _) =>
               eapply Hgroup; [exact Hm | exact Hq]
           | |- verbatim_sets _ (foldl _ _ _) => by apply Hfonts
           | |- verbatim_sets _ (add_num _ _ _) => exact Hq
           | |- verbatim_sets _ (set_css_variable _ _ _) => exact Hq
           | |- _ => by repeat case_match
           end |]).
  exact Hp.
Qed.



Example colors_are_not_normalised :
  s_str (extractPaywallPatterns (style_doc "a{color:#FFF} b{color:#fff}"))
    colors
  = ["#FFF"; "#fff"].
Proof. vm_compute. reflexivity. Qed.

(** * Where the numbers and the font names come from *)

Lemma copied_sets_add_num (texts : list string) (c : numeric_category)
  (v : string) (p : Patterns) :
  (c <> fontWeights ->
   exists t, t ∈ texts /\ piece_of (Js.chars v) (Js.chars t)) ->
  copied_sets texts p -> copied_sets texts (add_num c v p).
Proof.
  intros Hv Hp c' v' Hc' Hin. cbn [add_num num_set] in Hin.
  destruct (decide (c' = c)) as [-> | Hne]; [| by apply (Hp c')].
  unfold Js.set_add in Hin. destruct (existsb (String.eqb v) (num_set p c)).
  - by apply (Hp c).
  - apply elem_of_app in Hin. destruct Hin as [Hin | Hin]; [by apply (Hp c) |].
    apply list_elem_of_singleton in Hin. subst v'. by apply Hv.
Qed.

Lemma extractPatternsFromCSS_copied (texts : list string) (css : string)
  (p : Patterns) :
  css ∈ texts ->
  copied_sets texts p -> copied_sets texts (extractPatternsFromCSS css p).
Proof.
  intros Hcss Hp.
  assert (Hfonts : forall names q,
             copied_sets texts q ->
             copied_sets texts
               (foldl (fun acc font => add_str fonts font acc) q names)).
  { intros names. induction names as [| n names IH]; intros q Hq; [exact Hq |].
    cbn [foldl]. by apply IH. }
  assert (Hweights : forall v q,
             copied_sets texts q ->
             copied_sets texts (add_num fontWeights v q)).
  { intros v q. apply copied_sets_add_num. by intros []. }
  assert (Hgroup : forall ci c re m q,
             m ∈ matchAll ci re css ->
             copied_sets texts q ->
             copied_sets texts (add_num c (group 1 m) q)).
  { intros ci c re m q Hm. apply copied_sets_add_num. intros _.
    exists css. split; [exact Hcss |]. by apply (matchAll_pieces ci re). }
  unfold extractPatternsFromCSS. cbv zeta.
  repeat (apply for_matches_invariant_in;
          [intros m q Hm Hq; cbv beta;
           lazymatch goal with
           | |- copied_sets _ (add_num fontWeights _ _) => by apply Hweights
           | |- copied_sets _ (add_num _ (group 1 _) _) =>
               eapply Hgroup; [exact Hm | exact Hq]
           | |- copied_sets _ (foldl _ _ _) => by apply Hfonts
           | |- copied_sets _ (add_str _ _ _) => exact Hq
           | |- copied_sets _ (set_css_variable _ _ _) => exact Hq
           | |- _ => idtac
           end |]).
  - destruct (_ && _); [| exact Hq]. eapply Hgroup; [exact Hm | exact Hq].
  - destruct (_ && _); [| exact Hq]. eapply Hgroup; [exact Hm | exact Hq].
  - repeat case_match; first [by apply Hweights | exact Hq].
  - exact Hp.
Qed.



Lemma split_chars_no_sep (sep : ascii) (l cur : list ascii) :
  Forall (fun x => Ascii.eqb x sep = false) cur ->
  Forall (fun piece => Forall (fun x => Ascii.eqb x sep = false)
                         (Js.chars piece))
    (Js.split_chars sep cur l).
Proof.
  revert cur. induction l as [| x l IH]; intros cur Hcur;
    cbn [Js.split_chars].
  - constructor; [| constructor]. rewrite chars_str. by apply Forall_rev.
  - destruct (Ascii.eqb x sep) eqn:Hx.
    + constructor; [| by apply IH]. rewrite chars_str. by apply Forall_rev.
    + apply IH. by constructor.
Qed.

Lemma Forall_piece {A} (P : A -> Prop) (v t : list A) :
  (exists pre post, t = pre ++ v ++ post) -> Forall P t -> Forall P v.
Proof.
  intros (pre & post & ->) H. apply Forall_app in H as [_ H].
  by apply Forall_app in H as [H _].
Qed.

Lemma extractPatternsFromCSS_bare_fonts (css : string) (p : Patterns) :
  bare_fonts p -> bare_fonts (extractPatternsFromCSS css p).
Proof.
  intros Hp.
  assert (Hadd : forall v q,
             Forall (fun x => bare x = true) (Js.chars v) ->
             bare_fonts q -> bare_fonts (add_str fonts v q)).
  { intros v q Hv Hq v' Hin. cbn [add_str str_set] in Hin.
    destruct (decide (fonts = fonts)); [| done].
    unfold Js.set_add in Hin.
    destruct (existsb (String.eqb v) (str_set q fonts)); [by apply Hq |].
    apply elem_of_app in Hin. destruct Hin as [Hin | Hin]; [by apply Hq |].
    apply list_elem_of_singleton in Hin. by subst v'. }
  assert (Hother : forall c v q,
             c <> fonts -> bare_fonts q -> bare_fonts (add_str c v q)).
  { intros c v q Hc Hq v' Hin. cbn [add_str str_set] in Hin.
    destruct (decide (fonts = c)); [by subst | by apply Hq]. }
  assert (Hfonts : forall names q,
             Forall (fun n => Forall (fun x => bare x = true) (Js.chars n))
               names ->
             bare_fonts q ->
             bare_fonts
               (foldl (fun acc font => add_str fonts font acc) q names)).
  { intros names q Hnames. revert q.
    induction Hnames as [| n names Hn _ IH]; intros q Hq; [exact Hq |].
    cbn [foldl]. by apply IH, Hadd. }
  assert (Hnames : forall s,
             Forall (fun n => Forall (fun x => bare x = true) (Js.chars n))
               (map (fun f => Js.remove_chars is_quote (Js.trim f))
                  (Js.split "," s))).
  { intros s. apply Forall_map.
    eapply Forall_impl; [apply (split_chars_no_sep "," (Js.chars s) []);
                         constructor |].
    intros piece Hpiece. cbv beta. unfold Js.remove_chars. rewrite chars_str.
    apply Forall_forall. intros x Hx.
    apply list_elem_of_filter in Hx. destruct Hx as [Hq Hx].
    assert (Hcomma : Ascii.eqb x "," = false).
    { pose proof (Forall_piece _ _ _ (trim_piece piece) Hpiece) as Ht.
      rewrite Forall_forall in Ht. by apply Ht. }
    unfold bare. rewrite Hcomma. by destruct (is_quote x). }
  unfold extractPatternsFromCSS. cbv zeta.
  repeat (apply for_matches_invariant_in;
          [intros m q Hm Hq; cbv beta;
           lazymatch goal with
           | |- bare_fonts (foldl _ _ _) => by apply Hfonts
           | |- bare_fonts (add_str _ _ _) => by apply Hother
           | |- bare_fonts (add_num _ _ _) => exact Hq
           | |- bare_fonts (set_css_variable _ _ _) => exact Hq
           | |- _ => by repeat case_match
           end |]).
  exact Hp.
Qed.

(** No font name of a snapshot holds a quote or a comma: the value of
    [font-family] is split at the commas and the quotes are removed. *)
Theorem snapshot_fonts_are_bare (d : Dom.document) (v : string) :
  v ∈ s_str (extractPaywallPatterns d) fonts ->
  Forall (fun x => bare x = true) (Js.chars v).
Proof.
  intros Hv. cbn [extractPaywallPatterns s_str] in Hv.
  unfold string_output in Hv. apply subseteq_take in Hv.
  refine (collectPatterns_from_css bare_fonts _ _ _ d v Hv).
  - apply extractPatternsFromCSS_bare_fonts.
  - intros name styles q Hq. exact Hq.
  - intros v' Hin. by apply elem_of_nil in Hin.
Qed.

(** A quoted name with spaces inside the quotes keeps the spaces. *)
Lemma snapshot_fonts_are_bare_witness :
  let d := style_doc "p{font-family:' Inter ', serif}" in
  " Inter " ∈ s_str (extractPaywallPatterns d) fonts
  /\ Forall (fun x => bare x = true) (Js.chars " Inter ").
Proof.
  intros d.
  assert (H1 : " Inter " ∈ s_str (extractPaywallPatterns d) fonts)
    by (vm_compute; apply list_elem_of_here).
  split; [exact H1 |].
  exact (snapshot_fonts_are_bare d _ H1).
Defined.
